(** * Task DAG planner, task state store and task dispatcher

    A shallow embedding of the orchestration core of the report generator:
    - [Planner]    : agents/planner-agent.ts      (PlannerAgent.buildDag)
    - [Store]      : services/task-state-store.ts (TaskStateStore) together
                     with the stored procedure list_ready_tasks of
                     supabase/migrations/20241111_create_task_state.sql
    - [Dispatcher] : queue/task-dispatcher.ts     (TaskDispatcher)

    JavaScript values that travel through the code as [any] are modelled by
    the JSON data type [json]; a value that may be [undefined] is an
    [option json].  The task_state table is the list of its rows, the queue
    substrate is the log of the [add] calls it received. *)

From Stdlib Require Import ZArith String List Bool Lia.
From stdpp Require Import base option list strings gmap fin_maps.

Open Scope string_scope.
Open Scope list_scope.

Set Warnings "-register-all".

(* ===================================================================== *)
(** * JavaScript values *)
(* ===================================================================== *)

Module Js.

Inductive json : Type :=
| JNull
| JBool (b : bool)
| JNum (n : Z)
| JStr (s : string)
| JArr (items : list json)
| JObj (fields : list (string * json)).

(** A value that may be [undefined]. *)
Abbreviation jsv := (option json).

Definition undefined : jsv := None.

(** Truthiness, as used by [if (x)] and [!x]. *)
Definition truthy (v : jsv) : bool :=
  match v with
  | None | Some JNull => false
  | Some (JBool b) => b
  | Some (JNum n) => negb (n =? 0)%Z
  | Some (JStr s) => negb (String.eqb s "")
  | Some (JArr _) | Some (JObj _) => true
  end.

(** Truthiness of an optional string ([error?: string],
    [fixed_content?: string]). *)
Definition truthy_str (s : option string) : bool :=
  match s with
  | None => false
  | Some s => negb (String.eqb s "")
  end.

Fixpoint assoc (k : string) (fs : list (string * json)) : jsv :=
  match fs with
  | [] => None
  | (k', v) :: fs => if String.eqb k k' then Some v else assoc k fs
  end.

(** [v?.k] for a key [k] of plain data: the own property of an object,
    [undefined] on anything else. *)
Definition prop (k : string) (v : jsv) : jsv :=
  match v with
  | Some (JObj fs) => assoc k fs
  | _ => None
  end.

(** [a ?? b] *)
Definition nullish (v : jsv) : bool :=
  match v with
  | None | Some JNull => true
  | _ => false
  end.

Definition coalesce (a b : jsv) : jsv := if nullish a then b else a.

(** [x === "s"] for a string literal [s]. *)
Definition is_str (s : string) (v : jsv) : bool :=
  match v with
  | Some (JStr s') => String.eqb s' s
  | _ => false
  end.

(** [`${x}`] for an optional string. *)
Definition show (s : option string) : string := default "undefined" s.

Definition of_str (s : option string) : jsv := JStr <$> s.

Definition str_array (l : list string) : json := JArr (JStr <$> l).

(** An object literal, in source order, whose values may be undefined. *)
Abbreviation literal := (list (string * jsv)).

(** An object held in memory whose keys are looked up, overwritten and
    deleted; serialising it ([JSON.stringify]) drops the keys whose value
    is undefined. *)
Definition stringify (o : gmap string jsv) : gmap string json := omap id o.

Definition literal_to_map (o : literal) : gmap string jsv :=
  foldl (fun m kv => <[kv.1 := kv.2]> m) ∅ o.

End Js.

Import Js.
Infix "??" := coalesce (at level 45, left associativity).

(* ===================================================================== *)
(** * The DAG planner (agents/planner-agent.ts) *)
(* ===================================================================== *)

Module Planner.

Inductive TaskType : Type :=
| materialize_fixed | prepare | retrieve | write | verify | assemble.

#[global] Instance TaskType_eq_dec : EqDecision TaskType.
Proof. solve_decision. Defined.

Record TaskNode : Type := {
  id : string;
  type : TaskType;
  label : string;
  outlineId : option string;
  dependencies : list string;
  metadata : option literal;
}.

Record TaskEdge : Type := {
  from : string;
  to : string;
  reason : option string;
}.

Record Summary : Type := {
  total : nat;
  byType : list (TaskType * nat);
}.

Record TaskDag : Type := {
  nodes : list TaskNode;
  edges : list TaskEdge;
  summary : Summary;
}.

(** OutlineNode (tools/outline-parser.ts).  [chapter_number] and [title]
    are declared as strings; [None] is an entry that arrives without the
    field. *)
Inductive OutlineNode : Type := MkOutlineNode {
  chapter_number : option string;
  title : option string;
  govern_standard : option string;
  generate_prompt : bool;
  fixed_content : option string;
  enable_subtitles_generation : bool;
  outline_structure : option (list OutlineNode);
}.

(** The two fields of AssetIndexRecord the planner reads. *)
Record AssetIndexRecord : Type := {
  asset_id : string;
  embed_ready : bool;
  table_ready : bool;
}.

Record PlannerContext : Type := {
  projectId : string;
  outline : list OutlineNode;
  assetsIndex : list AssetIndexRecord;
  projectContext : list (string * json);
  metrics : jsv;
  writingJournal : jsv;
  evidenceMap : jsv;
}.

Record FlattenedOutlineNode : Type := {
  node : OutlineNode;
  parentId : option string;
}.

(** flattenOutline: pre-order walk carrying the parent's chapter number. *)
Fixpoint walk_node (parent : option string) (n : OutlineNode)
  : list FlattenedOutlineNode :=
  {| node := n; parentId := parent |} ::
  match outline_structure n with
  | Some children => flat_map (walk_node (chapter_number n)) children
  | None => []
  end.

Definition walk (ns : list OutlineNode) (parent : option string)
  : list FlattenedOutlineNode :=
  flat_map (walk_node parent) ns.

Definition flattenOutline (outline : list OutlineNode)
  : list FlattenedOutlineNode :=
  walk outline None.

(** The outline node as the JSON object kept in a task's metadata. *)
Fixpoint outline_json (n : OutlineNode) : json :=
  JObj (
    omap (fun kv => (kv.1,.) <$> kv.2)
      [ ("chapter_number", of_str (chapter_number n));
        ("title", of_str (title n));
        ("govern_standard", of_str (govern_standard n));
        ("generate_prompt", Some (JBool (generate_prompt n)));
        ("fixed_content", of_str (fixed_content n));
        ("enable_subtitles_generation",
           Some (JBool (enable_subtitles_generation n)));
        ("outline_structure",
           match outline_structure n with
           | Some children => Some (JArr (map outline_json children))
           | None => None
           end) ]).

(** The accumulators of buildDag: the [nodes] and [edges] arrays and the
    [index] map from id to node. *)
Record Builder : Type := {
  b_nodes : list TaskNode;
  b_edges : list TaskEdge;
  b_index : gmap string TaskNode;
}.

Definition emptyBuilder : Builder :=
  {| b_nodes := []; b_edges := []; b_index := ∅ |}.

Definition addNode (b : Builder) (n : TaskNode) : Builder :=
  if decide (is_Some (b_index b !! id n)) then b
  else {| b_nodes := b_nodes b ++ [n];
          b_edges := b_edges b;
          b_index := <[id n := n]> (b_index b) |}.

Definition pushEdge (b : Builder) (e : TaskEdge) : Builder :=
  {| b_nodes := b_nodes b;
     b_edges := b_edges b ++ [e];
     b_index := b_index b |}.

Section Entry.
Variable context : PlannerContext.
Variables hasEmbedReady hasTableReady : bool.
Variable entry : FlattenedOutlineNode.

Let outlineNode := node entry.
Let outlineIdOf := chapter_number outlineNode.

Definition baseLabel : string :=
  show (chapter_number (node entry)) +:+ " " +:+ show (title (node entry)).

Definition baseMetadata : literal :=
  [ ("outlineId", of_str outlineIdOf);
    ("title", of_str (title outlineNode));
    ("outlineNode", Some (outline_json outlineNode));
    ("parentId", of_str (parentId entry)) ].

Definition materializeId : string := "materialize:" +:+ show outlineIdOf.
Definition prepareId : string := "prepare:" +:+ show outlineIdOf.
Definition retrieveId : string := "retrieve:" +:+ show outlineIdOf.
Definition writeId : string := "write:" +:+ show outlineIdOf.
Definition verifyId : string := "verify:" +:+ show outlineIdOf.
Definition assembleId : string := "assemble:" +:+ show outlineIdOf.

Definition shouldCreateRetrieve : bool := hasEmbedReady || hasTableReady.

Definition lastDependency : string :=
  if shouldCreateRetrieve then retrieveId else prepareId.

Definition materializeNode : TaskNode :=
  {| id := materializeId;
     type := materialize_fixed;
     label := "渲染固定内容 " +:+ baseLabel;
     outlineId := outlineIdOf;
     dependencies := [];
     metadata := Some (baseMetadata ++
       [ ("fixed", Some (JBool true));
         ("fixedContent", of_str (fixed_content outlineNode)) ]) |}.

Definition fixedAssembleNode : TaskNode :=
  {| id := assembleId;
     type := assemble;
     label := "装配章节 " +:+ baseLabel;
     outlineId := outlineIdOf;
     dependencies := [materializeId];
     metadata := Some (baseMetadata ++ [ ("from", Some (JStr "fixed")) ]) |}.

Definition prepareNode : TaskNode :=
  {| id := prepareId;
     type := prepare;
     label := "准备提示词 " +:+ baseLabel;
     outlineId := outlineIdOf;
     dependencies := [];
     metadata := Some (baseMetadata ++
       [ ("contextKeys",
            Some (str_array (map fst (projectContext context))));
         ("projectContext", Some (JObj (projectContext context)));
         ("assetsAvailability",
            Some (JObj [ ("embedReady", JBool hasEmbedReady);
                         ("tableReady", JBool hasTableReady) ])) ]) |}.

Definition requirements : list string :=
  (if hasEmbedReady then ["embed_ready"] else []) ++
  (if hasTableReady then ["table_ready"] else []).

Definition retrieveNode : TaskNode :=
  {| id := retrieveId;
     type := retrieve;
     label := "检索资料 " +:+ baseLabel;
     outlineId := outlineIdOf;
     dependencies := [prepareId];
     metadata := Some (baseMetadata ++
       [ ("requirements", Some (str_array requirements));
         ("assetsReady",
            Some (JObj [ ("embed", JBool hasEmbedReady);
                         ("table", JBool hasTableReady) ])) ]) |}.

Definition writeNode : TaskNode :=
  {| id := writeId;
     type := write;
     label := "写作章节 " +:+ baseLabel;
     outlineId := outlineIdOf;
     dependencies := [lastDependency];
     metadata := Some (baseMetadata ++
       [ ("promptSource", Some (JStr prepareId));
         ("retrievalSource",
            if shouldCreateRetrieve then Some (JStr retrieveId)
            else undefined);
         ("metricsRef", prop (show outlineIdOf) (metrics context));
         ("writingJournalRef",
            prop (show outlineIdOf) (writingJournal context)) ]) |}.

Definition verifyNode : TaskNode :=
  {| id := verifyId;
     type := verify;
     label := "校验章节 " +:+ baseLabel;
     outlineId := outlineIdOf;
     dependencies := [writeId];
     metadata := Some (baseMetadata ++
       [ ("journalRef", prop (show outlineIdOf) (writingJournal context));
         ("metricsRef", prop (show outlineIdOf) (metrics context));
         ("evidenceRef", prop (show outlineIdOf) (evidenceMap context)) ]) |}.

Definition assembleNode : TaskNode :=
  {| id := assembleId;
     type := assemble;
     label := "装配章节 " +:+ baseLabel;
     outlineId := outlineIdOf;
     dependencies := [verifyId];
     metadata := Some (baseMetadata ++
       [ ("evidenceRef", prop (show outlineIdOf) (evidenceMap context)) ]) |}.

(** One iteration of the loop over the flattened outline. *)
Definition planEntry (b : Builder) : Builder :=
  if truthy_str (fixed_content outlineNode) then
    let b := addNode b materializeNode in
    let b := addNode b fixedAssembleNode in
    pushEdge b {| from := materializeId; to := assembleId;
                  reason := Some "固定章节装配" |}
  else
    let b := addNode b prepareNode in
    let b :=
      if shouldCreateRetrieve then
        let b := addNode b retrieveNode in
        pushEdge b {| from := prepareId; to := retrieveId;
                      reason := Some "检索前置" |}
      else b in
    let b := addNode b writeNode in
    let b := pushEdge b {| from := lastDependency; to := writeId;
                           reason := Some "写作依赖" |} in
    let b := addNode b verifyNode in
    let b := pushEdge b {| from := writeId; to := verifyId;
                           reason := Some "校验前置" |} in
    let b := addNode b assembleNode in
    pushEdge b {| from := verifyId; to := assembleId;
                  reason := Some "装配前置" |}.
End Entry.

Definition finalAssembleId : string := "assemble:document".

Definition is_assemble (n : TaskNode) : bool :=
  bool_decide (type n = assemble).

Definition finalAssembleNode (assembleNodes : list TaskNode) : TaskNode :=
  {| id := finalAssembleId;
     type := assemble;
     label := "汇总装配整份报告";
     outlineId := None;
     dependencies := map id assembleNodes;
     metadata := Some
       [ ("stage", Some (JStr "final"));
         ("title", Some (JStr "整份报告"));
         ("outlineId", Some (JStr "document")) ] |}.

Definition addFinalAssemble (b : Builder) : Builder :=
  let assembleNodes := filter (fun n => type n = assemble) (b_nodes b) in
  if (0 <? length assembleNodes)%nat then
    let b := addNode b (finalAssembleNode assembleNodes) in
    foldl (fun b n => pushEdge b {| from := id n; to := finalAssembleId;
                                    reason := Some "章节合并" |})
          b assembleNodes
  else b.

Definition all_types : list TaskType :=
  [materialize_fixed; prepare; retrieve; write; verify; assemble].

Definition buildSummary (ns : list TaskNode) : Summary :=
  {| total := length ns;
     byType := map (fun t => (t, length (filter (fun n => type n = t) ns)))
                   all_types |}.

Definition hasEmbed (context : PlannerContext) : bool :=
  existsb embed_ready (assetsIndex context).
Definition hasTable (context : PlannerContext) : bool :=
  existsb table_ready (assetsIndex context).

(** The loop of buildDag over an already flattened outline. *)
Definition planEntries (context : PlannerContext)
    (flattened : list FlattenedOutlineNode) : Builder :=
  foldl (fun b entry =>
           planEntry context (hasEmbed context) (hasTable context) entry b)
        emptyBuilder flattened.

Definition finishDag (b : Builder) : TaskDag :=
  let b := addFinalAssemble b in
  {| nodes := b_nodes b;
     edges := b_edges b;
     summary := buildSummary (b_nodes b) |}.

Definition buildDag (context : PlannerContext) : TaskDag :=
  finishDag (planEntries context (flattenOutline (outline context))).

End Planner.

(* ===================================================================== *)
(** * The task state store (services/task-state-store.ts) *)
(* ===================================================================== *)

Module Store.

Inductive TaskStatus : Type :=
| pending | running | completed | failed | cancelled | blocked.

#[global] Instance TaskStatus_eq_dec : EqDecision TaskStatus.
Proof. solve_decision. Defined.

(** A row of the task_state table, which is also the TaskRecord handed to
    the callers.  The timestamps created_at and updated_at are left out:
    nothing in the planner, the store or the dispatcher reads them. *)
Record TaskRecord : Type := {
  projectId : string;
  nodeId : string;
  type : Planner.TaskType;
  status : TaskStatus;
  dependencies : list string;
  dependents : list string;
  metadata : gmap string json;
  result : jsv;
  error : option string;
  retries : Z;
}.

Abbreviation table := (list TaskRecord).

Definition has_key (p n : string) (r : TaskRecord) : Prop :=
  projectId r = p ∧ nodeId r = n.

#[global] Instance has_key_dec p n r : Decision (has_key p n r).
Proof. unfold has_key. apply _. Defined.

Definition set_status (s : TaskStatus) (r : TaskRecord) : TaskRecord :=
  {| projectId := projectId r; nodeId := nodeId r; type := type r;
     status := s;
     dependencies := dependencies r; dependents := dependents r;
     metadata := metadata r; result := result r; error := error r;
     retries := retries r |}.

Definition set_dependents (ds : list string) (r : TaskRecord) : TaskRecord :=
  {| projectId := projectId r; nodeId := nodeId r; type := type r;
     status := status r;
     dependencies := dependencies r; dependents := ds;
     metadata := metadata r; result := result r; error := error r;
     retries := retries r |}.

(** The optional fields of updateStatus ([meta?: Partial<TaskRecord>]);
    [None] is a field that is undefined. *)
Record StatusMeta : Type := {
  m_result : jsv;
  m_error : option string;
  m_retries : option Z;
  m_metadata : option (gmap string jsv);
}.

Definition noMeta : StatusMeta :=
  {| m_result := None; m_error := None; m_retries := None;
     m_metadata := None |}.

(** The row after [update(payload)]: the status always, every other
    column only when the field is not undefined. *)
Definition apply_update (s : TaskStatus) (meta : StatusMeta)
    (r : TaskRecord) : TaskRecord :=
  {| projectId := projectId r; nodeId := nodeId r; type := type r;
     status := s;
     dependencies := dependencies r; dependents := dependents r;
     metadata := match m_metadata meta with
                 | Some o => stringify o
                 | None => metadata r
                 end;
     result := match m_result meta with
               | Some v => Some v
               | None => result r
               end;
     error := match m_error meta with
              | Some e => Some e
              | None => error r
              end;
     retries := default (retries r) (m_retries meta) |}.

Definition updateStatus (p n : string) (s : TaskStatus) (meta : StatusMeta)
    (t : table) : table :=
  map (fun r => if decide (has_key p n r) then apply_update s meta r else r) t.

(** The row as the accessors return it ([data.result ?? undefined]). *)
Definition read_row (r : TaskRecord) : TaskRecord :=
  {| projectId := projectId r; nodeId := nodeId r; type := type r;
     status := status r;
     dependencies := dependencies r; dependents := dependents r;
     metadata := metadata r;
     result := result r ?? undefined;
     error := error r;
     retries := retries r |}.

Definition getTask (p n : string) (t : table) : option TaskRecord :=
  read_row <$> List.find (fun r => bool_decide (has_key p n r)) t.

Definition getTasks (p : string) (nodeIds : list string) (t : table)
  : list TaskRecord :=
  match nodeIds with
  | [] => []
  | _ => map read_row
           (List.filter (fun r => bool_decide (projectId r = p) &&
                                  bool_decide (nodeId r ∈ nodeIds)) t)
  end.

(** The stored procedure list_ready_tasks: the pending rows of the
    project for which no dependency joins a row of the same project whose
    status is not completed. *)
Definition unfinished_dependency (t : table) (ts : TaskRecord)
    (dep : string) : bool :=
  existsb (fun dep_state =>
             bool_decide (projectId dep_state = projectId ts) &&
             bool_decide (nodeId dep_state = dep) &&
             negb (bool_decide (status dep_state = completed))) t.

Definition is_ready (input_project_id : string) (t : table)
    (ts : TaskRecord) : bool :=
  bool_decide (projectId ts = input_project_id) &&
  bool_decide (status ts = pending) &&
  negb (existsb (unfinished_dependency t ts) (dependencies ts)).

Definition list_ready_tasks (input_project_id : string) (t : table)
  : list TaskRecord :=
  List.filter (is_ready input_project_id t) t.

(** listReadyTasks maps the returned rows to records; the procedure does
    not return the result and error columns. *)
Definition ready_record (r : TaskRecord) : TaskRecord :=
  {| projectId := projectId r; nodeId := nodeId r; type := type r;
     status := status r;
     dependencies := dependencies r; dependents := dependents r;
     metadata := metadata r;
     result := undefined;
     error := None;
     retries := retries r |}.

Definition listReadyTasks (p : string) (t : table) : list TaskRecord :=
  map ready_record (list_ready_tasks p t).

Definition markBlocked (p : string) (nodeIds : list string) (t : table)
  : table :=
  match nodeIds with
  | [] => t
  | _ => map (fun r => if decide (projectId r = p ∧ nodeId r ∈ nodeIds)
                       then set_status blocked r else r) t
  end.

Definition clearProject (p : string) (t : table) : table :=
  List.filter (fun r => negb (bool_decide (projectId r = p))) t.

Definition addDependent (p fromNode toNode : string) (t : table) : table :=
  let deps :=
    match List.find (fun r => bool_decide (has_key p fromNode r)) t with
    | Some data => dependents data
    | None => []
    end in
  if decide (toNode ∈ deps) then t
  else map (fun r => if decide (has_key p fromNode r)
                     then set_dependents (deps ++ [toNode]) r else r) t.

Definition new_row (p : string) (n : Planner.TaskNode) : TaskRecord :=
  {| projectId := p;
     nodeId := Planner.id n;
     type := Planner.type n;
     status := pending;
     dependencies := Planner.dependencies n;
     dependents := [];
     metadata := stringify (literal_to_map (default [] (Planner.metadata n)));
     result := None;
     error := None;
     retries := 0 |}.

Definition key_of (r : TaskRecord) : string * string :=
  (projectId r, nodeId r).

(** persistDag: one insert of all the rows, which the primary key
    (project_id, node_id) rejects as a whole when a key is taken
    ([None], the error the method throws), then one addDependent per
    edge. *)
Definition persistDag (p : string) (dag : Planner.TaskDag) (t : table)
  : option table :=
  let payload := map (new_row p) (Planner.nodes dag) in
  if decide (NoDup (map key_of (t ++ payload))) then
    Some (foldl (fun t e => addDependent p (Planner.from e) (Planner.to e) t)
                (t ++ payload) (Planner.edges dag))
  else None.

End Store.

(* ===================================================================== *)
(** * The task dispatcher (queue/task-dispatcher.ts) *)
(* ===================================================================== *)

Module Dispatcher.

Import Store.

(** The queues of the dispatcher, by their [getQueue] key. *)
Inductive QueueName : Type :=
| planner | retriever | writer | verifier | assembler | autofixer
| materializer.

#[global] Instance QueueName_eq_dec : EqDecision QueueName.
Proof. solve_decision. Defined.

Record EnqueueOptions : Type := {
  removeOnComplete : jsv;
  removeOnFail : jsv;
}.

Definition defaultEnqueueOptions : EnqueueOptions :=
  {| removeOnComplete := Some (JNum 1000);
     removeOnFail := Some (JNum 5000) |}.

(** [{ ...defaultEnqueueOptions, ...(this.options.enqueue ?? {}) }] *)
Definition mergeOptions (o : option EnqueueOptions) : EnqueueOptions :=
  match o with
  | None => defaultEnqueueOptions
  | Some o =>
      {| removeOnComplete :=
           match removeOnComplete o with
           | Some v => Some v
           | None => removeOnComplete defaultEnqueueOptions
           end;
         removeOnFail :=
           match removeOnFail o with
           | Some v => Some v
           | None => removeOnFail defaultEnqueueOptions
           end |}
  end.

Inductive EventType : Type :=
| Node (t : Planner.TaskType)
| Autofix.

#[global] Instance EventType_eq_dec : EqDecision EventType.
Proof. solve_decision. Defined.

Record WorkerResultEvent : Type := {
  r_projectId : string;
  r_nodeId : string;
  r_type : EventType;
  r_result : jsv;
  r_error : option string;
}.

Inductive ProgressStatus : Type := PRunning | PFailed | PRetrying.

Record WorkerProgressEvent : Type := {
  p_projectId : string;
  p_nodeId : string;
  p_type : EventType;
  p_status : ProgressStatus;
  p_error : option string;
}.

(** A job handed to [queue.add]. *)
Record Job : Type := {
  j_queue : QueueName;
  j_name : string;
  j_payload : literal;
  j_options : EnqueueOptions;
}.

(** What the dispatcher asks of its two collaborators, in call order. *)
Inductive Effect : Type :=
| StatusWrite (p n : string) (s : TaskStatus) (meta : StatusMeta)
| BlockWrite (p : string) (nodeIds : list string)
| QueueAdd (j : Job).

(** The store and the calls made so far. *)
Record World : Type := {
  tasks : table;
  calls : list Effect;
}.

Definition jobs (w : World) : list Job :=
  omap (fun e => match e with QueueAdd j => Some j | _ => None end) (calls w).

(** Handlers run to completion one after the other: a state monad over
    the world. *)
Definition M (A : Type) : Type := World → A * World.

#[global] Instance M_ret : MRet M := fun A a w => (a, w).
#[global] Instance M_bind : MBind M :=
  fun A B k m w => let (a, w') := m w in k a w'.

Definition exec {A} (m : M A) (w : World) : World := snd (m w).

Definition read {A} (f : table → A) : M A := fun w => (f (tasks w), w).

Definition emit (e : Effect) (f : table → table) : M unit :=
  fun w => (tt, {| tasks := f (tasks w); calls := calls w ++ [e] |}).

Definition storeUpdateStatus (p n : string) (s : TaskStatus)
    (meta : StatusMeta) : M unit :=
  emit (StatusWrite p n s meta) (updateStatus p n s meta).

(** markBlocked returns before any request on an empty id list. *)
Definition storeMarkBlocked (p : string) (nodeIds : list string) : M unit :=
  match nodeIds with
  | [] => mret tt
  | _ => emit (BlockWrite p nodeIds) (markBlocked p nodeIds)
  end.

Definition queueAdd (q : QueueName) (name : string) (payload : literal)
    (options : EnqueueOptions) : M unit :=
  emit (QueueAdd {| j_queue := q; j_name := name; j_payload := payload;
                    j_options := options |}) (fun t => t).

Fixpoint forEach {A} (l : list A) (body : A → M unit) : M unit :=
  match l with
  | [] => mret tt
  | x :: l => body x ;; forEach l body
  end.

Definition resolveQueue (t : Planner.TaskType) : QueueName :=
  match t with
  | Planner.materialize_fixed => materializer
  | Planner.prepare => planner
  | Planner.retrieve => retriever
  | Planner.write => writer
  | Planner.verify => verifier
  | Planner.assemble => assembler
  end.

(** A value known not to be undefined, as it is serialised. *)
Definition force (v : jsv) : json := default JNull v.

Definition startsWith (pre : string) (s : string) : bool := String.prefix pre s.

Definition buildJobPayload (p : string) (task : TaskRecord) : M literal :=
  deps ← read (getTasks p (dependencies task)) ;
  let findResult (nodeId' : string) : jsv :=
    List.find (fun dep => bool_decide (nodeId dep = nodeId')) deps ≫= result in
  let md (k : string) : jsv := metadata task !! k in
  let findDep (pre : string) : string :=
    default "" (List.find (startsWith pre) (dependencies task)) in
  let common : literal :=
    [ ("projectId", Some (JStr p)); ("nodeId", Some (JStr (nodeId task))) ] in
  mret
    match type task with
    | Planner.materialize_fixed =>
        common ++
        [ ("fixedContent", md "fixedContent" ?? md "fixed_content");
          ("bindings", md "bindings") ]
    | Planner.prepare =>
        common ++
        [ ("outlineNode", md "outlineNode" ?? md "outline_node");
          ("projectContext",
             md "projectContext" ?? md "project_context" ?? Some (JObj []));
          ("assetsAvailability",
             md "assetsAvailability" ??
             Some (JObj
               [ ("embedReady", force (md "embedReady" ?? Some (JBool false)));
                 ("tableReady", force (md "tableReady" ?? Some (JBool false))) ])) ]
    | Planner.retrieve =>
        let prepareResult := findResult (default "" (head (dependencies task))) in
        let queries :=
          prop "queries" prepareResult ?? md "queries" ?? Some (JArr []) in
        common ++
        [ ("queries", queries);
          ("limit", md "limit" ?? Some (JNum 5)) ]
    | Planner.write =>
        let prepareResult := findResult (findDep "prepare") in
        let retrieveResult := findResult (findDep "retrieve") in
        common ++
        [ ("title",
             md "title" ?? md "outlineTitle" ?? md "label" ??
             Some (JStr (nodeId task)));
          ("prompt",
             prop "user_prompt_text" (prop "prompts" prepareResult) ??
             md "prompt" ?? Some (JStr ""));
          ("contextPack", prop "contextPack" retrieveResult ?? Some (JArr []));
          ("metrics", md "metrics");
          ("writingJournal", md "writingJournal") ]
    | Planner.verify =>
        let writeResult := findResult (findDep "write") in
        common ++
        [ ("draft", prop "draft" writeResult ?? md "draft");
          ("metrics", md "metrics");
          ("evidenceMap", md "evidenceMap") ]
    | Planner.assemble =>
        let materialized := findResult (findDep "materialize") in
        let verified := findResult (findDep "verify") in
        common ++
        [ ("fixedBlocks",
             if truthy materialized
             then Some (JArr [force (prop "renderedBlock" materialized)])
             else md "fixedBlocks");
          ("draft", prop "draft" verified ?? md "draft");
          ("children", Some (str_array (dependents task))) ]
    end.

Section Handlers.
(** [this.options.enqueue] *)
Variable enqueueOptions : option EnqueueOptions.

Definition enqueueTask (p : string) (task : TaskRecord) : M unit :=
  let queue := resolveQueue (type task) in
  payload ← buildJobPayload p task ;
  let options := mergeOptions enqueueOptions in
  queueAdd queue (p +:+ ":" +:+ nodeId task) payload options ;;
  storeUpdateStatus p (nodeId task) running noMeta.

Definition enqueueReadyTasks (p : string) : M unit :=
  readyTasks ← read (listReadyTasks p) ;
  forEach readyTasks (enqueueTask p).

Definition blockDependentsOnFailure (p n : string) : M unit :=
  record ← read (getTask p n) ;
  match record with
  | None => mret tt
  | Some record =>
      match dependents record with
      | [] => mret tt
      | ds => storeMarkBlocked p ds
      end
  end.

Definition handleAutofixFailure (event : WorkerResultEvent) : M unit :=
  storeUpdateStatus (r_projectId event) (r_nodeId event) failed
    {| m_result := None;
       m_error := Some (default "AutoFix failed" (r_error event));
       m_retries := None; m_metadata := None |} ;;
  blockDependentsOnFailure (r_projectId event) (r_nodeId event).

Definition handleAutofixSuccess (event : WorkerResultEvent) : M unit :=
  task ← read (getTask (r_projectId event) (r_nodeId event)) ;
  match task with
  | None => mret tt
  | Some task =>
      let metadata : gmap string jsv :=
        <["draft" := prop "draft" (r_result event) ?? metadata task !! "draft"]>
          (Some <$> metadata task) in
      let metadata := delete "pendingPatches" metadata in
      let metadata := delete "violations" metadata in
      storeUpdateStatus (r_projectId event) (r_nodeId event) pending
        {| m_result := prop "draft" (r_result event);
           m_error := None; m_retries := None;
           m_metadata := Some metadata |} ;;
      refreshed ← read (getTask (r_projectId event) (r_nodeId event)) ;
      match refreshed with
      | Some refreshed => enqueueTask (r_projectId event) refreshed
      | None => mret tt
      end
  end.

Definition handleVerifyResult (event : WorkerResultEvent) : M unit :=
  let verifyResult := r_result event in
  let p := r_projectId event in
  let n := r_nodeId event in
  if negb (truthy verifyResult) then
    storeUpdateStatus p n completed noMeta ;;
    enqueueReadyTasks p
  else if is_str "accept" (prop "status" verifyResult) then
    storeUpdateStatus p n completed
      {| m_result := prop "draft" verifyResult;
         m_error := None; m_retries := None; m_metadata := None |} ;;
    enqueueReadyTasks p
  else if is_str "hard_fail" (prop "status" verifyResult) then
    storeUpdateStatus p n failed
      {| m_result := prop "draft" verifyResult;
         m_error := Some "Verifier hard fail";
         m_retries := None; m_metadata := None |} ;;
    blockDependentsOnFailure p n
  else if is_str "soft_fail" (prop "status" verifyResult) then
    task ← read (getTask p n) ;
    match task with
    | None => mret tt
    | Some task =>
        let metadata : gmap string jsv :=
          <["violations" := prop "violations" verifyResult]>
            (<["pendingPatches" := prop "patches" verifyResult]>
               (<["draft" := prop "draft" verifyResult]>
                  (Some <$> metadata task))) in
        storeUpdateStatus p n blocked
          {| m_result := prop "draft" verifyResult;
             m_error := None; m_retries := None;
             m_metadata := Some metadata |} ;;
        queueAdd autofixer (p +:+ ":" +:+ n +:+ ":autofix")
          [ ("projectId", Some (JStr p));
            ("nodeId", Some (JStr n));
            ("draft", prop "draft" verifyResult);
            ("patches", prop "patches" verifyResult ?? Some (JArr [])) ]
          defaultEnqueueOptions
    end
  else mret tt.

Definition handleWorkerProgress (event : WorkerProgressEvent) : M unit :=
  match p_type event with
  | Autofix =>
      match p_status event with
      | PFailed =>
          handleAutofixFailure
            {| r_projectId := p_projectId event;
               r_nodeId := p_nodeId event;
               r_type := Autofix;
               r_result := undefined;
               r_error := p_error event |}
      | _ => mret tt
      end
  | Node _ =>
      match p_status event with
      | PRunning =>
          storeUpdateStatus (p_projectId event) (p_nodeId event) running noMeta
      | PFailed =>
          storeUpdateStatus (p_projectId event) (p_nodeId event) failed
            {| m_result := None; m_error := p_error event;
               m_retries := None; m_metadata := None |} ;;
          blockDependentsOnFailure (p_projectId event) (p_nodeId event)
      | PRetrying => mret tt
      end
  end.

Definition handleWorkerResult (event : WorkerResultEvent) : M unit :=
  match r_type event with
  | Autofix =>
      if truthy_str (r_error event) then handleAutofixFailure event
      else handleAutofixSuccess event
  | Node t =>
      if truthy_str (r_error event) then
        storeUpdateStatus (r_projectId event) (r_nodeId event) failed
          {| m_result := None; m_error := r_error event;
             m_retries := None; m_metadata := None |} ;;
        blockDependentsOnFailure (r_projectId event) (r_nodeId event)
      else if bool_decide (t = Planner.verify) &&
              truthy (prop "status" (r_result event)) then
        handleVerifyResult event
      else
        storeUpdateStatus (r_projectId event) (r_nodeId event) completed
          {| m_result := r_result event;
             m_error := None; m_retries := None; m_metadata := None |} ;;
        enqueueReadyTasks (r_projectId event)
  end.

(** schedule: [None] when persistDag throws. *)
Definition schedule (p : string) (dag : Planner.TaskDag) (reset : bool)
    (w : World) : option World :=
  let t := if reset then clearProject p (tasks w) else tasks w in
  t ← persistDag p dag t ;
  Some (exec (enqueueReadyTasks p) {| tasks := t; calls := calls w |}).

End Handlers.

End Dispatcher.

(* ===================================================================== *)
(** * Vocabulary of the statements *)
(* ===================================================================== *)

Section PlannerVocabulary.
Import Planner.

(** The chapter id as it is rendered into task ids. *)
Definition cid (e : FlattenedOutlineNode) : string :=
  show (chapter_number (node e)).

(** The entry takes the fixed-content branch ([if (fixed_content)]). *)
Definition is_fixed (e : FlattenedOutlineNode) : bool :=
  truthy_str (fixed_content (node e)).

(** The nodes one loop iteration hands to addNode, in order. *)
Definition entryNodes (context : PlannerContext)
    (hasEmbedReady hasTableReady : bool) (e : FlattenedOutlineNode)
  : list TaskNode :=
  if is_fixed e then
    [ materializeNode e; fixedAssembleNode e ]
  else
    prepareNode context hasEmbedReady hasTableReady e ::
    (if shouldCreateRetrieve hasEmbedReady hasTableReady
     then [ retrieveNode hasEmbedReady hasTableReady e ] else []) ++
    [ writeNode context hasEmbedReady hasTableReady e;
      verifyNode context e;
      assembleNode context e ].

(** The edges one loop iteration pushes, in order. *)
Definition entryEdges (hasEmbedReady hasTableReady : bool)
    (e : FlattenedOutlineNode) : list TaskEdge :=
  if is_fixed e then
    [ {| from := materializeId e; to := assembleId e;
         reason := Some "固定章节装配" |} ]
  else
    (if shouldCreateRetrieve hasEmbedReady hasTableReady
     then [ {| from := prepareId e; to := retrieveId e;
               reason := Some "检索前置" |} ] else []) ++
    [ {| from := lastDependency hasEmbedReady hasTableReady e;
         to := writeId e; reason := Some "写作依赖" |};
      {| from := writeId e; to := verifyId e; reason := Some "校验前置" |};
      {| from := verifyId e; to := assembleId e;
         reason := Some "装配前置" |} ].

(** addNode on the [nodes] array alone. *)
Definition addNodeL (ns : list TaskNode) (n : TaskNode) : list TaskNode :=
  if decide (id n ∈ map id ns) then ns else ns ++ [n].

(** The [index] map knows exactly the ids of the [nodes] array. *)
Definition index_ok (b : Builder) : Prop :=
  ∀ i, is_Some (b_index b !! i) ↔ i ∈ map id (b_nodes b).

(** [b'] is [b] after the nodes [ns] went through addNode and the edges
    [es] were pushed. *)
Definition built (b : Builder) (ns : list TaskNode) (es : list TaskEdge)
    (b' : Builder) : Prop :=
  index_ok b' ∧
  b_nodes b' = foldl addNodeL (b_nodes b) ns ∧
  b_edges b' = b_edges b ++ es.

(** Everything the loop hands to addNode for a flattened outline. *)
Definition offered (context : PlannerContext)
    (flattened : list FlattenedOutlineNode) : list TaskNode :=
  flat_map (entryNodes context (hasEmbed context) (hasTable context))
           flattened.

(** The task nodes of the chapters: the [nodes] array after the loop. *)
Definition chapterNodes (context : PlannerContext) : list TaskNode :=
  b_nodes (planEntries context (flattenOutline (outline context))).

Definition kind_prefix (t : TaskType) : string :=
  match t with
  | materialize_fixed => "materialize:"
  | prepare => "prepare:"
  | retrieve => "retrieve:"
  | write => "write:"
  | verify => "verify:"
  | assemble => "assemble:"
  end.

(** Chapter numbers are unique within a document: two entries of the
    flattened outline that render the same chapter id are the same
    entry. *)
Definition distinct_chapters (flattened : list FlattenedOutlineNode)
  : Prop :=
  ∀ e e', e ∈ flattened → e' ∈ flattened → cid e = cid e' → e = e'.

(** An outline entry that has both its chapter number and its title. *)
Definition well_formed_entry (e : FlattenedOutlineNode) : Prop :=
  is_Some (chapter_number (node e)) ∧ is_Some (title (node e)).

(** No asset of the index is embed-ready or table-ready. *)
Definition no_asset_ready (context : PlannerContext) : Prop :=
  ∀ a, a ∈ assetsIndex context →
       embed_ready a = false ∧ table_ready a = false.

(** At least one asset of the index has one of the two flags. *)
Definition some_asset_ready (context : PlannerContext) : Prop :=
  ∃ a, a ∈ assetsIndex context ∧
       (embed_ready a = true ∨ table_ready a = true).

(** No other entry of the flattened outline renders the chapter id of
    [e]. *)
Definition chapter_unique (flattened : list FlattenedOutlineNode)
    (e : FlattenedOutlineNode) : Prop :=
  ∀ e', e' ∈ flattened → cid e' = cid e → e' = e.

(** The claim of §4.1 on malformed entries, as it is written: the DAG
    holds task nodes for well-formed outline entries only (next to the
    document sink). *)
Definition skips_malformed_entries (context : PlannerContext) : Prop :=
  ∀ n, n ∈ nodes (buildDag context) →
       id n = finalAssembleId ∨
       ∃ e, e ∈ flattenOutline (outline context) ∧ well_formed_entry e ∧
            outlineId n = chapter_number (node e).

(** The claim of §4.1 on the sink, as it is written: the DAG of every
    outline holds a node assemble:document. *)
Definition has_document_sink (context : PlannerContext) : Prop :=
  ∃ n, n ∈ nodes (buildDag context) ∧ id n = finalAssembleId.

(** A planner context over an outline, nothing else supplied. *)
Definition plainContext (o : list OutlineNode)
    (assets : list AssetIndexRecord) : PlannerContext :=
  {| projectId := "demo"; outline := o; assetsIndex := assets;
     projectContext := []; metrics := None; writingJournal := None;
     evidenceMap := None |}.

(** A chapter to be generated, a chapter with fixed content, and an
    entry that arrives without its title. *)
Definition generatedChapter (c : string) (children : option (list OutlineNode))
  : OutlineNode :=
  MkOutlineNode (Some c) (Some ("Chapter " +:+ c)) None true None false
                children.

Definition fixedChapter (c text : string) : OutlineNode :=
  MkOutlineNode (Some c) (Some ("Chapter " +:+ c)) None false (Some text)
                false None.

Definition untitledChapter (c : string) : OutlineNode :=
  MkOutlineNode (Some c) None None true None false None.

(** An outline with a generated chapter and a fixed chapter. *)
Definition mixedContext (assets : list AssetIndexRecord)
  : PlannerContext :=
  plainContext [generatedChapter "1" None; fixedChapter "2" "verbatim text"]
               assets.

Definition fixedEntry : FlattenedOutlineNode :=
  {| node := fixedChapter "2" "verbatim text";
     parentId := None |}.

Definition generatedEntry : FlattenedOutlineNode :=
  {| node := generatedChapter "1" None; parentId := None |}.

Definition untitledEntry : FlattenedOutlineNode :=
  {| node := untitledChapter "1"; parentId := None |}.

Definition readyAsset : AssetIndexRecord :=
  {| asset_id := "a1"; embed_ready := false;
     table_ready := true |}.

End PlannerVocabulary.

Section StoreVocabulary.
Import Store.

(** [dep] names a row of project [p] whose status is not completed. *)
Definition unfinished (t : table) (p dep : string) : Prop :=
  ∃ r, r ∈ t ∧ has_key p dep r ∧ status r ≠ completed.

(** Every row of project [p] named [dep] is completed. *)
Definition finished (t : table) (p dep : string) : Prop :=
  ∀ r, r ∈ t → has_key p dep r → status r = completed.

(** [dep] names a row of project [p]. *)
Definition persisted (t : table) (p dep : string) : Prop :=
  ∃ r, r ∈ t ∧ has_key p dep r.

(** Referential integrity of a project: the dependency ids of its rows
    name rows of the project (what persistDag stores for a planner DAG,
    whose nodes depend on nodes of the same DAG only). *)
Definition dependencies_persisted (t : table) (p : string) : Prop :=
  ∀ r dep, r ∈ t → projectId r = p → dep ∈ dependencies r →
           persisted t p dep.

(** The status the claim speaks of: [dep] has status [s] when it names a
    row and its rows carry [s]. *)
Definition has_status (t : table) (p dep : string) (s : TaskStatus) : Prop :=
  persisted t p dep ∧ ∀ r, r ∈ t → has_key p dep r → status r = s.

(** The columns that identify a task and wire it into the graph. *)
Definition same_node (r r' : TaskRecord) : Prop :=
  projectId r' = projectId r ∧ nodeId r' = nodeId r ∧ type r' = type r ∧
  dependencies r' = dependencies r ∧ dependents r' = dependents r.

(** A row across a handler run on behalf of the task [k]: it stays the
    same node, and becomes completed only if it is the task [k]. *)
Definition row_step (k : option (string * string)) (r r' : TaskRecord)
  : Prop :=
  same_node r r' ∧
  (status r' = completed → status r = completed ∨ k = Some (key_of r)).

Definition table_step (k : option (string * string)) (t t' : table) : Prop :=
  Forall2 (row_step k) t t'.




(** The tables hold the same keys and dependency lists, row by row. *)
Definition keys_kept (t t' : table) : Prop :=
  Forall2 (fun r r' => projectId r' = projectId r ∧ nodeId r' = nodeId r ∧
                       dependencies r' = dependencies r) t t'.

(** ** Checks that decide the hypotheses on a given table *)

Definition dependencies_persisted_check (t : table) (p : string) : bool :=
  forallb (fun r =>
    implb (bool_decide (projectId r = p))
          (forallb (fun dep =>
             existsb (fun r' => bool_decide (has_key p dep r')) t)
             (dependencies r))) t.




End StoreVocabulary.

Section DispatcherVocabulary.
Import Store Dispatcher.

(** What reaches the dispatcher from outside: the progress and result
    events of the workers, and the resume call. *)
Inductive Delivery : Type :=
| Progress (event : WorkerProgressEvent)
| Result (event : WorkerResultEvent)
| Resume (p : string).

Definition deliver (enqueueOptions : option EnqueueOptions) (d : Delivery)
  : M unit :=
  match d with
  | Progress event => handleWorkerProgress event
  | Result event => handleWorkerResult enqueueOptions event
  | Resume p => enqueueReadyTasks enqueueOptions p
  end.

(** The task a delivery names. *)
Definition target (d : Delivery) : option (string * string) :=
  match d with
  | Progress event => Some (p_projectId event, p_nodeId event)
  | Result event => Some (r_projectId event, r_nodeId event)
  | Resume _ => None
  end.

Definition deliverAll (enqueueOptions : option EnqueueOptions)
    (ds : list Delivery) : M unit :=
  forEach ds (deliver enqueueOptions).

(** The metadata a soft-failed verify task is left with, and the autofix
    job that is asked for. *)
Definition softFailMetadata (task : TaskRecord) (verifyResult : jsv)
  : gmap string jsv :=
  <["violations" := prop "violations" verifyResult]>
    (<["pendingPatches" := prop "patches" verifyResult]>
       (<["draft" := prop "draft" verifyResult]> (Some <$> metadata task))).

Definition autofixJob (p n : string) (verifyResult : jsv) : Job :=
  {| j_queue := autofixer;
     j_name := p +:+ ":" +:+ n +:+ ":autofix";
     j_payload :=
       [ ("projectId", Some (JStr p));
         ("nodeId", Some (JStr n));
         ("draft", prop "draft" verifyResult);
         ("patches", prop "patches" verifyResult ?? Some (JArr [])) ];
     j_options := defaultEnqueueOptions |}.

(** The metadata written back after a successful autofix. *)
Definition autofixMetadata (task : TaskRecord) (autofixResult : jsv)
  : gmap string jsv :=
  delete "violations"
    (delete "pendingPatches"
       (<["draft" := prop "draft" autofixResult ?? metadata task !! "draft"]>
          (Some <$> metadata task))).

(** A handler is a step on behalf of [k] when it is one from any world. *)
Definition steps {A} (k : option (string * string)) (m : M A) : Prop :=
  ∀ w, table_step k (tasks w) (tasks (exec m w)).

(** The deliveries that mark their node failed: a failed progress event
    (of a task or of its autofix job), a result event carrying an error,
    and a verify result whose status is hard_fail. *)
Definition is_failure (d : Delivery) : Prop :=
  match d with
  | Progress event => p_status event = PFailed
  | Result event =>
      truthy_str (r_error event) = true ∨
      (truthy_str (r_error event) = false ∧
       r_type event = Node Planner.verify ∧
       prop "status" (r_result event) = Some (JStr "hard_fail"))
  | Resume _ => False
  end.

(** The tables before and after hold the same nodes, row by row. *)
Definition nodes_kept (t t' : table) : Prop := Forall2 same_node t t'.

(** What a round of enqueueTask over the records [rs] does to a row:
    the rows of the enqueued ids are marked running. *)
Definition mark_running (p : string) (rs : list TaskRecord)
    (r : TaskRecord) : TaskRecord :=
  if decide (projectId r = p ∧ nodeId r ∈ map nodeId rs)
  then apply_update running noMeta r else r.


(** The claim on soft failures, as it is written: the delivery adds
    exactly one job, on the autofix queue. *)
Definition asks_one_autofix (enqueueOptions : option EnqueueOptions)
    (w : World) (event : WorkerResultEvent) : Prop :=
  ∃ j, jobs (exec (handleWorkerResult enqueueOptions event) w)
       = jobs w ++ [j] ∧ j_queue j = autofixer.

(** ** A run of a one-chapter document *)

Definition emptyWorld : World := {| tasks := []; calls := [] |}.

Definition demoDag : Planner.TaskDag :=
  Planner.buildDag (plainContext [generatedChapter "1" None] []).

(** After schedule: prepare:1 is running. *)
Definition demoScheduled : World :=
  default emptyWorld (schedule None "demo" demoDag true emptyWorld).

Definition resultOf (t : Planner.TaskType) (n : string) (r : jsv)
  : WorkerResultEvent :=
  {| r_projectId := "demo"; r_nodeId := n; r_type := Node t;
     r_result := r; r_error := None |}.

Definition prepareDone : WorkerResultEvent :=
  resultOf Planner.prepare "prepare:1"
    (Some (JObj [("prompts", JObj [("user_prompt_text", JStr "write it")])])).

Definition writeDone : WorkerResultEvent :=
  resultOf Planner.write "write:1" (Some (JObj [("draft", JStr "draft one")])).

Definition writeFailed : Delivery :=
  Progress {| p_projectId := "demo"; p_nodeId := "write:1";
              p_type := Node Planner.write; p_status := PFailed;
              p_error := Some "worker crashed" |}.

Definition verifyResult (s : string) : WorkerResultEvent :=
  resultOf Planner.verify "verify:1"
    (Some (JObj [ ("status", JStr s); ("draft", JStr "draft one");
                  ("violations", JArr [JStr "too short"]);
                  ("patches", JArr [JStr "extend section"]) ])).

Definition autofixDone : WorkerResultEvent :=
  {| r_projectId := "demo"; r_nodeId := "verify:1"; r_type := Autofix;
     r_result := Some (JObj [("draft", JStr "draft two")]);
     r_error := None |}.

(** write:1 is running. *)
Definition demoWriting : World :=
  exec (deliver None (Result prepareDone)) demoScheduled.

(** verify:1 is running. *)
Definition demoVerifying : World :=
  exec (deliver None (Result writeDone)) demoWriting.

(** verify:1 soft-failed and waits for its autofix job. *)
Definition demoRepairing : World :=
  exec (deliver None (Result (verifyResult "soft_fail"))) demoVerifying.

(** A soft-fail result for a task the store does not hold. *)
Definition strayVerifyResult : WorkerResultEvent :=
  {| r_projectId := "demo"; r_nodeId := "verify:9";
     r_type := Node Planner.verify;
     r_result := Some (JObj [ ("status", JStr "soft_fail");
                              ("draft", JStr "draft nine");
                              ("patches", JArr []) ]);
     r_error := None |}.


Definition jobNames (w : World) : list (QueueName * string) :=
  map (fun j => (j_queue j, j_name j)) (jobs w).

(** The table right after persistDag, before anything is enqueued. *)
Definition demoPersisted : table :=
  default [] (persistDag "demo" demoDag []).

End DispatcherVocabulary.

(* ===================================================================== *)
(** * Callers: the orchestrator and the worker table *)
(* ===================================================================== *)

Module Orchestrator.

(** ScheduleOptions (queue/report-task-orchestrator.ts). *)
Record ScheduleOptions : Type := {
  o_projectContext : list (string * json);
  o_metrics : jsv;
  o_writingJournal : jsv;
  o_evidenceMap : jsv;
}.

Section Orchestrator.
(** [this.options.enqueue] of the dispatcher the orchestrator holds. *)
Variable enqueueOptions : option Dispatcher.EnqueueOptions.
(** What [registry.listAssetsByProject(projectId)] answers. *)
Variable assets : list Planner.AssetIndexRecord.

Definition plannerContext (projectId : string)
    (outline : list Planner.OutlineNode) (options : ScheduleOptions)
  : Planner.PlannerContext :=
  {| Planner.projectId := projectId;
     Planner.outline := outline;
     Planner.assetsIndex := assets;
     Planner.projectContext := o_projectContext options;
     Planner.metrics := o_metrics options;
     Planner.writingJournal := o_writingJournal options;
     Planner.evidenceMap := o_evidenceMap options |}.

(** schedule: plan, then [dispatcher.schedule(projectId, dag)] with its
    default [reset = true]; [None] when persistDag throws. *)
Definition schedule (projectId : string)
    (outline : list Planner.OutlineNode) (options : ScheduleOptions)
    (w : Dispatcher.World) : option (Planner.TaskDag * Dispatcher.World) :=
  let context := plannerContext projectId outline options in
  let dag := Planner.buildDag context in
  w' ← Dispatcher.schedule enqueueOptions projectId dag true w ;
  Some (dag, w').

Definition resume (projectId : string) : Dispatcher.M unit :=
  Dispatcher.enqueueReadyTasks enqueueOptions projectId.
End Orchestrator.

End Orchestrator.

Module Workers.

(** The keys of QueueNames (queue/queue-names.ts). *)
Inductive QueueKey : Type :=
| preprocessText | preprocessImage | preprocessExcel | preprocessJson
| planner | retriever | writer | verifier | assembler | autofixer
| materializer.

Definition QUEUE_PREFIX : string := "report".

Definition toQueueName (parts : list string) : string :=
  String.concat "-" (QUEUE_PREFIX :: parts).

Definition QueueNames (k : QueueKey) : string :=
  match k with
  | preprocessText => toQueueName ["preprocess"; "text"]
  | preprocessImage => toQueueName ["preprocess"; "image"]
  | preprocessExcel => toQueueName ["preprocess"; "excel"]
  | preprocessJson => toQueueName ["preprocess"; "json"]
  | planner => toQueueName ["planner"]
  | retriever => toQueueName ["retriever"]
  | writer => toQueueName ["writer"]
  | verifier => toQueueName ["verifier"]
  | assembler => toQueueName ["assembler"]
  | autofixer => toQueueName ["autofixer"]
  | materializer => toQueueName ["materializer"]
  end.

Definition all_keys : list QueueKey :=
  [ preprocessText; preprocessImage; preprocessExcel; preprocessJson;
    planner; retriever; writer; verifier; assembler; autofixer;
    materializer ].

(** The key under which the dispatcher asks [getQueue] for a queue. *)
Definition keyOf (q : Dispatcher.QueueName) : QueueKey :=
  match q with
  | Dispatcher.planner => planner
  | Dispatcher.retriever => retriever
  | Dispatcher.writer => writer
  | Dispatcher.verifier => verifier
  | Dispatcher.assembler => assembler
  | Dispatcher.autofixer => autofixer
  | Dispatcher.materializer => materializer
  end.

(** dagWorkers (workers/index.ts): the queue each worker listens on
    (the QueueNames key of its create function in agent-workers.ts) and
    the type its events carry. *)
Definition dagWorkers : list (QueueKey * Dispatcher.EventType) :=
  [ (planner, Dispatcher.Node Planner.prepare);
    (retriever, Dispatcher.Node Planner.retrieve);
    (writer, Dispatcher.Node Planner.write);
    (verifier, Dispatcher.Node Planner.verify);
    (assembler, Dispatcher.Node Planner.assemble);
    (materializer, Dispatcher.Node Planner.materialize_fixed);
    (autofixer, Dispatcher.Autofix) ].

(** [job.data]: the payload as the queue hands it to the worker. *)
Definition jobData (payload : literal) : gmap string json :=
  stringify (literal_to_map payload).

(** [job.data.projectId] and [job.data.nodeId], which are strings in the
    jobs the dispatcher adds; [None] is a job without them. *)
Definition jobTask (payload : literal) : option (string * string) :=
  match jobData payload !! "projectId", jobData payload !! "nodeId" with
  | Some (JStr p), Some (JStr n) => Some (p, n)
  | _, _ => None
  end.

(** attachDispatcher (workers/index.ts): the events the worker of a
    descriptor of type [ty] hands to the dispatcher for a job, when the
    job becomes active, when it completes with [result], and when it
    fails with an error whose message is [message]. *)
Definition onActive (ty : Dispatcher.EventType) (payload : literal)
  : option Dispatcher.WorkerProgressEvent :=
  (fun pn => {| Dispatcher.p_projectId := pn.1;
                Dispatcher.p_nodeId := pn.2;
                Dispatcher.p_type := ty;
                Dispatcher.p_status := Dispatcher.PRunning;
                Dispatcher.p_error := None |}) <$> jobTask payload.

Definition onCompleted (ty : Dispatcher.EventType) (payload : literal)
    (result : jsv) : option Dispatcher.WorkerResultEvent :=
  (fun pn => {| Dispatcher.r_projectId := pn.1;
                Dispatcher.r_nodeId := pn.2;
                Dispatcher.r_type := ty;
                Dispatcher.r_result := result;
                Dispatcher.r_error := None |}) <$> jobTask payload.

Definition onFailed (ty : Dispatcher.EventType) (payload : literal)
    (message : option string) : option Dispatcher.WorkerProgressEvent :=
  (fun pn => {| Dispatcher.p_projectId := pn.1;
                Dispatcher.p_nodeId := pn.2;
                Dispatcher.p_type := ty;
                Dispatcher.p_status := Dispatcher.PFailed;
                Dispatcher.p_error := message |}) <$> jobTask payload.

End Workers.

(* ===================================================================== *)
(** * Vocabulary of the further statements *)
(* ===================================================================== *)

Section PlannerVocabulary2.
Import Planner.

(** Every dependency of a node is the id of a node placed before it. *)
Definition topological (ns : list TaskNode) : Prop :=
  ∀ i n d, ns !! i = Some n → d ∈ dependencies n →
           d ∈ map id (take i ns).

(** The task [a] depends on the task [b]. *)
Definition depends_on (ns : list TaskNode) (a b : string) : Prop :=
  ∃ n, n ∈ ns ∧ id n = a ∧ b ∈ dependencies n.

(** The entries of an outline, at any depth, each with the chapter
    number of the node it is a child of. *)
Inductive outline_entry
  : list OutlineNode → option string → FlattenedOutlineNode → Prop :=
| entry_here ns parent n :
    n ∈ ns → outline_entry ns parent {| node := n; parentId := parent |}
| entry_below ns parent m children e :
    m ∈ ns → outline_structure m = Some children →
    outline_entry children (chapter_number m) e →
    outline_entry ns parent e.

(** The number of nodes of an outline, at any depth. *)
Fixpoint outline_size (n : OutlineNode) : nat :=
  S (match outline_structure n with
     | Some children => list_sum (map outline_size children)
     | None => 0
     end).

(** Induction over an outline node and the nodes below it. *)
Fixpoint OutlineNode_nested_ind (P : OutlineNode → Prop)
    (step : ∀ n, match outline_structure n with
                 | Some children => Forall P children
                 | None => True
                 end → P n)
    (n : OutlineNode) : P n :=
  step n
    match n as n0
      return match outline_structure n0 with
             | Some children => Forall P children
             | None => True
             end
    with
    | MkOutlineNode _ _ _ _ _ _ os =>
        match os as o
          return match o with
                 | Some children => Forall P children
                 | None => True
                 end
        with
        | Some children =>
            (fix all (l : list OutlineNode) : Forall P l :=
               match l with
               | [] => @List.Forall_nil _ P
               | x :: l' =>
                   @List.Forall_cons _ P x l'
                     (OutlineNode_nested_ind P step x) (all l')
               end) children
        | None => I
        end
    end.

End PlannerVocabulary2.

Section StoreVocabulary2.
Import Store.

(** A row [r] next to the row [r'] that persistDag leaves of it: only
    the dependents list differs; it holds the dependents of before and,
    for a row of the project, the ends of the edges that start at the
    row, without repeating one. *)
Definition wired_from (p : string) (es : list Planner.TaskEdge)
    (r r' : TaskRecord) : Prop :=
  r' = set_dependents (dependents r') r ∧
  (projectId r ≠ p → r' = r) ∧
  (NoDup (dependents r) → NoDup (dependents r')) ∧
  ∀ m, m ∈ dependents r' ↔
       m ∈ dependents r ∨
       (projectId r = p ∧
        ∃ e, e ∈ es ∧ Planner.from e = nodeId r ∧ Planner.to e = m).

(** The rows of one project, in table order. *)
Definition rows_of (p : string) (t : table) : table :=
  List.filter (fun r => bool_decide (projectId r = p)) t.

End StoreVocabulary2.

Section DispatcherVocabulary2.
Import Store Dispatcher.

(** The payload buildJobPayload computes for a task on the table [t]. *)
Definition payloadOf (p : string) (t : table) (task : TaskRecord)
  : literal :=
  (buildJobPayload p task {| tasks := t; calls := [] |}).1.

(** The job enqueueTask adds for a task when the table is [t]. *)
Definition jobFor (enqueueOptions : option EnqueueOptions) (p : string)
    (t : table) (task : TaskRecord) : Job :=
  {| j_queue := resolveQueue (type task);
     j_name := p +:+ ":" +:+ nodeId task;
     j_payload := payloadOf p t task;
     j_options := mergeOptions enqueueOptions |}.

(** The project a delivery is about. *)
Definition projectOf (d : Delivery) : string :=
  match d with
  | Progress event => p_projectId event
  | Result event => r_projectId event
  | Resume p => p
  end.

(** What a call of the store or of a queue does to the table. *)
Definition effect_table (e : Effect) (t : table) : table :=
  match e with
  | StatusWrite p n s meta => updateStatus p n s meta t
  | BlockWrite p nodeIds => markBlocked p nodeIds t
  | QueueAdd _ => t
  end.

Definition replay (es : list Effect) (t : table) : table :=
  foldl (fun t e => effect_table e t) t es.

(** A call that writes, if at all, to rows of project [p], and not to
    their retry count. *)
Definition effect_within (p : string) (e : Effect) : Prop :=
  match e with
  | StatusWrite q _ _ meta => q = p ∧ m_retries meta = None
  | BlockWrite q _ => q = p
  | QueueAdd _ => True
  end.

(** A handler all of whose calls are within project [p]. *)
Definition within {A} (p : string) (m : M A) : Prop :=
  ∀ w, ∃ es, calls (exec m w) = calls w ++ es ∧
             tasks (exec m w) = replay es (tasks w) ∧
             Forall (effect_within p) es.

(** A row across a delivery about project [p] on behalf of the task
    [k]: it stays the same node with the same retry count, becomes
    completed only if it is the task [k], and is left as it is when it
    belongs to another project. *)
Definition row_kept (p : string) (k : option (string * string))
    (r r' : TaskRecord) : Prop :=
  row_step k r r' ∧ retries r' = retries r ∧ (projectId r ≠ p → r' = r).

(** The update a failing delivery writes next to the status failed. *)
Definition failure_meta (d : Delivery) : StatusMeta :=
  match d with
  | Progress event =>
      {| m_result := None;
         m_error := match p_type event with
                    | Node _ => p_error event
                    | Autofix =>
                        Some (default "AutoFix failed" (p_error event))
                    end;
         m_retries := None; m_metadata := None |}
  | Result event =>
      if truthy_str (r_error event) then
        {| m_result := None;
           m_error := match r_type event with
                      | Node _ => r_error event
                      | Autofix =>
                          Some (default "AutoFix failed" (r_error event))
                      end;
           m_retries := None; m_metadata := None |}
      else
        {| m_result := prop "draft" (r_result event);
           m_error := Some "Verifier hard fail";
           m_retries := None; m_metadata := None |}
  | Resume _ => noMeta
  end.

(** A result event that marks its task completed: an event of a task
    kind without an error that is not a verify result, or is one
    without a status, or is one with the status accept. *)
Definition completing (event : WorkerResultEvent) : Prop :=
  ∃ t, r_type event = Node t ∧ truthy_str (r_error event) = false ∧
       (t ≠ Planner.verify ∨
        truthy (prop "status" (r_result event)) = false ∨
        prop "status" (r_result event) = Some (JStr "accept")).

(** The result such an event stores: the draft of an accepted verify
    result, the result itself otherwise. *)
Definition storedResult (event : WorkerResultEvent) : jsv :=
  if bool_decide (r_type event = Node Planner.verify) &&
     is_str "accept" (prop "status" (r_result event))
  then prop "draft" (r_result event)
  else r_result event.

(** The result events of the autofix worker. *)
Definition is_autofix_result (d : Delivery) : Prop :=
  match d with
  | Result event => r_type event = Autofix
  | _ => False
  end.

(** A job for the task of a row: on the queue of its kind, under the
    name of the task. *)
Definition job_of_row (p : string) (j : Job) (ts : TaskRecord) : Prop :=
  j_queue j = resolveQueue (type ts) ∧
  j_name j = p +:+ ":" +:+ nodeId ts.

End DispatcherVocabulary2.

Section DispatcherVocabulary3.
Import Store Dispatcher.

(** The jobs added between [w] and [w'] are autofix jobs or jobs of
    tasks of project [p] that are now running and whose dependencies
    are all completed. *)
Definition dispatched_ready (p : string) (w w' : World) : Prop :=
  ∃ js, jobs w' = jobs w ++ js ∧
    ∀ j, j ∈ js →
      j_queue j = autofixer ∨
      ∃ ts, ts ∈ tasks w' ∧ projectId ts = p ∧ job_of_row p j ts ∧
            status ts = running ∧
            ∀ dep, dep ∈ dependencies ts → finished (tasks w') p dep.

End DispatcherVocabulary3.

Section DispatcherVocabulary4.
Import Store Dispatcher.

(** Rounds of repair: the soft_fail verdict of the verifier followed by
    the result of the autofix job, [k] times over. *)
Definition repairRounds (verdict repair : WorkerResultEvent) (k : nat)
  : list Delivery :=
  List.concat (List.repeat [Result verdict; Result repair] k).

End DispatcherVocabulary4.

Section ScheduleVocabulary.
Import Store Dispatcher.



End ScheduleVocabulary.

Section CasesVocabulary.
Import Store Dispatcher.

(** Schedule options that supply nothing. *)
Definition plainOptions : Orchestrator.ScheduleOptions :=
  {| Orchestrator.o_projectContext := [];
     Orchestrator.o_metrics := None;
     Orchestrator.o_writingJournal := None;
     Orchestrator.o_evidenceMap := None |}.

(** The outline of the one-chapter document. *)
Definition demoOutline : list Planner.OutlineNode :=
  [generatedChapter "1" None].

(** The row persistDag builds for the write task of chapter 1. *)
Definition demoWriteRow : TaskRecord :=
  new_row "demo"
    (Planner.writeNode (plainContext demoOutline []) false false
                       generatedEntry).

End CasesVocabulary.

(* ===================================================================== *)
(** * Properties of the store *)
(* ===================================================================== *)

Section StoreFacts.
Import Store.

Lemma unfinished_dependency_spec t ts dep :
  unfinished_dependency t ts dep = true ↔ unfinished t (projectId ts) dep.
Proof.
  unfold unfinished_dependency, unfinished, has_key.
  rewrite existsb_exists. split.
  - intros (r & Hin & Hr). exists r.
    rewrite !andb_true_iff, negb_true_iff, !bool_decide_eq_true,
      bool_decide_eq_false in Hr.
    rewrite list_elem_of_In. tauto.
  - intros (r & Hin & [Hp Hn] & Hs). exists r.
    rewrite !andb_true_iff, negb_true_iff, !bool_decide_eq_true,
      bool_decide_eq_false.
    rewrite <- list_elem_of_In. tauto.
Qed.

Lemma not_unfinished_finished t p dep :
  ¬ unfinished t p dep ↔ finished t p dep.
Proof.
  unfold unfinished, finished. split.
  - intros H r Hin Hk. destruct (decide (status r = completed)); [done|].
    exfalso. apply H. eauto.
  - intros H (r & Hin & Hk & Hs). auto.
Qed.

Lemma is_ready_spec p t ts :
  is_ready p t ts = true ↔
  projectId ts = p ∧ status ts = pending ∧
  ∀ dep, dep ∈ dependencies ts → finished t p dep.
Proof.
  unfold is_ready.
  rewrite !andb_true_iff, negb_true_iff, !bool_decide_eq_true.
  rewrite <- not_true_iff_false, existsb_exists.
  split.
  - intros [[Hp Hs] Hd]. split; [done|]. split; [done|].
    intros dep Hdep. apply not_unfinished_finished. intros Hu.
    apply Hd. exists dep. split; [by apply list_elem_of_In|].
    apply unfinished_dependency_spec. by rewrite Hp.
  - intros (Hp & Hs & Hd). split; [done|].
    intros (dep & Hdep & Hu).
    apply unfinished_dependency_spec in Hu. rewrite Hp in Hu.
    apply list_elem_of_In in Hdep.
    by apply (not_unfinished_finished t p dep) in Hu; [|apply Hd].
Qed.

(** The rows the stored procedure selects, on any table. *)
Lemma list_ready_tasks_spec p t ts :
  ts ∈ list_ready_tasks p t ↔
  ts ∈ t ∧ projectId ts = p ∧ status ts = pending ∧
  ∀ dep, dep ∈ dependencies ts → finished t p dep.
Proof.
  unfold list_ready_tasks.
  rewrite list_elem_of_In, filter_In, <- list_elem_of_In, is_ready_spec.
  tauto.
Qed.

Lemma listReadyTasks_spec p t x :
  x ∈ listReadyTasks p t ↔
  ∃ ts, x = ready_record ts ∧ ts ∈ list_ready_tasks p t.
Proof. unfold listReadyTasks. by rewrite list_elem_of_fmap. Qed.

End StoreFacts.

Section C2.
Import Store.

(** C2 (readiness invariant).  On every table in which the dependency
    ids of project [p] name rows of [p], and whatever the statuses of
    the rows are, listReadyTasks(p) returns exactly the records of the
    rows of [p] whose status is pending and whose every dependency id
    has status completed; a row in any other status combination is not
    returned. *)
Theorem C2_listReadyTasks_exactly_ready (p : string) (t : table)
    (Hrefs : dependencies_persisted t p) (x : TaskRecord) :
  x ∈ listReadyTasks p t ↔
  ∃ ts, x = ready_record ts ∧ ts ∈ t ∧ projectId ts = p ∧
        status ts = pending ∧
        ∀ dep, dep ∈ dependencies ts → has_status t p dep completed.
Proof.
  rewrite listReadyTasks_spec. split.
  - intros (ts & -> & Hts). exists ts. split; [done|].
    apply list_ready_tasks_spec in Hts as (Hin & Hp & Hs & Hd).
    repeat split; try done.
    + by apply (Hrefs ts).
    + by apply Hd.
  - intros (ts & -> & Hin & Hp & Hs & Hd). exists ts. split; [done|].
    apply list_ready_tasks_spec. repeat split; try done.
    intros dep Hdep. by destruct (Hd dep Hdep).
Qed.

End C2.

(* ===================================================================== *)
(** * Properties of the planner *)
(* ===================================================================== *)

Section BuilderFacts.
Import Planner.

Lemma index_ok_empty : index_ok emptyBuilder.
Proof.
  intros i. simpl. rewrite lookup_empty. split.
  - by intros [? ?].
  - intros H. by apply elem_of_nil in H.
Qed.

Lemma addNode_nodes b n :
  index_ok b → b_nodes (addNode b n) = addNodeL (b_nodes b) n.
Proof.
  intros Hok. unfold addNode, addNodeL.
  destruct (decide (is_Some _)) as [Hs|Hs];
    destruct (decide (id n ∈ _)) as [Hi|Hi]; try done.
  - by apply Hok in Hs.
  - by apply Hok in Hi.
Qed.

Lemma addNode_edges b n : b_edges (addNode b n) = b_edges b.
Proof. unfold addNode. by destruct (decide _). Qed.

Lemma addNode_index_ok b n : index_ok b → index_ok (addNode b n).
Proof.
  intros Hok. unfold addNode. destruct (decide _) as [Hs|Hs]; [done|].
  intros i. simpl. rewrite map_app. simpl.
  rewrite elem_of_app, list_elem_of_singleton.
  destruct (decide (id n = i)) as [<-|Hne].
  - rewrite lookup_insert_eq. split; [by right|by eauto].
  - rewrite lookup_insert_ne by done. rewrite (Hok i).
    split; [by left|]. intros [?|?]; [done|congruence].
Qed.

Lemma built_refl b : index_ok b → built b [] [] b.
Proof. intros Hok. split; [done|]. split; [done|]. by rewrite app_nil_r. Qed.

Lemma built_add b ns es b1 n :
  built b ns es b1 → built b (ns ++ [n]) es (addNode b1 n).
Proof.
  intros (Hok & Hn & He). split; [by apply addNode_index_ok|]. split.
  - rewrite addNode_nodes, Hn by done. by rewrite foldl_app.
  - by rewrite addNode_edges.
Qed.

Lemma built_push b ns es b1 e :
  built b ns es b1 → built b ns (es ++ [e]) (pushEdge b1 e).
Proof.
  intros (Hok & Hn & He). split; [done|]. split; [done|].
  simpl. by rewrite He, <- app_assoc.
Qed.

Lemma built_eq b ns es ns' es' b' :
  built b ns es b' → ns = ns' → es = es' → built b ns' es' b'.
Proof. by intros H <- <-. Qed.

Lemma planEntry_spec context emb tab e b :
  index_ok b →
  built b (entryNodes context emb tab e) (entryEdges emb tab e)
        (planEntry context emb tab e b).
Proof.
  intros Hok. unfold planEntry, entryNodes, entryEdges, is_fixed.
  destruct (truthy_str _); [|destruct (shouldCreateRetrieve emb tab)];
    cbv zeta.
  - eapply built_eq;
      [eapply built_push, built_add, built_add, built_refl; exact Hok
      |reflexivity|reflexivity].
  - eapply built_eq;
      [eapply built_push, built_add, built_push, built_add, built_push,
         built_add, built_push, built_add, built_add, built_refl; exact Hok
      |reflexivity|reflexivity].
  - eapply built_eq;
      [eapply built_push, built_add, built_push, built_add, built_push,
         built_add, built_add, built_refl; exact Hok
      |reflexivity|reflexivity].
Qed.

Lemma planEntries_from context flattened b :
  index_ok b →
  let b' := foldl (fun b entry =>
              planEntry context (hasEmbed context) (hasTable context) entry b)
              b flattened in
  index_ok b' ∧
  b_nodes b' = foldl addNodeL (b_nodes b) (offered context flattened) ∧
  b_edges b' =
    b_edges b ++
    flat_map (entryEdges (hasEmbed context) (hasTable context)) flattened.
Proof.
  revert b. induction flattened as [|e l IH]; intros b Hok; simpl.
  - by rewrite app_nil_r.
  - destruct (planEntry_spec context (hasEmbed context) (hasTable context)
                e b Hok) as (Hok' & Hn & He).
    destruct (IH _ Hok') as (Hok'' & Hn' & He').
    split; [done|]. split.
    + rewrite Hn', Hn. unfold offered. simpl. by rewrite foldl_app.
    + rewrite He', He. by rewrite <- app_assoc.
Qed.

(** The arrays after the loop over the flattened outline. *)
Lemma planEntries_spec context flattened :
  index_ok (planEntries context flattened) ∧
  b_nodes (planEntries context flattened) =
    foldl addNodeL [] (offered context flattened) ∧
  b_edges (planEntries context flattened) =
    flat_map (entryEdges (hasEmbed context) (hasTable context)) flattened.
Proof. apply (planEntries_from context flattened emptyBuilder index_ok_empty). Qed.

(** ** addNode keeps the first node offered under each id *)

Lemma addNodeL_elem_of ns n x :
  x ∈ addNodeL ns n ↔ x ∈ ns ∨ (x = n ∧ id n ∉ map id ns).
Proof.
  unfold addNodeL. destruct (decide _) as [Hi|Hi].
  - split; [by left|]. by intros [?|[_ ?]].
  - rewrite elem_of_app, list_elem_of_singleton. split.
    + intros [?|?]; [by left|by right].
    + intros [?|[? _]]; [by left|by right].
Qed.

Lemma addNodeL_ids ns n i :
  i ∈ map id (addNodeL ns n) ↔ i ∈ map id ns ∨ i = id n.
Proof.
  unfold addNodeL. destruct (decide _) as [Hi|Hi].
  - split; [by left|]. by intros [?| ->].
  - rewrite map_app, elem_of_app. simpl. by rewrite list_elem_of_singleton.
Qed.

Lemma foldl_addNodeL_origin acc L x :
  x ∈ foldl addNodeL acc L → x ∈ acc ∨ x ∈ L.
Proof.
  revert acc. induction L as [|n L IH]; intros acc; simpl; [by left|].
  intros H. apply IH in H as [H|H].
  - apply addNodeL_elem_of in H as [?|[-> _]]; [by left|].
    right. apply list_elem_of_here.
  - right. by apply list_elem_of_further.
Qed.

Lemma foldl_addNodeL_ids acc L i :
  i ∈ map id (foldl addNodeL acc L) ↔ i ∈ map id acc ∨ i ∈ map id L.
Proof.
  revert acc. induction L as [|n L IH]; intros acc; simpl.
  - split; [by left|]. intros [?|H]; [done|]. by apply elem_of_nil in H.
  - rewrite IH, addNodeL_ids, elem_of_cons. tauto.
Qed.

Lemma addNodeL_NoDup ns n :
  NoDup (map id ns) → NoDup (map id (addNodeL ns n)).
Proof.
  intros H. unfold addNodeL. destruct (decide _) as [Hi|Hi]; [done|].
  rewrite map_app. simpl. apply NoDup_app. split; [done|].
  split; [|apply NoDup_singleton].
  intros i Hin Hin'. apply list_elem_of_singleton in Hin'. congruence.
Qed.

Lemma foldl_addNodeL_NoDup acc L :
  NoDup (map id acc) → NoDup (map id (foldl addNodeL acc L)).
Proof.
  revert acc. induction L as [|n L IH]; intros acc H; simpl; [done|].
  by apply IH, addNodeL_NoDup.
Qed.

End BuilderFacts.

Section NodeShapes.
Import Planner.

Lemma kind_prefix_inj t t' a b :
  kind_prefix t +:+ a = kind_prefix t' +:+ b → t = t' ∧ a = b.
Proof. destruct t, t'; simpl; intros [=]; by subst. Qed.

Lemma kind_prefix_document t c :
  kind_prefix t +:+ c = finalAssembleId → t = assemble ∧ c = "document".
Proof. destruct t; simpl; intros [=]; by subst. Qed.

(** What each node handed to addNode for an entry looks like. *)
Lemma entryNodes_shape context emb tab e n :
  n ∈ entryNodes context emb tab e →
  id n = kind_prefix (type n) +:+ cid e ∧
  outlineId n = chapter_number (node e) ∧
  match type n with
  | materialize_fixed => is_fixed e = true ∧ n = materializeNode e
  | prepare => is_fixed e = false ∧ n = prepareNode context emb tab e
  | retrieve => is_fixed e = false ∧ shouldCreateRetrieve emb tab = true ∧
                n = retrieveNode emb tab e
  | write => is_fixed e = false ∧ n = writeNode context emb tab e
  | verify => is_fixed e = false ∧ n = verifyNode context e
  | assemble => (is_fixed e = true ∧ n = fixedAssembleNode e) ∨
                (is_fixed e = false ∧ n = assembleNode context e)
  end.
Proof.
  unfold entryNodes.
  destruct (is_fixed e) eqn:Hf; [|destruct (shouldCreateRetrieve emb tab) eqn:Hr];
    simpl; intros Hin;
    repeat (apply elem_of_cons in Hin as [->|Hin]; [simpl; tauto|]);
    by apply elem_of_nil in Hin.
Qed.

Lemma entryNodes_same_id context emb tab e e' n n' :
  n ∈ entryNodes context emb tab e → n' ∈ entryNodes context emb tab e' →
  id n = id n' → type n = type n' ∧ cid e = cid e'.
Proof.
  intros Hn Hn' Hid.
  apply entryNodes_shape in Hn as (Hi & _). 
  apply entryNodes_shape in Hn' as (Hi' & _).
  rewrite Hi, Hi' in Hid. by apply kind_prefix_inj in Hid.
Qed.

(** Within one entry a kind occurs once. *)
Lemma entryNodes_same_type context emb tab e n n' :
  n ∈ entryNodes context emb tab e → n' ∈ entryNodes context emb tab e →
  type n = type n' → n = n'.
Proof.
  intros Hn Hn' Ht.
  apply entryNodes_shape in Hn as (_ & _ & Hs).
  apply entryNodes_shape in Hn' as (_ & _ & Hs').
  rewrite <- Ht in Hs'. destruct (type n); try (by destruct Hs, Hs'; subst).
  - destruct Hs as (? & ? & ->), Hs' as (? & ? & ->). done.
  - destruct Hs as [[? ->]|[? ->]], Hs' as [[? ->]|[? ->]];
      done || congruence.
Qed.

Lemma offered_elem_of context flattened n :
  n ∈ offered context flattened ↔
  ∃ e, e ∈ flattened ∧
       n ∈ entryNodes context (hasEmbed context) (hasTable context) e.
Proof.
  unfold offered. rewrite list_elem_of_In, in_flat_map.
  split; intros (e & H1 & H2); exists e;
    by rewrite ?list_elem_of_In in *.
Qed.

Lemma chapterNodes_eq context :
  chapterNodes context =
  foldl addNodeL [] (offered context (flattenOutline (outline context))).
Proof. unfold chapterNodes. apply planEntries_spec. Qed.

(** Every chapter node was handed to addNode for some outline entry. *)
Lemma chapterNodes_origin context n :
  n ∈ chapterNodes context →
  ∃ e, e ∈ flattenOutline (outline context) ∧
       n ∈ entryNodes context (hasEmbed context) (hasTable context) e.
Proof.
  rewrite chapterNodes_eq. intros H.
  apply foldl_addNodeL_origin in H as [H|H]; [by apply elem_of_nil in H|].
  by apply offered_elem_of.
Qed.

(** Every node handed to addNode is there, or a node with its id is. *)
Lemma chapterNodes_id_present context e n :
  e ∈ flattenOutline (outline context) →
  n ∈ entryNodes context (hasEmbed context) (hasTable context) e →
  ∃ n', n' ∈ chapterNodes context ∧ id n' = id n.
Proof.
  intros He Hn.
  assert (id n ∈ map id (chapterNodes context)) as Hid.
  { rewrite chapterNodes_eq. apply foldl_addNodeL_ids. right.
    apply (list_elem_of_fmap_2 id). apply offered_elem_of. eauto. }
  apply list_elem_of_fmap in Hid as (n' & Hid & Hin). eauto.
Qed.

(** With a kind fixed, the node found under the id of an entry is a
    node of an entry with the same chapter id. *)
Lemma chapterNodes_present context e n :
  e ∈ flattenOutline (outline context) →
  n ∈ entryNodes context (hasEmbed context) (hasTable context) e →
  ∃ n' e', n' ∈ chapterNodes context ∧
           e' ∈ flattenOutline (outline context) ∧
           n' ∈ entryNodes context (hasEmbed context) (hasTable context) e' ∧
           id n' = id n ∧ type n' = type n ∧ cid e' = cid e.
Proof.
  intros He Hn.
  destruct (chapterNodes_id_present context e n He Hn) as (n' & Hin & Hid).
  destruct (chapterNodes_origin context n' Hin) as (e' & He' & Hn').
  destruct (entryNodes_same_id _ _ _ _ _ _ _ Hn' Hn Hid) as [Ht Hc].
  exists n', e'. by repeat split.
Qed.

(** When no other entry renders the chapter id of [e], every node handed
    to addNode for [e] is added. *)
Lemma chapterNodes_complete context e n :
  chapter_unique (flattenOutline (outline context)) e →
  e ∈ flattenOutline (outline context) →
  n ∈ entryNodes context (hasEmbed context) (hasTable context) e →
  n ∈ chapterNodes context.
Proof.
  intros Huniq He Hn.
  destruct (chapterNodes_present context e n He Hn)
    as (n' & e' & Hin & He' & Hn' & Hid & Ht & Hc).
  rewrite (Huniq e' He' Hc) in Hn'.
  by rewrite <- (entryNodes_same_type _ _ _ _ _ _ Hn' Hn Ht).
Qed.

Lemma distinct_chapter_unique flattened e :
  distinct_chapters flattened → e ∈ flattened → chapter_unique flattened e.
Proof. intros Hd He e' He' Hc. by apply Hd. Qed.

Lemma chapterNodes_NoDup_ids context :
  NoDup (map id (chapterNodes context)).
Proof.
  rewrite chapterNodes_eq. apply foldl_addNodeL_NoDup. constructor.
Qed.

(** ** The document sink *)

Lemma foldl_pushEdge_edges {A} (f : A → TaskEdge) b (l : list A) :
  b_edges (foldl (fun b x => pushEdge b (f x)) b l) = b_edges b ++ map f l ∧
  b_nodes (foldl (fun b x => pushEdge b (f x)) b l) = b_nodes b.
Proof.
  revert b. induction l as [|x l IH]; intros b; simpl.
  - by rewrite app_nil_r.
  - destruct (IH (pushEdge b (f x))) as [-> ->]. simpl.
    by rewrite <- app_assoc.
Qed.

Lemma buildDag_nodes context :
  nodes (buildDag context) =
  let assembleNodes :=
    filter (fun n => type n = assemble) (chapterNodes context) in
  if (0 <? length assembleNodes)%nat
  then addNodeL (chapterNodes context) (finalAssembleNode assembleNodes)
  else chapterNodes context.
Proof.
  unfold buildDag, finishDag, addFinalAssemble, chapterNodes. simpl.
  destruct (0 <? _)%nat; [|done].
  rewrite (proj2 (foldl_pushEdge_edges _ _ _)).
  apply addNode_nodes, planEntries_spec.
Qed.

Lemma buildDag_edges context :
  edges (buildDag context) =
  let assembleNodes :=
    filter (fun n => type n = assemble) (chapterNodes context) in
  flat_map (entryEdges (hasEmbed context) (hasTable context))
           (flattenOutline (outline context)) ++
  if (0 <? length assembleNodes)%nat
  then map (fun n => {| from := id n; to := finalAssembleId;
                        reason := Some "章节合并" |}) assembleNodes
  else [].
Proof.
  unfold buildDag, finishDag, addFinalAssemble, chapterNodes. simpl.
  destruct (0 <? _)%nat.
  - rewrite (proj1 (foldl_pushEdge_edges _ _ _)), addNode_edges.
    by rewrite (proj2 (proj2 (planEntries_spec _ _))).
  - rewrite (proj2 (proj2 (planEntries_spec _ _))). by rewrite app_nil_r.
Qed.

Lemma buildDag_nodes_origin context n :
  n ∈ nodes (buildDag context) →
  n ∈ chapterNodes context ∨
  n = finalAssembleNode
        (filter (fun n => type n = assemble) (chapterNodes context)).
Proof.
  rewrite buildDag_nodes. simpl. destruct (0 <? _)%nat; [|by left].
  rewrite addNodeL_elem_of. intros [?|[? _]]; [by left|by right].
Qed.

Lemma chapterNodes_in_dag context n :
  n ∈ chapterNodes context → n ∈ nodes (buildDag context).
Proof.
  rewrite buildDag_nodes. simpl. destruct (0 <? _)%nat; [|done].
  intros H. apply addNodeL_elem_of. by left.
Qed.

End NodeShapes.

Section PlannerClaims.
Import Planner.

Lemma no_asset_ready_flags context :
  no_asset_ready context →
  shouldCreateRetrieve (hasEmbed context) (hasTable context) = false.
Proof.
  intros H. unfold shouldCreateRetrieve, hasEmbed, hasTable.
  apply orb_false_iff. split; apply not_true_iff_false;
    rewrite existsb_exists; intros (a & Hin & Ha);
    apply list_elem_of_In, H in Hin as [? ?]; congruence.
Qed.

Lemma some_asset_ready_flags context :
  some_asset_ready context →
  shouldCreateRetrieve (hasEmbed context) (hasTable context) = true.
Proof.
  intros (a & Hin & Ha). unfold shouldCreateRetrieve, hasEmbed, hasTable.
  apply list_elem_of_In in Hin.
  apply orb_true_iff. destruct Ha as [Ha|Ha]; [left|right];
    apply existsb_exists; eauto.
Qed.

Lemma ids_of_cid e e' :
  cid e' = cid e →
  materializeId e' = materializeId e ∧ prepareId e' = prepareId e ∧
  retrieveId e' = retrieveId e ∧ writeId e' = writeId e ∧
  verifyId e' = verifyId e ∧ assembleId e' = assembleId e.
Proof.
  unfold cid, materializeId, prepareId, retrieveId, writeId, verifyId,
    assembleId. by intros ->.
Qed.

(** C6 (retrieval conditionality).  When no asset of the index is
    embed-ready or table-ready the DAG holds no retrieve node and every
    write node depends on exactly the prepare node of its chapter; when
    some asset has one of the flags, every chapter without fixed content
    has a retrieve node that depends on its prepare node, and the write
    node of the chapter, like every write node, depends on exactly that
    retrieve node.  The choice is made once for the whole index. *)
Theorem C6_retrieve_nodes_follow_asset_readiness (context : PlannerContext) :
  let dag := buildDag context in
  let flattened := flattenOutline (outline context) in
  (no_asset_ready context →
     (∀ n, n ∈ nodes dag → type n ≠ retrieve) ∧
     (∀ n, n ∈ nodes dag → type n = write →
        ∃ e pn, e ∈ flattened ∧ is_fixed e = false ∧
                outlineId n = chapter_number (node e) ∧
                pn ∈ nodes dag ∧ type pn = prepare ∧
                id pn = prepareId e ∧ dependencies n = [id pn])) ∧
  (some_asset_ready context →
     (∀ e, e ∈ flattened → is_fixed e = false →
        ∃ pn rn wn,
          pn ∈ nodes dag ∧ rn ∈ nodes dag ∧ wn ∈ nodes dag ∧
          type pn = prepare ∧ id pn = prepareId e ∧
          type rn = retrieve ∧ id rn = retrieveId e ∧
          dependencies rn = [id pn] ∧
          type wn = write ∧ id wn = writeId e ∧
          dependencies wn = [id rn]) ∧
     (∀ n, n ∈ nodes dag → type n = write →
        ∃ e, e ∈ flattened ∧ outlineId n = chapter_number (node e) ∧
             dependencies n = [retrieveId e])).
Proof.
  intros dag flattened. split.
  - intros Hnone. pose proof (no_asset_ready_flags context Hnone) as Hflag.
    split.
    + intros n Hin Ht.
      apply buildDag_nodes_origin in Hin as [Hin| ->]; [|done].
      apply chapterNodes_origin in Hin as (e & He & Hn).
      apply entryNodes_shape in Hn as (_ & _ & Hs). rewrite Ht in Hs.
      destruct Hs as (_ & Hr & _). congruence.
    + intros n Hin Ht.
      apply buildDag_nodes_origin in Hin as [Hin| ->]; [|done].
      apply chapterNodes_origin in Hin as (e & He & Hn).
      pose proof (entryNodes_shape _ _ _ _ _ Hn) as (_ & Ho & Hs).
      rewrite Ht in Hs. destruct Hs as [Hf ->].
      assert (prepareNode context (hasEmbed context) (hasTable context) e
              ∈ entryNodes context (hasEmbed context) (hasTable context) e)
        as Hp.
      { unfold entryNodes. rewrite Hf. apply list_elem_of_here. }
      destruct (chapterNodes_present context e _ He Hp)
        as (pn & e' & Hpin & _ & _ & Hpid & Hpt & _).
      exists e, pn. repeat split; try done.
      * by apply chapterNodes_in_dag.
      * simpl. unfold lastDependency. rewrite Hflag. by rewrite Hpid.
  - intros Hsome. pose proof (some_asset_ready_flags context Hsome) as Hflag.
    split.
    + intros e He Hf.
      assert (∀ n, n ∈ [ prepareNode context (hasEmbed context) (hasTable context) e;
                         retrieveNode (hasEmbed context) (hasTable context) e;
                         writeNode context (hasEmbed context) (hasTable context) e ] →
                   n ∈ entryNodes context (hasEmbed context) (hasTable context) e)
        as Hoffered.
      { intros n Hn. unfold entryNodes. rewrite Hf, Hflag. simpl.
        repeat (apply elem_of_cons in Hn as [->|Hn];
                [repeat first [apply list_elem_of_here
                              | apply list_elem_of_further]|]).
        by apply elem_of_nil in Hn. }
      destruct (chapterNodes_present context e
                  (prepareNode context (hasEmbed context) (hasTable context) e)
                  He) as (pn & ep & Hpin & _ & _ & Hpid & Hpt & _).
      { apply Hoffered. apply list_elem_of_here. }
      destruct (chapterNodes_present context e
                  (retrieveNode (hasEmbed context) (hasTable context) e)
                  He) as (rn & er & Hrin & _ & Hrn & Hrid & Hrt & Hrc).
      { apply Hoffered. apply list_elem_of_further, list_elem_of_here. }
      destruct (chapterNodes_present context e
                  (writeNode context (hasEmbed context) (hasTable context) e)
                  He) as (wn & ew & Hwin & _ & Hwn & Hwid & Hwt & Hwc).
      { apply Hoffered. do 2 apply list_elem_of_further.
        apply list_elem_of_here. }
      exists pn, rn, wn.
      apply entryNodes_shape in Hrn as (_ & _ & Hrs).
      rewrite Hrt in Hrs. simpl in Hrs. destruct Hrs as (_ & _ & Hrs).
      apply entryNodes_shape in Hwn as (_ & _ & Hws).
      rewrite Hwt in Hws. simpl in Hws. destruct Hws as (_ & Hws).
      destruct (ids_of_cid _ _ Hrc) as (_ & Hrp & _).
      destruct (ids_of_cid _ _ Hwc) as (_ & _ & Hwr & _).
      repeat split; try (by apply chapterNodes_in_dag); try done.
      * rewrite Hrs, Hpid. simpl. by rewrite Hrp.
      * rewrite Hws, Hrid. simpl. unfold lastDependency.
        by rewrite Hflag, Hwr.
    + intros n Hin Ht.
      apply buildDag_nodes_origin in Hin as [Hin| ->]; [|done].
      apply chapterNodes_origin in Hin as (e & He & Hn).
      pose proof (entryNodes_shape _ _ _ _ _ Hn) as (_ & Ho & Hs).
      rewrite Ht in Hs. destruct Hs as [Hf ->].
      exists e. repeat split; try done.
      simpl. unfold lastDependency. by rewrite Hflag.
Qed.

Lemma buildDag_NoDup_ids context : NoDup (map id (nodes (buildDag context))).
Proof.
  rewrite buildDag_nodes. simpl. destruct (0 <? _)%nat.
  - apply addNodeL_NoDup, chapterNodes_NoDup_ids.
  - apply chapterNodes_NoDup_ids.
Qed.


Lemma entryEdges_in_dag context e x :
  e ∈ flattenOutline (outline context) →
  x ∈ entryEdges (hasEmbed context) (hasTable context) e →
  x ∈ edges (buildDag context).
Proof.
  intros He Hx. rewrite buildDag_edges. simpl. apply elem_of_app. left.
  apply list_elem_of_In, in_flat_map. exists e.
  by rewrite <- !list_elem_of_In.
Qed.


Ltac pick_elem :=
  solve [repeat first [apply list_elem_of_here | apply list_elem_of_further]].

Ltac pick_successor n' :=
  exists n'; split;
  [pick_elem
  |simpl; unfold lastDependency, shouldCreateRetrieve; simpl; pick_elem].

Lemma flattenOutline_nonempty o :
  o ≠ [] → ∃ e, e ∈ flattenOutline o.
Proof.
  destruct o as [|n o]; [done|]. intros _.
  exists {| node := n; parentId := None |}.
  unfold flattenOutline, walk. simpl. destruct n. simpl.
  apply list_elem_of_here.
Qed.

Lemma entryNodes_has_assemble context emb tab e :
  ∃ n, n ∈ entryNodes context emb tab e ∧ type n = assemble ∧
       id n = assembleId e.
Proof.
  unfold entryNodes. destruct (is_fixed e).
  - exists (fixedAssembleNode e). split; [pick_elem|done].
  - exists (assembleNode context e). split; [|done].
    destruct (shouldCreateRetrieve emb tab); simpl; pick_elem.
Qed.

Lemma entryNodes_has_first context emb tab e :
  ∃ n, n ∈ entryNodes context emb tab e ∧
       type n = (if is_fixed e then materialize_fixed else prepare) ∧
       id n = (if is_fixed e then materializeId e else prepareId e).
Proof.
  unfold entryNodes. destruct (is_fixed e).
  - exists (materializeNode e). split; [pick_elem|done].
  - exists (prepareNode context emb tab e). split; [pick_elem|done].
Qed.

(** The dependencies of a node of an entry are ids of nodes of that
    entry. *)
Lemma entryNodes_dependencies context emb tab e n i :
  n ∈ entryNodes context emb tab e → i ∈ dependencies n →
  i ∈ map id (entryNodes context emb tab e).
Proof.
  unfold entryNodes, lastDependency, shouldCreateRetrieve.
  destruct (is_fixed e), emb, tab; simpl; intros Hin;
    repeat (apply elem_of_cons in Hin as [->|Hin];
            [simpl; intros Hi;
             first [by apply elem_of_nil in Hi
                   | apply list_elem_of_singleton in Hi as ->; pick_elem]|]);
    by apply elem_of_nil in Hin.
Qed.

(** Every node of an entry but its assemble node is a dependency of a
    node of that entry. *)
Lemma entryNodes_successor context emb tab e n :
  n ∈ entryNodes context emb tab e → type n ≠ assemble →
  ∃ n', n' ∈ entryNodes context emb tab e ∧ id n ∈ dependencies n'.
Proof.
  unfold entryNodes, lastDependency, shouldCreateRetrieve.
  destruct (is_fixed e), emb, tab; simpl; intros Hin Ht;
    repeat (apply elem_of_cons in Hin as [->|Hin];
            [first [done
                   | pick_successor (fixedAssembleNode e)
                   | pick_successor (retrieveNode true true e)
                   | pick_successor (retrieveNode true false e)
                   | pick_successor (retrieveNode false true e)
                   | pick_successor (writeNode context true true e)
                   | pick_successor (writeNode context true false e)
                   | pick_successor (writeNode context false true e)
                   | pick_successor (writeNode context false false e)
                   | pick_successor (verifyNode context e)
                   | pick_successor (assembleNode context e) ]|]);
    by apply elem_of_nil in Hin.
Qed.

Lemma chapter_node_not_sink context n :
  (∀ e, e ∈ flattenOutline (outline context) → cid e ≠ "document") →
  n ∈ chapterNodes context → id n ≠ finalAssembleId.
Proof.
  intros Hnames Hin Hid.
  apply chapterNodes_origin in Hin as (e & He & Hn).
  apply entryNodes_shape in Hn as (Hi & _). rewrite Hi in Hid.
  apply kind_prefix_document in Hid as [_ Hc]. by apply (Hnames e).
Qed.

(** C7 (document sink), for an outline that is not empty and has no
    chapter numbered "document".  buildDag appends one node
    assemble:document after the chapter nodes; its dependencies are
    exactly the ids of the assemble nodes of the chapters; the edge list
    has an edge from each of them to the sink; no node depends on the
    sink; and when chapter numbers are unique every other node is a
    dependency of some node, so the sink is the only terminal node. *)
Theorem C7_document_sink_collects_chapter_assembles
    (context : PlannerContext)
    (Hsome : outline context ≠ [])
    (Hnames : ∀ e, e ∈ flattenOutline (outline context) →
                   cid e ≠ "document") :
  let dag := buildDag context in
  let chapterAssembles :=
    filter (fun n => type n = assemble) (chapterNodes context) in
  let sink := finalAssembleNode chapterAssembles in
  nodes dag = chapterNodes context ++ [sink] ∧
  (∀ n, n ∈ chapterNodes context → id n ≠ id sink) ∧
  id sink = "assemble:document" ∧ type sink = assemble ∧
  dependencies sink = map id chapterAssembles ∧
  (∀ i, i ∈ dependencies sink ↔
        ∃ n, n ∈ nodes dag ∧ type n = assemble ∧ n ≠ sink ∧ id n = i) ∧
  (∀ n, n ∈ nodes dag → type n = assemble → n ≠ sink →
        {| from := id n; to := id sink; reason := Some "章节合并" |}
        ∈ edges dag) ∧
  (∀ n, n ∈ nodes dag → id sink ∉ dependencies n) ∧
  (distinct_chapters (flattenOutline (outline context)) →
   ∀ n, n ∈ nodes dag → n ≠ sink →
        ∃ n', n' ∈ nodes dag ∧ id n ∈ dependencies n').
Proof.
  intros dag chapterAssembles sink.
  pose proof (chapter_node_not_sink context) as Hnot.
  assert (chapterAssembles ≠ []) as Hne.
  { destruct (flattenOutline_nonempty _ Hsome) as [e He].
    destruct (entryNodes_has_assemble context (hasEmbed context)
                (hasTable context) e) as (n & Hn & Ht & _).
    destruct (chapterNodes_present context e n He Hn)
      as (n' & _ & Hin & _ & _ & _ & Ht' & _).
    intros Hnil.
    assert (n' ∈ chapterAssembles) as Hin'.
    { apply list_elem_of_filter. split; [congruence|done]. }
    rewrite Hnil in Hin'. by apply elem_of_nil in Hin'. }
  assert (nodes dag = chapterNodes context ++ [sink]) as Hnodes.
  { unfold dag. rewrite buildDag_nodes. simpl. fold chapterAssembles.
    destruct chapterAssembles as [|a l] eqn:Ha; [done|]. simpl.
    unfold addNodeL. rewrite decide_False; [done|].
    intros Hin. apply list_elem_of_fmap in Hin as (n & Hid & Hin).
    by apply (Hnot n Hnames Hin). }
  assert (∀ n, n ∈ nodes dag → n ≠ sink → n ∈ chapterNodes context) as Hch.
  { intros n Hin Hn. rewrite Hnodes in Hin.
    apply elem_of_app in Hin as [?|Hin]; [done|].
    by apply list_elem_of_singleton in Hin. }
  split; [done|]. split; [by intros n Hin; apply Hnot|].
  do 3 (split; [done|]). split; [|split; [|split]].
  - intros i. simpl. split.
    + intros Hi. apply list_elem_of_fmap in Hi as (n & -> & Hin).
      apply list_elem_of_filter in Hin as [Ht Hin].
      exists n. split; [by apply chapterNodes_in_dag|].
      split; [done|]. split; [|done].
      intros ->. by apply (Hnot _ Hnames Hin).
    + intros (n & Hin & Ht & Hn & <-).
      apply (list_elem_of_fmap_2 id), list_elem_of_filter.
      split; [done|by apply Hch].
  - intros n Hin Ht Hn. unfold dag. rewrite buildDag_edges. simpl.
    fold chapterAssembles. apply elem_of_app. right.
    destruct chapterAssembles as [|a l] eqn:Ha; [done|].
    change (0 <? length (a :: l))%nat with true. cbv iota.
    rewrite <- Ha.
    apply (list_elem_of_fmap_2
             (fun n => {| from := id n; to := finalAssembleId;
                          reason := Some "章节合并" |})).
    apply list_elem_of_filter. split; [done|by apply Hch].
  - intros n Hin Hdep. rewrite Hnodes in Hin.
    apply elem_of_app in Hin as [Hin|Hin].
    2:{ apply list_elem_of_singleton in Hin as ->.
        simpl in Hdep. apply list_elem_of_fmap in Hdep as (n0 & Hid & Hin0).
        apply list_elem_of_filter in Hin0 as [_ Hin0].
        by apply (Hnot n0 Hnames Hin0). }
    + apply chapterNodes_origin in Hin as (e & He & Hn').
      pose proof (entryNodes_dependencies _ _ _ _ _ _ Hn' Hdep) as Hi.
      apply list_elem_of_fmap in Hi as (n0 & Hid & Hin0).
      apply entryNodes_shape in Hin0 as (Hi0 & _).
      rewrite Hi0 in Hid. symmetry in Hid.
      apply kind_prefix_document in Hid as [_ Hc]. by apply (Hnames e).
  - intros Hdist n Hin Hn. apply Hch in Hin; [|done].
    destruct (decide (type n = assemble)) as [Ht|Ht].
    + exists sink. split.
      * rewrite Hnodes. apply elem_of_app. right. apply list_elem_of_here.
      * simpl. apply (list_elem_of_fmap_2 id), list_elem_of_filter. done.
    + pose proof Hin as Hin0.
      apply chapterNodes_origin in Hin as (e & He & Hn').
      destruct (entryNodes_successor _ _ _ _ _ Hn' Ht) as (n' & Hn'' & Hd).
      exists n'. split; [|done]. apply chapterNodes_in_dag.
      apply (chapterNodes_complete context e); [|done|done].
      by apply distinct_chapter_unique.
Qed.

(** C5 (malformed outline entries) as the code does it.  No outline
    entry is skipped: for every entry of the flattened outline, with or
    without its chapter number and title, the DAG holds a first-stage
    node and an assemble node under the ids rendered from its chapter
    number, a missing chapter number being rendered as "undefined"; and
    when no other entry renders the same chapter id, every node planned
    for the entry is in the DAG. *)
Theorem C5_no_outline_entry_is_skipped
    (context : PlannerContext) (e : FlattenedOutlineNode)
    (He : e ∈ flattenOutline (outline context)) :
  let dag := buildDag context in
  (∃ first last,
     first ∈ nodes dag ∧ last ∈ nodes dag ∧
     type first = (if is_fixed e then materialize_fixed else prepare) ∧
     id first = (if is_fixed e then materializeId e else prepareId e) ∧
     type last = assemble ∧ id last = assembleId e) ∧
  (chapter_number (node e) = None → assembleId e = "assemble:undefined") ∧
  (chapter_unique (flattenOutline (outline context)) e →
   ∀ n, n ∈ entryNodes context (hasEmbed context) (hasTable context) e →
        n ∈ nodes dag).
Proof.
  intros dag. split; [|split].
  - destruct (entryNodes_has_first context (hasEmbed context)
                (hasTable context) e) as (f & Hf & Hft & Hfi).
    destruct (entryNodes_has_assemble context (hasEmbed context)
                (hasTable context) e) as (l & Hl & Hlt & Hli).
    destruct (chapterNodes_present context e f He Hf)
      as (f' & _ & Hfin & _ & _ & Hfid & Hfty & _).
    destruct (chapterNodes_present context e l He Hl)
      as (l' & _ & Hlin & _ & _ & Hlid & Hlty & _).
    exists f', l'.
    repeat split; try (by apply chapterNodes_in_dag); congruence.
  - unfold assembleId. by intros ->.
  - intros Hu n Hn. apply chapterNodes_in_dag.
    by apply (chapterNodes_complete context e).
Qed.

End PlannerClaims.

(* ===================================================================== *)
(** * Properties of the dispatcher *)
(* ===================================================================== *)

Section MonadFacts.
Import Store Dispatcher.

Lemma exec_bind {A B} (m : M A) (k : A → M B) w :
  exec (m ≫= k) w = exec (k (m w).1) (m w).2.
Proof. unfold exec, mbind, M_bind. by destruct (m w). Qed.

Lemma exec_seq {B} (m : M unit) (k : M B) w :
  exec (m ;; k) w = exec k (exec m w).
Proof. unfold exec, mbind, M_bind. by destruct (m w). Qed.

Lemma exec_ret {A} (a : A) w : exec (mret a) w = w.
Proof. done. Qed.

Lemma exec_read_bind {A B} (f : table → A) (k : A → M B) w :
  exec (read f ≫= k) w = exec (k (f (tasks w))) w.
Proof. done. Qed.

Lemma exec_emit e f w :
  exec (emit e f) w = {| tasks := f (tasks w); calls := calls w ++ [e] |}.
Proof. done. Qed.

Lemma buildJobPayload_pure p task w :
  (buildJobPayload p task w).2 = w.
Proof. done. Qed.

End MonadFacts.

Section JsFacts.

Lemma is_str_true s v : is_str s v = true ↔ v = Some (JStr s).
Proof.
  unfold is_str. destruct v as [[]|]; try (split; [done|congruence]).
  rewrite String.eqb_eq. split; congruence.
Qed.

Lemma is_str_false s v : is_str s v = false ↔ v ≠ Some (JStr s).
Proof.
  rewrite <- is_str_true. destruct (is_str s v); split; congruence.
Qed.

Lemma truthy_prop k v : truthy (prop k v) = true → truthy v = true.
Proof. destruct v as [[]|]; simpl; try done. Qed.

Lemma lookup_stringify (o : gmap string jsv) k :
  stringify o !! k = o !! k ≫= id.
Proof. unfold stringify. by rewrite lookup_omap. Qed.

Lemma lookup_stringify_insert (o : gmap string jsv) k v :
  stringify (<[k := v]> o) !! k = v.
Proof. rewrite lookup_stringify, lookup_insert_eq. by destruct v. Qed.

Lemma lookup_stringify_insert_ne (o : gmap string jsv) k k' v :
  k ≠ k' → stringify (<[k := v]> o) !! k' = stringify o !! k'.
Proof. intros. by rewrite !lookup_stringify, lookup_insert_ne. Qed.

Lemma lookup_stringify_delete (o : gmap string jsv) k :
  stringify (delete k o) !! k = None.
Proof. by rewrite lookup_stringify, lookup_delete_eq. Qed.

Lemma lookup_stringify_delete_ne (o : gmap string jsv) k k' :
  k ≠ k' → stringify (delete k o) !! k' = stringify o !! k'.
Proof. intros. by rewrite !lookup_stringify, lookup_delete_ne. Qed.

Lemma lookup_stringify_Some (m : gmap string json) k :
  stringify (Some <$> m) !! k = m !! k.
Proof. rewrite lookup_stringify, lookup_fmap. by destruct (m !! k). Qed.

End JsFacts.

Section StoreUpdateFacts.
Import Store.

Lemma elem_of_updateStatus p n s meta t r' :
  r' ∈ updateStatus p n s meta t ↔
  ∃ r, r ∈ t ∧
       r' = if decide (has_key p n r) then apply_update s meta r else r.
Proof.
  unfold updateStatus. rewrite list_elem_of_fmap. split.
  - intros (r & -> & Hin). eauto.
  - intros (r & Hin & ->). eauto.
Qed.

(** After updateStatus the rows of the node carry the new status. *)
Lemma updateStatus_hit p n s meta t r' :
  r' ∈ updateStatus p n s meta t → has_key p n r' →
  ∃ r, r ∈ t ∧ has_key p n r ∧ r' = apply_update s meta r.
Proof.
  rewrite elem_of_updateStatus. intros (r & Hin & ->) Hk.
  destruct (decide (has_key p n r)); [eauto|]. done.
Qed.

(** The rows of other nodes are the rows of before. *)
Lemma updateStatus_miss p n s meta t r' :
  ¬ has_key p n r' → (r' ∈ updateStatus p n s meta t ↔ r' ∈ t).
Proof.
  intros Hk. rewrite elem_of_updateStatus. split.
  - intros (r & Hin & ->). by destruct (decide (has_key p n r)).
  - intros Hin. exists r'. split; [done|].
    by destruct (decide (has_key p n r')).
Qed.

Lemma getTask_Some p n t task :
  getTask p n t = Some task →
  ∃ r, r ∈ t ∧ has_key p n r ∧ task = read_row r.
Proof.
  unfold getTask. destruct (List.find _ t) as [r|] eqn:Hf; [|done].
  intros [= <-]. apply find_some in Hf as [Hin Hk].
  apply bool_decide_eq_true in Hk. apply list_elem_of_In in Hin. eauto.
Qed.

End StoreUpdateFacts.

Section VerifyProtocol.
Import Store Dispatcher.
Variable enqueueOptions : option EnqueueOptions.

(** C10 (unknown verify status).  A verify result event without an
    error whose result carries a truthy status that is none of accept,
    hard_fail and soft_fail leaves the world as it was: no row is
    written (status, metadata and result stay), nothing is asked of the
    store or of a queue, so the task keeps the status it had. *)
Theorem C10_unknown_verify_status_changes_nothing
    (w : World) (event : WorkerResultEvent)
    (Htype : r_type event = Node Planner.verify)
    (Herror : truthy_str (r_error event) = false)
    (Hstatus : truthy (prop "status" (r_result event)) = true)
    (Haccept : prop "status" (r_result event) ≠ Some (JStr "accept"))
    (Hhard : prop "status" (r_result event) ≠ Some (JStr "hard_fail"))
    (Hsoft : prop "status" (r_result event) ≠ Some (JStr "soft_fail")) :
  handleWorkerResult enqueueOptions event w = (tt, w) ∧
  tasks (exec (handleWorkerResult enqueueOptions event) w) = tasks w ∧
  calls (exec (handleWorkerResult enqueueOptions event) w) = calls w ∧
  jobs (exec (handleWorkerResult enqueueOptions event) w) = jobs w.
Proof.
  assert (handleWorkerResult enqueueOptions event w = (tt, w)) as Hrun.
  { unfold handleWorkerResult. rewrite Htype, Herror, Hstatus. simpl.
    unfold handleVerifyResult.
    rewrite (truthy_prop _ _ Hstatus). simpl.
    apply is_str_false in Haccept, Hhard, Hsoft.
    by rewrite Haccept, Hhard, Hsoft. }
  unfold exec. by rewrite Hrun.
Qed.

Lemma soft_fail_run (w : World) (event : WorkerResultEvent)
    (Htype : r_type event = Node Planner.verify)
    (Herror : truthy_str (r_error event) = false)
    (Hsoft : prop "status" (r_result event) = Some (JStr "soft_fail")) :
  exec (handleWorkerResult enqueueOptions event) w =
  match getTask (r_projectId event) (r_nodeId event) (tasks w) with
  | None => w
  | Some task =>
      let meta :=
        {| m_result := prop "draft" (r_result event);
           m_error := None; m_retries := None;
           m_metadata := Some (softFailMetadata task (r_result event)) |} in
      {| tasks := updateStatus (r_projectId event) (r_nodeId event)
                    blocked meta (tasks w);
         calls := calls w ++
           [ StatusWrite (r_projectId event) (r_nodeId event) blocked meta;
             QueueAdd (autofixJob (r_projectId event) (r_nodeId event)
                                  (r_result event)) ] |}
  end.
Proof.
  unfold handleWorkerResult. rewrite Htype, Herror, Hsoft. simpl.
  unfold handleVerifyResult. rewrite Hsoft.
  assert (truthy (r_result event) = true) as ->.
  { apply (truthy_prop "status"). by rewrite Hsoft. }
  simpl. rewrite exec_read_bind.
  destruct (getTask _ _ _) as [task|]; [|done].
  rewrite exec_seq. unfold storeUpdateStatus, queueAdd.
  rewrite !exec_emit. simpl. by rewrite <- app_assoc.
Qed.

(** C3 (soft fail), for an event whose node id names a task.  The rows
    of the verify node are set to blocked (not failed) and keep, in their
    metadata, the draft, the proposed patches under pendingPatches and
    the violations of the result next to the keys they had; the rows of
    other nodes stay; exactly one job is added, on the autofix queue,
    carrying the draft and the patches. *)
Theorem C3_soft_fail_blocks_and_asks_autofix
    (w : World) (event : WorkerResultEvent) (task : TaskRecord)
    (Htype : r_type event = Node Planner.verify)
    (Herror : truthy_str (r_error event) = false)
    (Hsoft : prop "status" (r_result event) = Some (JStr "soft_fail"))
    (Htask : getTask (r_projectId event) (r_nodeId event) (tasks w)
             = Some task) :
  let p := r_projectId event in
  let n := r_nodeId event in
  let verifyResult := r_result event in
  let w' := exec (handleWorkerResult enqueueOptions event) w in
  (∃ r', r' ∈ tasks w' ∧ has_key p n r') ∧
  (∀ r', r' ∈ tasks w' → has_key p n r' →
     status r' = blocked ∧
     metadata r' !! "draft" = prop "draft" verifyResult ∧
     metadata r' !! "pendingPatches" = prop "patches" verifyResult ∧
     metadata r' !! "violations" = prop "violations" verifyResult ∧
     ∀ k, k ≠ "draft" → k ≠ "pendingPatches" → k ≠ "violations" →
          metadata r' !! k = metadata task !! k) ∧
  (∀ r, ¬ has_key p n r → (r ∈ tasks w' ↔ r ∈ tasks w)) ∧
  jobs w' = jobs w ++
    [ {| j_queue := autofixer;
         j_name := p +:+ ":" +:+ n +:+ ":autofix";
         j_payload :=
           [ ("projectId", Some (JStr p));
             ("nodeId", Some (JStr n));
             ("draft", prop "draft" verifyResult);
             ("patches", prop "patches" verifyResult ?? Some (JArr [])) ];
         j_options := defaultEnqueueOptions |} ].
Proof.
  intros p n verifyResult w'. subst w'.
  rewrite (soft_fail_run w event Htype Herror Hsoft), Htask. simpl.
  fold p n verifyResult.
  apply getTask_Some in Htask as (r0 & Hin0 & Hk0 & ->).
  split; [|split; [|split]].
  - exists (apply_update blocked
      {| m_result := prop "draft" verifyResult; m_error := None;
         m_retries := None;
         m_metadata := Some (softFailMetadata (read_row r0) verifyResult) |}
      r0).
    split; [|done]. apply elem_of_updateStatus. exists r0.
    split; [done|]. by destruct (decide (has_key p n r0)).
  - intros r' Hin Hk.
    apply updateStatus_hit in Hin as (r & Hin & Hkr & ->); [|done].
    simpl. unfold softFailMetadata. split; [done|].
    split; [|split; [|split]].
    + rewrite lookup_stringify_insert_ne, lookup_stringify_insert_ne by done.
      apply lookup_stringify_insert.
    + rewrite lookup_stringify_insert_ne by done.
      apply lookup_stringify_insert.
    + apply lookup_stringify_insert.
    + intros k Hd Hp Hv.
      rewrite !lookup_stringify_insert_ne by done.
      apply lookup_stringify_Some.
  - intros r Hk. by apply updateStatus_miss.
  - unfold jobs. simpl. rewrite omap_app. simpl. done.
Qed.

Lemma getTask_updateStatus p n s meta t :
  getTask p n (updateStatus p n s meta t) =
  (fun r => read_row (apply_update s meta r)) <$>
    List.find (fun r => bool_decide (has_key p n r)) t.
Proof.
  unfold getTask, updateStatus. induction t as [|r t IH]; [done|].
  simpl. destruct (decide (has_key p n r)) as [Hk|Hk].
  - rewrite (bool_decide_eq_true_2 _ Hk).
    assert (has_key p n (apply_update s meta r)) as Hk' by done.
    by rewrite (bool_decide_eq_true_2 _ Hk').
  - by rewrite (bool_decide_eq_false_2 _ Hk).
Qed.

Lemma autofix_success_run (w : World) (event : WorkerResultEvent)
    (task : TaskRecord)
    (Htype : r_type event = Autofix)
    (Herror : truthy_str (r_error event) = false)
    (Htask : getTask (r_projectId event) (r_nodeId event) (tasks w)
             = Some task) :
  let p := r_projectId event in
  let n := r_nodeId event in
  let meta :=
    {| m_result := prop "draft" (r_result event);
       m_error := None; m_retries := None;
       m_metadata := Some (autofixMetadata task (r_result event)) |} in
  ∃ refreshed,
    getTask p n (updateStatus p n pending meta (tasks w)) = Some refreshed ∧
    type refreshed = type task ∧ nodeId refreshed = n ∧
    status refreshed = pending ∧
    exec (handleWorkerResult enqueueOptions event) w =
    {| tasks := updateStatus p n running noMeta
                  (updateStatus p n pending meta (tasks w));
       calls := calls w ++
         [ StatusWrite p n pending meta;
           QueueAdd
             {| j_queue := resolveQueue (type task);
                j_name := p +:+ ":" +:+ n;
                j_payload :=
                  (buildJobPayload p refreshed
                     {| tasks := updateStatus p n pending meta (tasks w);
                        calls := calls w ++ [StatusWrite p n pending meta] |}).1;
                j_options := mergeOptions enqueueOptions |};
           StatusWrite p n running noMeta ] |}.
Proof.
  intros p n meta.
  pose proof (getTask_updateStatus p n pending meta (tasks w)) as Hre.
  pose proof Htask as Hfind. unfold getTask in Hfind.
  fold p n in Hfind.
  destruct (List.find _ (tasks w)) as [r0|] eqn:Hf; [|done].
  simpl in Hfind. injection Hfind as <-.
  simpl in Hre. eexists. split; [exact Hre|].
  apply find_some in Hf as [_ Hk]. apply bool_decide_eq_true in Hk.
  split; [done|]. split; [by destruct Hk|]. split; [done|].
  unfold handleWorkerResult. rewrite Htype, Herror.
  unfold handleAutofixSuccess. rewrite exec_read_bind, Htask.
  rewrite exec_seq. unfold storeUpdateStatus at 1. rewrite exec_emit.
  rewrite exec_read_bind. simpl tasks. fold p n.
  subst meta. unfold autofixMetadata in *. simpl metadata in *.
  rewrite Hre.
  unfold enqueueTask. rewrite exec_bind, exec_seq.
  rewrite buildJobPayload_pure.
  unfold queueAdd, storeUpdateStatus. rewrite !exec_emit. simpl.
  destruct Hk as [_ Hn]. rewrite Hn. fold n.
  by rewrite <- !app_assoc.
Qed.

(** C4 (autofix success).  For an autofix result event without an error
    whose node id names a task, the dispatcher first writes the status
    pending together with the new metadata (the task's metadata with the
    patched draft merged in and the keys pendingPatches and violations
    removed), then adds the task to the queue of its kind under its own
    job name and marks it running; completed is never written.  For a
    verify task the queue is the verifier queue. *)
Theorem C4_autofix_success_requeues_for_verify
    (w : World) (event : WorkerResultEvent) (task : TaskRecord)
    (Htype : r_type event = Autofix)
    (Herror : truthy_str (r_error event) = false)
    (Htask : getTask (r_projectId event) (r_nodeId event) (tasks w)
             = Some task) :
  let p := r_projectId event in
  let n := r_nodeId event in
  let w' := exec (handleWorkerResult enqueueOptions event) w in
  let draft := prop "draft" (r_result event) ?? metadata task !! "draft" in
  ∃ meta job,
    calls w' = calls w ++
      [ StatusWrite p n pending meta; QueueAdd job;
        StatusWrite p n running noMeta ] ∧
    m_metadata meta =
      Some (delete "violations" (delete "pendingPatches"
              (<["draft" := draft]> (Some <$> metadata task)))) ∧
    jobs w' = jobs w ++ [job] ∧
    j_queue job = resolveQueue (type task) ∧
    (type task = Planner.verify → j_queue job = verifier) ∧
    j_name job = p +:+ ":" +:+ n ∧
    (∃ r', r' ∈ tasks w' ∧ has_key p n r') ∧
    (∀ r', r' ∈ tasks w' → has_key p n r' →
       status r' = running ∧
       metadata r' !! "draft" = draft ∧
       metadata r' !! "pendingPatches" = None ∧
       metadata r' !! "violations" = None ∧
       ∀ k, k ≠ "draft" → k ≠ "pendingPatches" → k ≠ "violations" →
            metadata r' !! k = metadata task !! k) ∧
    (∀ r, ¬ has_key p n r → (r ∈ tasks w' ↔ r ∈ tasks w)).
Proof.
  intros p n w' draft. subst w'.
  destruct (autofix_success_run w event task Htype Herror Htask)
    as (refreshed & Hre & Hty & Hn & Hst & ->).
  fold p n. eexists _, _. split; [reflexivity|]. simpl.
  split; [done|]. split.
  { unfold jobs. simpl. rewrite omap_app. simpl. done. }
  split; [done|]. split; [by intros ->|]. split; [done|].
  apply getTask_Some in Htask as (r0 & Hin0 & Hk0 & ->).
  split; [|split].
  - eexists. split; [|shelve].
    apply elem_of_updateStatus. eexists. split.
    + apply elem_of_updateStatus. exists r0. split; [done|].
      rewrite decide_True by done. reflexivity.
    + rewrite decide_True by done. reflexivity.
    Unshelve. done.
  - intros r' Hin Hk.
    apply updateStatus_hit in Hin as (r1 & Hin & Hk1 & ->); [|done].
    apply updateStatus_hit in Hin as (r & Hin & Hkr & ->); [|done].
    simpl. unfold autofixMetadata. split; [done|].
    split; [|split; [|split]].
    + rewrite !lookup_stringify_delete_ne by done.
      apply lookup_stringify_insert.
    + rewrite lookup_stringify_delete_ne by done.
      apply lookup_stringify_delete.
    + apply lookup_stringify_delete.
    + intros k Hd Hp Hv.
      rewrite !lookup_stringify_delete_ne by done.
      rewrite lookup_stringify_insert_ne by done.
      apply lookup_stringify_Some.
  - intros r Hk. by rewrite !updateStatus_miss.
Qed.

End VerifyProtocol.

Section TableSteps.
Import Store Dispatcher.
Variable enqueueOptions : option EnqueueOptions.

Lemma same_node_refl r : same_node r r.
Proof. by repeat split. Qed.

Lemma row_step_refl k r : row_step k r r.
Proof. split; [apply same_node_refl|]. auto. Qed.

Lemma row_step_trans k r1 r2 r3 :
  row_step k r1 r2 → row_step k r2 r3 → row_step k r1 r3.
Proof.
  intros [(Hp1 & Hn1 & Ht1 & Hd1 & He1) Hs1]
         [(Hp2 & Hn2 & Ht2 & Hd2 & He2) Hs2].
  split.
  - repeat split; congruence.
  - intros Hc. destruct (Hs2 Hc) as [H2| ->]; [auto|].
    right. unfold key_of. by rewrite Hp1, Hn1.
Qed.

Lemma table_step_refl k t : table_step k t t.
Proof. induction t; constructor; auto using row_step_refl. Qed.

Lemma table_step_trans k t1 t2 t3 :
  table_step k t1 t2 → table_step k t2 t3 → table_step k t1 t3.
Proof.
  intros H12. revert t3. induction H12; intros t3 H23;
    inversion H23; subst; constructor; eauto using row_step_trans.
  apply IHForall2. done.
Qed.

Lemma table_step_map k (f : TaskRecord → TaskRecord) t :
  (∀ r, row_step k r (f r)) → table_step k t (map f t).
Proof. intros Hf. induction t; simpl; constructor; auto. Qed.

Lemma table_step_updateStatus k p n s meta t :
  s ≠ completed ∨ k = Some (p, n) →
  table_step k t (updateStatus p n s meta t).
Proof.
  intros Hs. apply table_step_map. intros r.
  destruct (decide (has_key p n r)) as [[Hp Hn]|]; [|apply row_step_refl].
  split; [by repeat split|]. simpl. intros ->.
  destruct Hs as [?| ->]; [done|]. right. unfold key_of. by rewrite Hp, Hn.
Qed.

Lemma table_step_markBlocked k p ids t :
  table_step k t (markBlocked p ids t).
Proof.
  unfold markBlocked. destruct ids as [|i ids]; [apply table_step_refl|].
  apply table_step_map. intros r.
  destruct (decide _); [|apply row_step_refl].
  split; [by repeat split|]. done.
Qed.

Lemma steps_ret {A} k (a : A) : steps k (mret a : M A).
Proof. intros w. apply table_step_refl. Qed.

Lemma steps_bind {A B} k (m : M A) (f : A → M B) :
  steps k m → (∀ a, steps k (f a)) → steps k (m ≫= f).
Proof.
  intros Hm Hf w. rewrite exec_bind.
  eapply table_step_trans; [apply Hm|]. apply (Hf _ (m w).2).
Qed.

Lemma steps_read {A} k (f : table → A) : steps k (read f).
Proof. intros w. apply table_step_refl. Qed.

Lemma steps_storeUpdateStatus k p n s meta :
  s ≠ completed ∨ k = Some (p, n) → steps k (storeUpdateStatus p n s meta).
Proof. intros Hs w. by apply table_step_updateStatus. Qed.

Lemma steps_storeMarkBlocked k p ids : steps k (storeMarkBlocked p ids).
Proof.
  intros w. destruct ids; [apply table_step_refl|].
  apply table_step_markBlocked.
Qed.

Lemma steps_queueAdd k q name payload options :
  steps k (queueAdd q name payload options).
Proof. intros w. apply table_step_refl. Qed.

Lemma steps_buildJobPayload k p task : steps k (buildJobPayload p task).
Proof. intros w. apply table_step_refl. Qed.

Lemma steps_forEach {A} k (l : list A) (body : A → M unit) :
  (∀ x, steps k (body x)) → steps k (forEach l body).
Proof.
  intros Hb. induction l as [|x l IH]; simpl; [apply steps_ret|].
  apply steps_bind; auto.
Qed.

Lemma steps_enqueueTask k p task : steps k (enqueueTask enqueueOptions p task).
Proof.
  unfold enqueueTask. apply steps_bind; [apply steps_buildJobPayload|].
  intros payload. apply steps_bind; [apply steps_queueAdd|]. intros _.
  apply steps_storeUpdateStatus. by left.
Qed.

Lemma steps_enqueueReadyTasks k p : steps k (enqueueReadyTasks enqueueOptions p).
Proof.
  unfold enqueueReadyTasks. apply steps_bind; [apply steps_read|].
  intros rs. apply steps_forEach. intros x. apply steps_enqueueTask.
Qed.

Lemma steps_blockDependentsOnFailure k p n :
  steps k (blockDependentsOnFailure p n).
Proof.
  unfold blockDependentsOnFailure. apply steps_bind; [apply steps_read|].
  intros [record|]; [|apply steps_ret].
  destruct (dependents record); [apply steps_ret|].
  apply steps_storeMarkBlocked.
Qed.

Lemma steps_handleAutofixFailure k event :
  steps k (handleAutofixFailure event).
Proof.
  unfold handleAutofixFailure.
  apply steps_bind; [apply steps_storeUpdateStatus; by left|]. intros _.
  apply steps_blockDependentsOnFailure.
Qed.

Lemma steps_handleAutofixSuccess k event :
  steps k (handleAutofixSuccess enqueueOptions event).
Proof.
  unfold handleAutofixSuccess. apply steps_bind; [apply steps_read|].
  intros [task|]; [|apply steps_ret].
  apply steps_bind; [apply steps_storeUpdateStatus; by left|]. intros _.
  apply steps_bind; [apply steps_read|].
  intros [refreshed|]; [apply steps_enqueueTask|apply steps_ret].
Qed.

Lemma steps_handleVerifyResult event :
  steps (Some (r_projectId event, r_nodeId event))
        (handleVerifyResult enqueueOptions event).
Proof.
  unfold handleVerifyResult.
  repeat match goal with |- steps _ (if ?c then _ else _) => destruct c end.
  - apply steps_bind; [apply steps_storeUpdateStatus; by right|]. intros _.
    apply steps_enqueueReadyTasks.
  - apply steps_bind; [apply steps_storeUpdateStatus; by right|]. intros _.
    apply steps_enqueueReadyTasks.
  - apply steps_bind; [apply steps_storeUpdateStatus; by left|]. intros _.
    apply steps_blockDependentsOnFailure.
  - apply steps_bind; [apply steps_read|].
    intros [task|]; [|apply steps_ret].
    apply steps_bind; [apply steps_storeUpdateStatus; by left|]. intros _.
    apply steps_queueAdd.
  - apply steps_ret.
Qed.

Lemma steps_handleWorkerProgress event :
  steps (Some (p_projectId event, p_nodeId event))
        (handleWorkerProgress event).
Proof.
  unfold handleWorkerProgress.
  destruct (p_type event), (p_status event); try apply steps_ret.
  - apply steps_storeUpdateStatus. by left.
  - apply steps_bind; [apply steps_storeUpdateStatus; by left|]. intros _.
    apply steps_blockDependentsOnFailure.
  - apply steps_handleAutofixFailure.
Qed.

Lemma steps_handleWorkerResult event :
  steps (Some (r_projectId event, r_nodeId event))
        (handleWorkerResult enqueueOptions event).
Proof.
  unfold handleWorkerResult.
  destruct (r_type event).
  - destruct (truthy_str _).
    + apply steps_bind; [apply steps_storeUpdateStatus; by left|]. intros _.
      apply steps_blockDependentsOnFailure.
    + destruct (_ && _); [apply steps_handleVerifyResult|].
      apply steps_bind; [apply steps_storeUpdateStatus; by right|].
      intros _. apply steps_enqueueReadyTasks.
  - destruct (truthy_str _);
      [apply steps_handleAutofixFailure|apply steps_handleAutofixSuccess].
Qed.

(** Every delivery is a step on behalf of its target. *)
Lemma steps_deliver d : steps (target d) (deliver enqueueOptions d).
Proof.
  destruct d; simpl.
  - apply steps_handleWorkerProgress.
  - apply steps_handleWorkerResult.
  - apply steps_enqueueReadyTasks.
Qed.


Lemma table_step_elem_of_l k t t' r :
  table_step k t t' → r ∈ t → ∃ r', r' ∈ t' ∧ row_step k r r'.
Proof.
  intros H Hin. apply list_elem_of_lookup in Hin as [i Hi].
  destruct (Forall2_lookup_l _ _ _ _ _ H Hi) as (r' & Hr & Hstep).
  exists r'. split; [|done]. apply list_elem_of_lookup. eauto.
Qed.



End TableSteps.

Section FailurePropagation.
Import Store Dispatcher.
Variable enqueueOptions : option EnqueueOptions.


Lemma table_step_nodes_kept k t t' : table_step k t t' → nodes_kept t t'.
Proof. intros H. eapply Forall2_impl; [exact H|]. by intros r r' [? _]. Qed.




Lemma failure_tasks p n meta w :
  tasks (exec (storeUpdateStatus p n failed meta ;;
               blockDependentsOnFailure p n) w) =
  match getTask p n (tasks w) with
  | Some task =>
      markBlocked p (dependents task)
        (updateStatus p n failed meta (tasks w))
  | None => updateStatus p n failed meta (tasks w)
  end.
Proof.
  rewrite exec_seq. unfold storeUpdateStatus. rewrite exec_emit.
  unfold blockDependentsOnFailure. rewrite exec_read_bind. simpl tasks.
  rewrite getTask_updateStatus. unfold getTask.
  destruct (List.find _ (tasks w)) as [r0|]; simpl; [|done].
  destruct (dependents r0); done.
Qed.



End FailurePropagation.

Section Redelivery.
Import Store Dispatcher.
Variable enqueueOptions : option EnqueueOptions.

Lemma tasks_enqueueTask p task w :
  tasks (exec (enqueueTask enqueueOptions p task) w) =
  updateStatus p (nodeId task) running noMeta (tasks w).
Proof. done. Qed.

Lemma apply_update_running_twice r :
  apply_update running noMeta (apply_update running noMeta r) =
  apply_update running noMeta r.
Proof. done. Qed.

Lemma tasks_forEach_enqueueTask p rs w :
  tasks (exec (forEach rs (enqueueTask enqueueOptions p)) w) =
  map (mark_running p rs) (tasks w).
Proof.
  revert w. induction rs as [|r0 rs IH]; intros w.
  - simpl. rewrite exec_ret. unfold mark_running. simpl.
    rewrite <- (map_id (tasks w)) at 1. apply map_ext. intros r.
    destruct (decide _) as [[_ H]|]; [|done]. by apply elem_of_nil in H.
  - simpl forEach. rewrite exec_seq, IH, tasks_enqueueTask.
    unfold updateStatus. rewrite map_map. apply map_ext. intros r.
    unfold mark_running. simpl.
    destruct (decide (has_key p (nodeId r0) r)) as [[Hp Hn]|Hk].
    + rewrite (decide_True (P := _ ∧ _ ∈ nodeId r0 :: _)).
      2:{ split; [done|]. rewrite <- Hn. apply list_elem_of_here. }
      destruct (decide _); [|done]. apply apply_update_running_twice.
    + destruct (decide (projectId r = p ∧ nodeId r ∈ map nodeId rs))
        as [[Hp Hin]|Hno].
      * rewrite decide_True; [done|]. split; [done|].
        by apply list_elem_of_further.
      * rewrite decide_False; [done|]. intros [Hp Hin].
        apply elem_of_cons in Hin as [Heq|Hin]; [|by apply Hno].
        apply Hk. by split.
Qed.

Lemma tasks_enqueueReadyTasks p w :
  tasks (exec (enqueueReadyTasks enqueueOptions p) w) =
  map (mark_running p (listReadyTasks p (tasks w))) (tasks w).
Proof.
  unfold enqueueReadyTasks. rewrite exec_read_bind.
  apply tasks_forEach_enqueueTask.
Qed.

Lemma elem_of_ready_ids p t x :
  x ∈ map nodeId (listReadyTasks p t) ↔
  ∃ ts, ts ∈ list_ready_tasks p t ∧ nodeId ts = x.
Proof.
  unfold listReadyTasks. rewrite map_map. simpl.
  change (map (fun r => nodeId r)) with (fmap (M := list) nodeId).
  rewrite list_elem_of_fmap. split.
  - intros (ts & -> & Hin). eauto.
  - intros (ts & Hin & <-). eauto.
Qed.

Lemma mark_running_status p rs r :
  status (mark_running p rs r) = completed → status r = completed.
Proof. unfold mark_running. by destruct (decide _). Qed.

Lemma mark_running_has_key p rs q x r :
  has_key q x (mark_running p rs r) ↔ has_key q x r.
Proof. unfold mark_running. by destruct (decide _). Qed.

(** Once the ready tasks have been enqueued no task is ready: resuming
    or re-evaluating readiness right away adds nothing. *)
Lemma nothing_ready_after_enqueue p w :
  listReadyTasks p (tasks (exec (enqueueReadyTasks enqueueOptions p) w)) = [].
Proof.
  rewrite tasks_enqueueReadyTasks.
  set (rs := listReadyTasks p (tasks w)).
  unfold listReadyTasks at 1.
  destruct (list_ready_tasks p (map (mark_running p rs) (tasks w)))
    as [|r' l] eqn:Hl; [done|]. exfalso.
  assert (r' ∈ list_ready_tasks p (map (mark_running p rs) (tasks w)))
    as Hin by (rewrite Hl; apply list_elem_of_here).
  apply list_ready_tasks_spec in Hin as (Hin & Hp & Hs & Hdeps).
  apply list_elem_of_fmap in Hin as (r & -> & Hin).
  unfold mark_running in Hp, Hs, Hdeps.
  destruct (decide (projectId r = p ∧ nodeId r ∈ map nodeId rs))
    as [|Hno]; [done|].
  destruct (is_ready p (tasks w) r) eqn:Hready.
  - apply Hno. split; [done|]. apply elem_of_ready_ids. exists r.
    split; [|done]. unfold list_ready_tasks.
    apply list_elem_of_In, filter_In. split; [by apply list_elem_of_In|done].
  - unfold is_ready in Hready.
    rewrite (bool_decide_eq_true_2 _ Hp), (bool_decide_eq_true_2 _ Hs) in Hready.
    simpl in Hready. apply negb_false_iff, existsb_exists in Hready
      as (dep & Hdep & Hun).
    apply list_elem_of_In in Hdep.
    apply unfinished_dependency_spec in Hun as (rd & Hind & Hkd & Hsd).
    rewrite Hp in Hkd.
    apply Hsd, (mark_running_status p rs).
    apply (Hdeps dep Hdep).
    + apply list_elem_of_fmap. eauto.
    + by apply mark_running_has_key.
Qed.

Lemma apply_update_twice s meta r :
  apply_update s meta (apply_update s meta r) = apply_update s meta r.
Proof.
  destruct meta as [mr me mt mm]. unfold apply_update. simpl.
  f_equal; first [by destruct mm|by destruct mr|by destruct me|by destruct mt].
Qed.

Lemma mark_running_miss p rs r :
  nodeId r ∉ map nodeId rs → mark_running p rs r = r.
Proof.
  intros Hn. unfold mark_running. rewrite decide_False; [done|].
  by intros [_ H].
Qed.

Lemma updateStatus_mark_running_again p n s meta rs t :
  n ∉ map nodeId rs →
  updateStatus p n s meta (map (mark_running p rs) (updateStatus p n s meta t))
  = map (mark_running p rs) (updateStatus p n s meta t).
Proof.
  intros Hn. unfold updateStatus. rewrite !map_map.
  apply map_ext. intros r.
  destruct (decide (has_key p n r)) as [Hk|Hk].
  - rewrite mark_running_miss; [|simpl; by rewrite (proj2 Hk)].
    rewrite decide_True by done. apply apply_update_twice.
  - rewrite decide_False; [done|]. by rewrite mark_running_has_key.
Qed.

(** Writing completed again after the enqueue round changes no row: the
    completed node was not among the enqueued ones. *)
Lemma updateStatus_completed_again p n meta t :
  let t1 := updateStatus p n completed meta t in
  updateStatus p n completed meta
    (map (mark_running p (listReadyTasks p t1)) t1) =
  map (mark_running p (listReadyTasks p t1)) t1.
Proof.
  intros t1.
  assert (n ∉ map nodeId (listReadyTasks p t1)) as Hn.
  { intros Hin. apply elem_of_ready_ids in Hin as (ts & Hts & Hid).
    apply list_ready_tasks_spec in Hts as (Hin & Hp & Hs & _).
    apply updateStatus_hit in Hin as (r & _ & _ & ->); [|by split].
    done. }
  by apply updateStatus_mark_running_again.
Qed.

Lemma completed_run (w : World) (event : WorkerResultEvent)
    (t : Planner.TaskType)
    (Htype : r_type event = Node t)
    (Hkind : t ≠ Planner.verify ∨
             truthy (prop "status" (r_result event)) = false)
    (Herror : truthy_str (r_error event) = false) :
  exec (handleWorkerResult enqueueOptions event) w =
  exec (storeUpdateStatus (r_projectId event) (r_nodeId event) completed
          {| m_result := r_result event; m_error := None;
             m_retries := None; m_metadata := None |} ;;
        enqueueReadyTasks enqueueOptions (r_projectId event)) w.
Proof.
  unfold handleWorkerResult. rewrite Htype, Herror.
  destruct Hkind as [Hk|Hs].
  - by rewrite (bool_decide_eq_false_2 _ Hk).
  - by rewrite Hs, andb_false_r.
Qed.

Lemma jobs_status_write w p n s meta :
  jobs {| tasks := tasks w; calls := calls w ++ [StatusWrite p n s meta] |}
  = jobs w.
Proof. unfold jobs. simpl. rewrite omap_app. simpl. apply app_nil_r. Qed.

(** C9 (idempotent result delivery).  Take a result event that marks
    its node completed: an event of a task kind without an error, not of
    a verify task (or of one, without a status to classify).  Delivering
    it a second time right after the first leaves the table as the first
    delivery left it (the node completed, with the result of the event
    attached) and adds no job: nothing is enqueued twice. *)
Theorem C9_completed_result_twice_is_once
    (w : World) (event : WorkerResultEvent) (t : Planner.TaskType)
    (Htype : r_type event = Node t)
    (Hkind : t ≠ Planner.verify ∨
             truthy (prop "status" (r_result event)) = false)
    (Herror : truthy_str (r_error event) = false) :
  let once := exec (handleWorkerResult enqueueOptions event) w in
  let twice := exec (handleWorkerResult enqueueOptions event) once in
  tasks twice = tasks once ∧
  jobs twice = jobs once ∧
  (∀ r, r ∈ tasks once → has_key (r_projectId event) (r_nodeId event) r →
        status r = completed ∧
        ∀ v, r_result event = Some v → result r = Some v).
Proof.
  intros once twice. subst twice once.
  rewrite !(completed_run _ event t Htype Hkind Herror).
  set (p := r_projectId event). set (n := r_nodeId event).
  set (meta := {| m_result := r_result event; m_error := None;
                  m_retries := None; m_metadata := None |}).
  set (once := exec (storeUpdateStatus p n completed meta ;;
                     enqueueReadyTasks enqueueOptions p) w).
  assert (tasks once =
          map (mark_running p
                 (listReadyTasks p (updateStatus p n completed meta (tasks w))))
              (updateStatus p n completed meta (tasks w))) as Honce.
  { subst once. rewrite exec_seq. unfold storeUpdateStatus.
    rewrite exec_emit. by rewrite tasks_enqueueReadyTasks. }
  assert (listReadyTasks p (tasks once) = []) as Hnone.
  { subst once. rewrite exec_seq. apply nothing_ready_after_enqueue. }
  assert (exec (storeUpdateStatus p n completed meta ;;
                enqueueReadyTasks enqueueOptions p) once =
          {| tasks := tasks once;
             calls := calls once ++ [StatusWrite p n completed meta] |})
    as ->.
  { rewrite exec_seq. unfold storeUpdateStatus. rewrite exec_emit.
    unfold enqueueReadyTasks. rewrite exec_read_bind. simpl tasks.
    rewrite Honce at 1 2. rewrite updateStatus_completed_again.
    rewrite <- Honce, Hnone. simpl. by rewrite exec_ret. }
  split; [done|]. split; [apply jobs_status_write|].
  intros r Hin Hk. rewrite Honce in Hin.
  apply list_elem_of_fmap in Hin as (r1 & -> & Hin).
  apply mark_running_has_key in Hk.
  apply updateStatus_hit in Hin as (r0 & _ & Hk0 & ->); [|done].
  unfold mark_running. rewrite decide_False.
  - simpl. split; [done|]. by intros v ->.
  - intros [_ Hid]. apply elem_of_ready_ids in Hid as (ts & Hts & Hid).
    apply list_ready_tasks_spec in Hts as (Hin & Hp & Hs & _).
    simpl in Hid. rewrite (proj2 Hk0) in Hid.
    apply updateStatus_hit in Hin as (r & _ & _ & ->); [|by split]. done.
Qed.

End Redelivery.

(* ===================================================================== *)
(** * The checks are sound *)
(* ===================================================================== *)

Section Checks.
Import Store.

Lemma dependencies_persisted_check_sound t p :
  dependencies_persisted_check t p = true → dependencies_persisted t p.
Proof.
  unfold dependencies_persisted_check. rewrite forallb_forall.
  intros H r dep Hin Hp Hdep.
  apply list_elem_of_In, H in Hin.
  rewrite (bool_decide_eq_true_2 _ Hp) in Hin. simpl in Hin.
  rewrite forallb_forall in Hin.
  apply list_elem_of_In, Hin, existsb_exists in Hdep as (r' & Hin' & Hk).
  exists r'. split; [by apply list_elem_of_In|].
  by apply bool_decide_eq_true in Hk.
Qed.




Lemma NoDup_distinct_chapters flattened :
  NoDup (map cid flattened) → distinct_chapters flattened.
Proof.
  induction flattened as [|a l IH]; simpl; intros Hnd e e' He He' Hc.
  - by apply elem_of_nil in He.
  - apply NoDup_cons in Hnd as [Ha Hnd].
    apply elem_of_cons in He as [->|He], He' as [->|He']; try done.
    + exfalso. apply Ha. rewrite Hc. by apply (list_elem_of_fmap_2 cid).
    + exfalso. apply Ha. rewrite <- Hc. by apply (list_elem_of_fmap_2 cid).
    + by apply IH.
Qed.

End Checks.

(* ===================================================================== *)
(** * Referential integrity of scheduled projects *)
(* ===================================================================== *)

Section Integrity.
Import Store Dispatcher.
Variable enqueueOptions : option EnqueueOptions.

Lemma keys_kept_refl t : keys_kept t t.
Proof. induction t; constructor; auto. Qed.

Lemma keys_kept_trans t1 t2 t3 :
  keys_kept t1 t2 → keys_kept t2 t3 → keys_kept t1 t3.
Proof.
  intros H12. revert t3. induction H12 as [|r1 r2 t1 t2 Hr H12 IH];
    intros t3 H23; inversion H23 as [|? r3 ? t3' Hr' H23']; subst;
    constructor; [|by apply IH].
  destruct Hr as (?&?&?), Hr' as (?&?&?). repeat split; congruence.
Qed.

Lemma nodes_kept_keys_kept t t' : nodes_kept t t' → keys_kept t t'.
Proof.
  intros H. eapply Forall2_impl; [exact H|].
  intros r r' (?&?&?&?&?). by repeat split.
Qed.

Lemma keys_kept_map (f : TaskRecord → TaskRecord) t :
  (∀ r, projectId (f r) = projectId r ∧ nodeId (f r) = nodeId r ∧
        dependencies (f r) = dependencies r) →
  keys_kept t (map f t).
Proof. intros Hf. induction t; simpl; constructor; auto. Qed.

Lemma dependencies_persisted_kept t t' p :
  keys_kept t t' → dependencies_persisted t p → dependencies_persisted t' p.
Proof.
  intros Hk Hrefs r' dep Hin' Hp Hdep.
  apply list_elem_of_lookup in Hin' as [i Hi].
  destruct (Forall2_lookup_r _ _ _ _ _ Hk Hi) as (r & Hr & Hp' & Hn' & Hd').
  destruct (Hrefs r dep) as (rd & Hind & Hkd).
  - apply list_elem_of_lookup. eauto.
  - congruence.
  - by rewrite <- Hd'.
  - apply list_elem_of_lookup in Hind as [j Hj].
    destruct (Forall2_lookup_l _ _ _ _ _ Hk Hj) as (rd' & Hrd' & Hq & Hm & _).
    exists rd'. split; [apply list_elem_of_lookup; eauto|].
    destruct Hkd. split; congruence.
Qed.

Lemma addDependent_keys_kept p fromNode toNode t :
  keys_kept t (addDependent p fromNode toNode t).
Proof.
  unfold addDependent. destruct (decide _); [apply keys_kept_refl|].
  apply keys_kept_map. intros r. by destruct (decide _).
Qed.

Lemma persistDag_keys_kept p dag t t' :
  persistDag p dag t = Some t' →
  keys_kept (t ++ map (new_row p) (Planner.nodes dag)) t'.
Proof.
  unfold persistDag. destruct (decide _); [|done]. intros [= <-].
  generalize (t ++ map (new_row p) (Planner.nodes dag)).
  induction (Planner.edges dag) as [|e es IH]; intros t0; simpl.
  - apply keys_kept_refl.
  - eapply keys_kept_trans; [apply addDependent_keys_kept|apply IH].
Qed.

(** The nodes of a planner DAG depend on nodes of the DAG. *)
Lemma buildDag_dependencies_closed context n i :
  n ∈ Planner.nodes (Planner.buildDag context) →
  i ∈ Planner.dependencies n →
  i ∈ map Planner.id (Planner.nodes (Planner.buildDag context)).
Proof.
  intros Hin Hi.
  assert (∀ n0, n0 ∈ chapterNodes context →
                Planner.id n0
                ∈ map Planner.id (Planner.nodes (Planner.buildDag context)))
    as Hch.
  { intros n0 H0. apply (list_elem_of_fmap_2 Planner.id).
    by apply chapterNodes_in_dag. }
  apply buildDag_nodes_origin in Hin as [Hin| ->].
  - apply chapterNodes_origin in Hin as (e & He & Hn).
    pose proof (entryNodes_dependencies _ _ _ _ _ _ Hn Hi) as Hi'.
    apply list_elem_of_fmap in Hi' as (n0 & -> & Hn0).
    destruct (chapterNodes_id_present context e n0 He Hn0)
      as (n1 & Hin1 & <-).
    by apply Hch.
  - simpl in Hi. apply list_elem_of_fmap in Hi as (n0 & -> & Hn0).
    apply list_elem_of_filter in Hn0 as [_ Hn0]. by apply Hch.
Qed.

(** schedule of a planner DAG leaves the project with every dependency
    id naming one of its rows, *)
Lemma schedule_dependencies_persisted p context w w' :
  schedule enqueueOptions p (Planner.buildDag context) true w = Some w' →
  dependencies_persisted (tasks w') p.
Proof.
  unfold schedule.
  destruct (persistDag p _ _) as [t1|] eqn:Hpersist; [|done].
  simpl. intros [= <-].
  eapply dependencies_persisted_kept.
  { eapply nodes_kept_keys_kept, table_step_nodes_kept.
    apply (steps_enqueueReadyTasks enqueueOptions None p). }
  simpl. eapply dependencies_persisted_kept;
    [by apply persistDag_keys_kept|].
  intros r dep Hin Hp Hdep. apply elem_of_app in Hin as [Hin|Hin].
  { unfold clearProject in Hin.
    apply list_elem_of_In, filter_In in Hin as [_ Hne].
    apply negb_true_iff, bool_decide_eq_false in Hne. done. }
  apply list_elem_of_fmap in Hin as (n & -> & Hn). simpl in Hdep.
  apply (buildDag_dependencies_closed context n dep Hn) in Hdep.
  apply list_elem_of_fmap in Hdep as (n' & -> & Hn').
  exists (new_row p n'). split; [|done].
  apply elem_of_app. right. by apply (list_elem_of_fmap_2 (new_row p)).
Qed.

(** and every delivery keeps it so. *)
Lemma deliver_dependencies_persisted p d w :
  dependencies_persisted (tasks w) p →
  dependencies_persisted (tasks (exec (deliver enqueueOptions d) w)) p.
Proof.
  apply dependencies_persisted_kept.
  eapply nodes_kept_keys_kept, table_step_nodes_kept.
  apply steps_deliver.
Qed.

End Integrity.

(* ===================================================================== *)
(** * The statements at work on concrete inputs *)
(* ===================================================================== *)

Module PlannerExamples.
Import Planner.

Lemma mixed_outline_flattened assets :
  flattenOutline (outline (mixedContext assets)) =
  [generatedEntry; fixedEntry].
Proof. reflexivity. Qed.

Lemma mixed_outline_distinct assets :
  distinct_chapters (flattenOutline (outline (mixedContext assets))).
Proof.
  apply NoDup_distinct_chapters. rewrite mixed_outline_flattened.
  apply (bool_decide_unpack _). by vm_compute.
Qed.


(** Without a ready asset the one-chapter DAG has no retrieve node; with
    one, chapter "1" of the two-chapter outline has its retrieve node. *)
Lemma C6_witness :
  (∀ n, n ∈ nodes (buildDag (mixedContext [])) → type n ≠ retrieve) ∧
  (∃ pn rn wn,
     pn ∈ nodes (buildDag (mixedContext [readyAsset])) ∧
     rn ∈ nodes (buildDag (mixedContext [readyAsset])) ∧
     wn ∈ nodes (buildDag (mixedContext [readyAsset])) ∧
     type pn = prepare ∧ id pn = "prepare:1" ∧
     type rn = retrieve ∧ id rn = "retrieve:1" ∧
     dependencies rn = [id pn] ∧
     type wn = write ∧ id wn = "write:1" ∧ dependencies wn = [id rn]).
Proof.
  split.
  - apply (C6_retrieve_nodes_follow_asset_readiness (mixedContext [])).
    intros a Ha. by apply elem_of_nil in Ha.
  - destruct (proj2 (C6_retrieve_nodes_follow_asset_readiness
                       (mixedContext [readyAsset]))) as [Hall _].
    + exists readyAsset. split; [apply list_elem_of_here|by right].
    + apply (Hall generatedEntry); [|reflexivity].
      rewrite mixed_outline_flattened. apply list_elem_of_here.
Defined.

(** The two-chapter outline gets its sink behind the chapter nodes. *)
Lemma C7_witness :
  nodes (buildDag (mixedContext [])) =
    chapterNodes (mixedContext []) ++
    [finalAssembleNode
       (filter (fun n => type n = assemble) (chapterNodes (mixedContext [])))] ∧
  dependencies
    (finalAssembleNode
       (filter (fun n => type n = assemble) (chapterNodes (mixedContext []))))
  = map id (filter (fun n => type n = assemble)
                   (chapterNodes (mixedContext []))).
Proof.
  destruct (C7_document_sink_collects_chapter_assembles (mixedContext []))
    as (Hnodes & _ & _ & _ & Hdeps & _).
  - discriminate.
  - intros e He. rewrite mixed_outline_flattened in He.
    apply elem_of_cons in He as [->|He]; [by vm_compute|].
    apply list_elem_of_singleton in He as ->. by vm_compute.
  - split; [exact Hnodes|exact Hdeps].
Defined.

(** An outline without entries gets no sink at all. *)
Lemma C7_counterexample : ¬ has_document_sink (plainContext [] []).
Proof.
  intros (n & Hin & _). vm_compute in Hin. by apply elem_of_nil in Hin.
Qed.

(** The entry without a title is planned like any other. *)
Lemma C5_witness :
  ∃ first last,
    first ∈ nodes (buildDag (plainContext [untitledChapter "1"] [])) ∧
    last ∈ nodes (buildDag (plainContext [untitledChapter "1"] [])) ∧
    type first = prepare ∧ id first = "prepare:1" ∧
    type last = assemble ∧ id last = "assemble:1".
Proof.
  apply (C5_no_outline_entry_is_skipped
           (plainContext [untitledChapter "1"] []) untitledEntry).
  apply list_elem_of_here.
Defined.

(** The DAG of an outline whose only entry has no title holds task
    nodes for that entry. *)
Lemma C5_counterexample :
  ¬ skips_malformed_entries (plainContext [untitledChapter "1"] []).
Proof.
  intros H.
  destruct (H (prepareNode (plainContext [untitledChapter "1"] [])
                           false false untitledEntry))
    as [Hid|(e & He & [_ [x Hx]] & _)].
  - apply list_elem_of_here.
  - discriminate.
  - apply list_elem_of_singleton in He as ->. discriminate.
Qed.

(** Why the hypotheses of C7 and C8 are there: a chapter numbered
    "document" takes the id of the sink, which is then not added, and a
    chapter number used twice merges the nodes of two entries. *)
Example chapter_numbered_document :
  map (fun n => (id n, dependencies n))
      (nodes (buildDag (plainContext [generatedChapter "document" None] [])))
  = [ ("prepare:document", []); ("write:document", ["prepare:document"]);
      ("verify:document", ["write:document"]);
      ("assemble:document", ["verify:document"]) ].
Proof. reflexivity. Qed.

Example chapter_number_used_twice :
  map id (nodes (buildDag (plainContext
            [fixedChapter "1" "verbatim text"; generatedChapter "1" None] [])))
  = [ "materialize:1"; "assemble:1"; "prepare:1"; "write:1"; "verify:1";
      "assemble:document" ].
Proof. reflexivity. Qed.

End PlannerExamples.

Module DispatcherExamples.
Import Store Dispatcher.

Lemma demoPersisted_refs : dependencies_persisted demoPersisted "demo".
Proof. apply dependencies_persisted_check_sound. by vm_compute. Qed.

(** On the freshly persisted one-chapter DAG the ready records are the
    records of the pending rows whose dependencies are all completed. *)
Lemma C2_witness :
  dependencies_persisted demoPersisted "demo" ∧
  ∀ x, x ∈ listReadyTasks "demo" demoPersisted ↔
       ∃ ts, x = ready_record ts ∧ ts ∈ demoPersisted ∧
             projectId ts = "demo" ∧ status ts = pending ∧
             ∀ dep, dep ∈ dependencies ts →
                    has_status demoPersisted "demo" dep completed.
Proof.
  split; [exact demoPersisted_refs|].
  exact (C2_listReadyTasks_exactly_ready "demo" demoPersisted
           demoPersisted_refs).
Defined.

(** What the procedure does with a dependency id that names no row: the
    join drops it, and the task is ready. *)
Example dependency_without_row_is_ignored :
  map nodeId
    (listReadyTasks "demo"
       [ {| projectId := "demo"; nodeId := "write:1"; type := Planner.write;
            status := pending; dependencies := ["prepare:1"];
            dependents := []; metadata := ∅; result := None; error := None;
            retries := 0 |} ])
  = ["write:1"].
Proof. reflexivity. Qed.







(** The soft fail of verify:1 blocks it and asks for one autofix job. *)
Lemma C3_witness :
  (∀ r', r' ∈ tasks (exec (handleWorkerResult None (verifyResult "soft_fail"))
                          demoVerifying) →
         has_key "demo" "verify:1" r' →
         status r' = blocked ∧
         metadata r' !! "draft" = Some (JStr "draft one") ∧
         metadata r' !! "pendingPatches" = Some (JArr [JStr "extend section"]) ∧
         metadata r' !! "violations" = Some (JArr [JStr "too short"])) ∧
  jobs (exec (handleWorkerResult None (verifyResult "soft_fail"))
             demoVerifying) =
  jobs demoVerifying ++
    [ {| j_queue := autofixer;
         j_name := "demo:verify:1:autofix";
         j_payload :=
           [ ("projectId", Some (JStr "demo"));
             ("nodeId", Some (JStr "verify:1"));
             ("draft", Some (JStr "draft one"));
             ("patches", Some (JArr [JStr "extend section"])) ];
         j_options := defaultEnqueueOptions |} ].
Proof.
  destruct (getTask "demo" "verify:1" (tasks demoVerifying)) as [task|]
    eqn:Htask; [|by vm_compute in Htask].
  destruct (C3_soft_fail_blocks_and_asks_autofix None demoVerifying
              (verifyResult "soft_fail") task eq_refl eq_refl eq_refl Htask)
    as (_ & Hrows & _ & Hjobs).
  split; [|exact Hjobs].
  intros r' Hin Hk. destruct (Hrows r' Hin Hk) as (Hs & Hd & Hp & Hv & _).
  by repeat split.
Defined.

(** A soft fail for a task the store does not hold does nothing. *)
Lemma C3_counterexample :
  r_type strayVerifyResult = Node Planner.verify ∧
  truthy_str (r_error strayVerifyResult) = false ∧
  prop "status" (r_result strayVerifyResult) = Some (JStr "soft_fail") ∧
  exec (handleWorkerResult None strayVerifyResult) demoVerifying
    = demoVerifying ∧
  ¬ asks_one_autofix None demoVerifying strayVerifyResult.
Proof.
  assert (exec (handleWorkerResult None strayVerifyResult) demoVerifying
          = demoVerifying) as Hsame.
  { rewrite (soft_fail_run None demoVerifying strayVerifyResult
               eq_refl eq_refl eq_refl).
    assert (getTask (r_projectId strayVerifyResult)
              (r_nodeId strayVerifyResult) (tasks demoVerifying) = None)
      as -> by by vm_compute.
    done. }
  repeat (split; [done|]).
  intros (j & Hj & _). rewrite Hsame in Hj.
  apply (f_equal length) in Hj. rewrite length_app in Hj.
  change (length [j]) with 1%nat in Hj. lia.
Qed.

(** The autofix result puts verify:1 back on the verifier queue with the
    patched draft in its metadata. *)
Lemma C4_witness :
  ∃ meta job,
    calls (exec (handleWorkerResult None autofixDone) demoRepairing) =
      calls demoRepairing ++
      [ StatusWrite "demo" "verify:1" pending meta; QueueAdd job;
        StatusWrite "demo" "verify:1" running noMeta ] ∧
    j_queue job = verifier ∧ j_name job = "demo:verify:1" ∧
    ∀ r', r' ∈ tasks (exec (handleWorkerResult None autofixDone)
                           demoRepairing) →
          has_key "demo" "verify:1" r' →
          status r' = running ∧
          metadata r' !! "draft" = Some (JStr "draft two") ∧
          metadata r' !! "pendingPatches" = None ∧
          metadata r' !! "violations" = None.
Proof.
  assert (∃ task, getTask "demo" "verify:1" (tasks demoRepairing) = Some task
                  ∧ type task = Planner.verify) as (task & Htask & Hty).
  { eexists. split; by vm_compute. }
  destruct (C4_autofix_success_requeues_for_verify None demoRepairing
              autofixDone task eq_refl eq_refl Htask)
    as (meta & job & Hcalls & _ & _ & _ & Hq & Hn & _ & Hrows & _).
  exists meta, job. split; [exact Hcalls|].
  split.
  { by apply Hq. }
  split; [exact Hn|].
  intros r' Hin Hk. destruct (Hrows r' Hin Hk) as (Hs & Hd & Hp & Hv & _).
  by repeat split.
Defined.

(** prepare:1 completes: a second delivery of the result changes
    neither the table nor the jobs. *)
Lemma C9_witness :
  tasks (exec (handleWorkerResult None prepareDone)
           (exec (handleWorkerResult None prepareDone) demoScheduled))
    = tasks (exec (handleWorkerResult None prepareDone) demoScheduled) ∧
  jobs (exec (handleWorkerResult None prepareDone)
          (exec (handleWorkerResult None prepareDone) demoScheduled))
    = jobs (exec (handleWorkerResult None prepareDone) demoScheduled).
Proof.
  destruct (C9_completed_result_twice_is_once None demoScheduled prepareDone
              Planner.prepare eq_refl) as (Ht & Hj & _).
  - left. discriminate.
  - reflexivity.
  - split; [exact Ht|exact Hj].
Defined.

(** The result events of the autofix queue are not of that kind: each
    delivery puts the verify task on the verifier queue again. *)
Example autofix_result_twice_enqueues_twice :
  jobNames (exec (deliverAll None [Result autofixDone; Result autofixDone])
                 demoRepairing)
  = jobNames demoRepairing ++
    [ (verifier, "demo:verify:1"); (verifier, "demo:verify:1") ].
Proof. by vm_compute. Qed.

(** A verify result with the status "needs_review" leaves everything as
    it was. *)
Lemma C10_witness :
  handleWorkerResult None (verifyResult "needs_review") demoVerifying
    = (tt, demoVerifying).
Proof.
  apply (C10_unknown_verify_status_changes_nothing None demoVerifying
           (verifyResult "needs_review")); by vm_compute.
Defined.

End DispatcherExamples.
(* ===================================================================== *)
(** * Further properties of the planner *)
(* ===================================================================== *)

Section PlannerOrder.
Import Planner.

Lemma topological_nil : topological [].
Proof. intros i n d Hi. by rewrite lookup_nil in Hi. Qed.

Lemma topological_addNodeL acc n :
  topological acc → (∀ d, d ∈ dependencies n → d ∈ map id acc) →
  topological (addNodeL acc n).
Proof.
  intros Ht Hd. unfold addNodeL. destruct (decide _); [done|].
  intros i m d Hi Hm.
  destruct (decide (i < length acc)) as [Hlt|Hge].
  - rewrite lookup_app_l in Hi by done. rewrite take_app_le by lia. eauto.
  - rewrite lookup_app_r in Hi by lia.
    destruct (i - length acc) as [|k] eqn:E; simpl in Hi; [|done].
    injection Hi as <-.
    assert (i = length acc) as -> by lia.
    rewrite take_app_length. by apply Hd.
Qed.

Lemma topological_foldl L : ∀ acc,
  topological acc →
  (∀ i n d, L !! i = Some n → d ∈ dependencies n →
            d ∈ map id acc ∨ d ∈ map id (take i L)) →
  topological (foldl addNodeL acc L).
Proof.
  induction L as [|n L IH]; intros acc Ht HL; simpl; [done|].
  apply IH.
  - apply topological_addNodeL; [done|]. intros d Hd.
    destruct (HL 0 n d eq_refl Hd) as [H|H]; [done|].
    by apply elem_of_nil in H.
  - intros i m d Hi Hd.
    destruct (HL (S i) m d Hi Hd) as [H|H].
    + left. apply addNodeL_ids. by left.
    + simpl in H. apply elem_of_cons in H as [->|H]; [|by right].
      left. apply addNodeL_ids. by right.
Qed.

Lemma entryNodes_topological context emb tab e i n d :
  entryNodes context emb tab e !! i = Some n → d ∈ dependencies n →
  d ∈ map id (take i (entryNodes context emb tab e)).
Proof.
  unfold entryNodes, lastDependency, shouldCreateRetrieve.
  destruct (is_fixed e), emb, tab; simpl;
    do 6 (try destruct i as [|i]); simpl; intros [= <-]; simpl; intros Hd;
    first [by apply elem_of_nil in Hd
          |apply list_elem_of_singleton in Hd as ->;
           solve [repeat first [apply list_elem_of_here
                               |apply list_elem_of_further]]].
Qed.

Lemma offered_topological context flattened i n d :
  offered context flattened !! i = Some n → d ∈ dependencies n →
  d ∈ map id (take i (offered context flattened)).
Proof.
  unfold offered. revert i.
  induction flattened as [|e l IH]; intros i; simpl.
  { by rewrite lookup_nil. }
  set (E := entryNodes context (hasEmbed context) (hasTable context) e).
  intros Hi Hd.
  destruct (decide (i < length E)) as [Hlt|Hge].
  - rewrite lookup_app_l in Hi by done. rewrite take_app_le by lia.
    by eapply entryNodes_topological.
  - rewrite lookup_app_r in Hi by lia. rewrite take_app_ge by lia.
    rewrite map_app. apply elem_of_app. right. by apply IH.
Qed.

Lemma buildDag_topological context :
  topological (nodes (buildDag context)).
Proof.
  assert (topological (chapterNodes context)) as Hch.
  { rewrite chapterNodes_eq. apply topological_foldl; [apply topological_nil|].
    intros i n d Hi Hd. right. by eapply offered_topological. }
  rewrite buildDag_nodes. simpl. destruct (0 <? _)%nat; [|done].
  apply topological_addNodeL; [done|]. simpl. intros d Hd.
  apply list_elem_of_fmap in Hd as (n0 & -> & Hn0).
  apply list_elem_of_filter in Hn0 as [_ Hn0].
  by apply (list_elem_of_fmap_2 id).
Qed.

Lemma topological_earlier ns i n d :
  topological ns → ns !! i = Some n → d ∈ dependencies n →
  ∃ j m, j < i ∧ ns !! j = Some m ∧ id m = d.
Proof.
  intros Ht Hi Hd. specialize (Ht i n d Hi Hd).
  apply list_elem_of_fmap in Ht as (m & -> & Hm).
  apply list_elem_of_lookup in Hm as (j & Hj).
  apply lookup_take_Some in Hj as [Hj Hlt]. by exists j, m.
Qed.

Lemma NoDup_ids_lookup_inj (ns : list TaskNode) : ∀ i j n m,
  NoDup (map id ns) → ns !! i = Some n → ns !! j = Some m →
  id n = id m → i = j.
Proof.
  induction ns as [|x ns IH]; intros i j n m Hnd Hi Hj Hid; [done|].
  simpl in Hnd. apply NoDup_cons in Hnd as [Hx Hnd].
  destruct i as [|i], j as [|j]; simpl in *; simplify_eq; try done.
  - exfalso. apply Hx. rewrite Hid. apply (list_elem_of_fmap_2 id).
    by eapply list_elem_of_lookup_2.
  - exfalso. apply Hx. rewrite <- Hid. apply (list_elem_of_fmap_2 id).
    by eapply list_elem_of_lookup_2.
  - f_equal. by eapply IH.
Qed.

Lemma depends_on_chain_earlier ns a b :
  topological ns → NoDup (map id ns) →
  tc (depends_on ns) a b →
  ∀ i n, ns !! i = Some n → id n = a →
         ∃ j m, j < i ∧ ns !! j = Some m ∧ id m = b.
Proof.
  intros Ht Hnd Hab.
  assert (∀ a b, depends_on ns a b →
            ∀ i n, ns !! i = Some n → id n = a →
                   ∃ j m, j < i ∧ ns !! j = Some m ∧ id m = b) as Hone.
  { intros a0 b0 (n0 & Hn0 & Hid0 & Hd0) i n Hi Hid.
    apply list_elem_of_lookup in Hn0 as (i0 & Hi0).
    assert (i0 = i) as -> by (eapply NoDup_ids_lookup_inj; eauto; congruence).
    exact (topological_earlier _ _ _ _ Ht Hi0 Hd0). }
  induction Hab as [a b Hab|a c b Hac Hcb IH]; intros i n Hi Hid.
  - by eapply Hone.
  - destruct (Hone _ _ Hac i n Hi Hid) as (j & m & Hlt & Hj & Hm).
    destruct (IH j m Hj Hm) as (k & m' & Hlt' & Hk & Hm').
    exists k, m'. split; [lia|done].
Qed.

Lemma new_rows_NoDup p (ns : list TaskNode) :
  NoDup (map id ns) →
  NoDup (map Store.key_of (map (Store.new_row p) ns)).
Proof.
  induction ns as [|n ns IH]; simpl; [constructor|]. intros Hnd.
  apply NoDup_cons in Hnd as [Hn Hnd].
  apply NoDup_cons. split; [|by apply IH].
  intros Hin. apply Hn.
  apply list_elem_of_fmap in Hin as (r & Hk & Hr).
  apply list_elem_of_fmap in Hr as (m & -> & Hm).
  unfold Store.key_of in Hk. simpl in Hk. injection Hk as ->.
  by apply (list_elem_of_fmap_2 id).
Qed.

(** X1 (task ids are keys).  The ids of the nodes of a planned DAG are
    pairwise distinct, whatever the outline: addNode drops a node whose
    id is taken.  The rows persistDag builds from the DAG therefore have
    pairwise distinct (project, node id) keys. *)
Theorem X1_node_ids_are_unique (context : PlannerContext) (p : string) :
  NoDup (map id (nodes (buildDag context))) ∧
  NoDup (map Store.key_of
             (map (Store.new_row p) (nodes (buildDag context)))).
Proof.
  split; [apply buildDag_NoDup_ids|].
  apply new_rows_NoDup, buildDag_NoDup_ids.
Qed.

(** X2 (topological order).  In the node list of a planned DAG every
    dependency of a node is the id of a node that stands before it: the
    list is a topological order of the graph. *)
Theorem X2_nodes_are_in_topological_order (context : PlannerContext)
    (i : nat) (n : TaskNode) (d : string) :
  nodes (buildDag context) !! i = Some n → d ∈ dependencies n →
  ∃ j m, j < i ∧ nodes (buildDag context) !! j = Some m ∧ id m = d.
Proof. apply topological_earlier, buildDag_topological. Qed.

(** X3 (acyclicity).  The dependency relation of a planned DAG has no
    cycle: a task that depends, directly or through other tasks, on a
    task is never that task itself. *)
Theorem X3_dependencies_are_acyclic (context : PlannerContext)
    (a b : string) :
  tc (depends_on (nodes (buildDag context))) a b → a ≠ b.
Proof.
  intros Hchain <-.
  assert (∃ i n, nodes (buildDag context) !! i = Some n ∧ id n = a)
    as (i & n & Hi & Hid).
  { inversion Hchain as [? ? (n & Hn & Hid & _)|? ? ? (n & Hn & Hid & _)];
      subst; apply list_elem_of_lookup in Hn as (i & Hi); by exists i, n. }
  destruct (depends_on_chain_earlier _ _ _ (buildDag_topological context)
              (buildDag_NoDup_ids context) Hchain i n Hi Hid)
    as (j & m & Hlt & Hj & Hm).
  assert (j = i) by (eapply NoDup_ids_lookup_inj;
                     eauto using buildDag_NoDup_ids; congruence).
  lia.
Qed.

End PlannerOrder.

Section PlannerEdges.
Import Planner.

Lemma exists_elem_here {A} (P : A → Prop) x l :
  P x → ∃ y, y ∈ x :: l ∧ P y.
Proof. intros H. exists x. split; [apply list_elem_of_here|done]. Qed.

Lemma exists_elem_further {A} (P : A → Prop) x l :
  (∃ y, y ∈ l ∧ P y) → ∃ y, y ∈ x :: l ∧ P y.
Proof.
  intros (y & Hy & HP). exists y. split; [by apply list_elem_of_further|done].
Qed.

Ltac find_elem :=
  solve [repeat first [ apply exists_elem_here; simpl; by repeat split
                      | apply exists_elem_further ]].

(** Each dependency of a node of an entry has its edge among the edges
    of the entry. *)
Lemma entryNodes_dependency_edge context emb tab e n d :
  n ∈ entryNodes context emb tab e → d ∈ dependencies n →
  ∃ x, x ∈ entryEdges emb tab e ∧ from x = d ∧ to x = id n.
Proof.
  unfold entryNodes, entryEdges, lastDependency, shouldCreateRetrieve.
  destruct (is_fixed e), emb, tab; simpl; intros Hin;
    repeat (apply elem_of_cons in Hin as [->|Hin];
            [simpl; intros Hd;
             first [by apply elem_of_nil in Hd
                   | apply list_elem_of_singleton in Hd as ->; find_elem]|]);
    by apply elem_of_nil in Hin.
Qed.

(** Each edge of an entry ends in a node of the entry that depends on
    the node the edge starts from. *)
Lemma entryEdges_dependency context emb tab e x :
  x ∈ entryEdges emb tab e →
  ∃ n, n ∈ entryNodes context emb tab e ∧
       id n = to x ∧ from x ∈ dependencies n.
Proof.
  unfold entryNodes, entryEdges, lastDependency, shouldCreateRetrieve.
  destruct (is_fixed e), emb, tab; simpl; intros Hin;
    repeat (apply elem_of_cons in Hin as [->|Hin];
            [simpl;
             solve [repeat first
               [ apply exists_elem_here; simpl;
                 by (split; [|apply list_elem_of_here])
               | apply exists_elem_further ]]|]);
    by apply elem_of_nil in Hin.
Qed.

(** Without a chapter numbered "document" the sink is in the DAG as soon
    as a chapter has an assemble node. *)
Lemma sink_in_dag context :
  (∀ e, e ∈ flattenOutline (outline context) → cid e ≠ "document") →
  let assembleNodes :=
    filter (fun n => type n = assemble) (chapterNodes context) in
  assembleNodes ≠ [] →
  finalAssembleNode assembleNodes ∈ nodes (buildDag context).
Proof.
  intros Hdoc asm Hne. rewrite buildDag_nodes. simpl. fold asm.
  destruct (0 <? length asm)%nat eqn:Hlen.
  - apply addNodeL_elem_of. right. split; [done|]. simpl. intros Hin.
    apply list_elem_of_fmap in Hin as (n & Hid & Hn).
    apply chapterNodes_origin in Hn as (e & He & Hn).
    apply entryNodes_shape in Hn as (Hn & _).
    rewrite Hn in Hid. symmetry in Hid.
    apply kind_prefix_document in Hid as [_ Hc]. by apply (Hdoc e).
  - destruct asm; [done|]. simpl in Hlen. done.
Qed.

Lemma buildDag_dependency_edge context n d :
  n ∈ nodes (buildDag context) → d ∈ dependencies n →
  ∃ x, x ∈ edges (buildDag context) ∧ from x = d ∧ to x = id n.
Proof.
  intros Hn Hd.
  apply buildDag_nodes_origin in Hn as [Hn| ->].
  - apply chapterNodes_origin in Hn as (e & He & Hn).
    destruct (entryNodes_dependency_edge _ _ _ _ _ _ Hn Hd)
      as (x & Hx & Hfrom & Hto).
    exists x. split; [by eapply entryEdges_in_dag|done].
  - simpl in Hd. apply list_elem_of_fmap in Hd as (m & -> & Hm).
    exists {| from := id m; to := finalAssembleId;
              reason := Some "章节合并" |}.
    split; [|done]. rewrite buildDag_edges. simpl.
    apply elem_of_app. right.
    destruct (0 <? _)%nat eqn:Hlen.
    + by apply (list_elem_of_fmap_2
                  (fun n => {| from := id n; to := finalAssembleId;
                               reason := Some "章节合并" |})).
    + destruct (filter _ _); [by apply elem_of_nil in Hm|done].
Qed.

Lemma buildDag_edge_dependency context x :
  distinct_chapters (flattenOutline (outline context)) →
  (∀ e, e ∈ flattenOutline (outline context) → cid e ≠ "document") →
  x ∈ edges (buildDag context) →
  ∃ n, n ∈ nodes (buildDag context) ∧ id n = to x ∧
       from x ∈ dependencies n.
Proof.
  intros Hdist Hdoc Hx. rewrite buildDag_edges in Hx. simpl in Hx.
  apply elem_of_app in Hx as [Hx|Hx].
  - apply list_elem_of_In, in_flat_map in Hx as (e & He & Hx).
    apply list_elem_of_In in He, Hx.
    destruct (entryEdges_dependency context _ _ _ _ Hx)
      as (n & Hn & Hid & Hdep).
    exists n. split; [|done].
    apply chapterNodes_in_dag.
    eapply chapterNodes_complete; [|exact He|exact Hn].
    by apply distinct_chapter_unique.
  - destruct (0 <? _)%nat eqn:Hlen; [|by apply elem_of_nil in Hx].
    apply list_elem_of_fmap in Hx as (m & -> & Hm). simpl.
    eexists. split; [apply (sink_in_dag context Hdoc)|].
    + intros Hnil. rewrite Hnil in Hm. by apply elem_of_nil in Hm.
    + split; [done|]. simpl. by apply (list_elem_of_fmap_2 id).
Qed.

(** X4 (every dependency is wired).  In a planned DAG every dependency
    id of a node is the id of a node of the DAG, and the edge from that
    dependency to the node is in the edge list. *)
Theorem X4_every_dependency_has_its_edge (context : PlannerContext)
    (n : TaskNode) (d : string) :
  n ∈ nodes (buildDag context) → d ∈ dependencies n →
  d ∈ map id (nodes (buildDag context)) ∧
  ∃ x, x ∈ edges (buildDag context) ∧ from x = d ∧ to x = id n.
Proof.
  intros Hn Hd. split; [by eapply buildDag_dependencies_closed|].
  by apply buildDag_dependency_edge.
Qed.

(** X5 (every edge is a dependency).  When the chapter numbers of the
    outline are pairwise distinct and none of them is "document", every
    edge of the planned DAG ends in a node of the DAG that lists the
    start of the edge among its dependencies: the edge list and the
    dependency lists describe the same graph. *)
Theorem X5_every_edge_is_a_dependency (context : PlannerContext)
    (x : TaskEdge) :
  distinct_chapters (flattenOutline (outline context)) →
  (∀ e, e ∈ flattenOutline (outline context) → cid e ≠ "document") →
  x ∈ edges (buildDag context) →
  ∃ n, n ∈ nodes (buildDag context) ∧ id n = to x ∧
       from x ∈ dependencies n.
Proof. apply buildDag_edge_dependency. Qed.

End PlannerEdges.

Section PlannerSummary.
Import Planner.

Lemma count_by_type (ns : list TaskNode) :
  list_sum (map (fun t => length (filter (fun n => type n = t) ns))
                all_types) = length ns.
Proof.
  induction ns as [|n ns IH]; [done|].
  simpl in *. rewrite !filter_cons.
  destruct (type n); simpl;
    repeat (destruct (decide _) as [?|?]; try done); simpl; lia.
Qed.

(** X6 (summary).  The summary of a planned DAG counts every node once:
    its total is the number of nodes, it lists the six task types, each
    with the number of nodes of that type, and the six counts add up to
    the total. *)
Theorem X6_summary_counts_every_node_once (context : PlannerContext) :
  let dag := buildDag context in
  total (summary dag) = length (nodes dag) ∧
  map fst (byType (summary dag)) = all_types ∧
  (∀ t, (t, length (filter (fun n => type n = t) (nodes dag)))
        ∈ byType (summary dag)) ∧
  list_sum (map snd (byType (summary dag))) = total (summary dag).
Proof.
  simpl. unfold buildDag, finishDag. simpl.
  set (ns := b_nodes _). split; [done|]. split; [done|]. split.
  - intros t. destruct t; solve [repeat first
      [apply list_elem_of_here | apply list_elem_of_further]].
  - exact (count_by_type ns).
Qed.

End PlannerSummary.

Section PlannerFlatten.
Import Planner.

Lemma walk_node_entry n : ∀ parent e,
  e ∈ walk_node parent n ↔
  e = {| node := n; parentId := parent |} ∨
  ∃ children, outline_structure n = Some children ∧
              outline_entry children (chapter_number n) e.
Proof.
  induction n as [n IH] using OutlineNode_nested_ind.
  intros parent e.
  assert (walk_node parent n =
          {| node := n; parentId := parent |} ::
          match outline_structure n with
          | Some children => flat_map (walk_node (chapter_number n)) children
          | None => []
          end) as -> by by destruct n.
  rewrite elem_of_cons.
  destruct (outline_structure n) as [children|]; cycle 1.
  { split; [intros [?|H]; [by left|by apply elem_of_nil in H]|].
    intros [?|(? & ? & _)]; [by left|done]. }
  split.
  - intros [?|H]; [by left|]. right. exists children. split; [done|].
    apply list_elem_of_In, in_flat_map in H as (m & Hm & He).
    apply list_elem_of_In in Hm, He.
    rewrite Forall_forall in IH.
    apply (IH m Hm) in He as [->|(cs & Hcs & He)].
    + by apply entry_here.
    + by eapply entry_below.
  - intros [?|(cs & [= <-] & He)]; [by left|]. right.
    apply list_elem_of_In, in_flat_map.
    rewrite Forall_forall in IH.
    remember (chapter_number n) as c eqn:Hc. clear Hc.
    induction He as [ns parent0 m Hm|ns parent0 m cs0 e Hm Hcs He IHe].
    + exists m. split; [by apply list_elem_of_In|].
      apply list_elem_of_In, (IH m Hm). by left.
    + exists m. split; [by apply list_elem_of_In|].
      apply list_elem_of_In, (IH m Hm). right. by exists cs0.
Qed.

(** X7 (flattening reaches every node).  flattenOutline lists exactly
    the nodes of the outline at any depth: the top-level nodes without a
    parent id, and the children of a node with the chapter number of
    that node as their parent id. *)
Theorem X7_flattenOutline_lists_every_node (o : list OutlineNode)
    (e : FlattenedOutlineNode) :
  e ∈ flattenOutline o ↔ outline_entry o None e.
Proof.
  unfold flattenOutline, walk. generalize (@None string) as parent.
  intros parent. split.
  - intros H. apply list_elem_of_In, in_flat_map in H as (m & Hm & He).
    apply list_elem_of_In in Hm, He.
    apply walk_node_entry in He as [->|(cs & Hcs & He)].
    + by apply entry_here.
    + by eapply entry_below.
  - intros H. apply list_elem_of_In, in_flat_map.
    destruct H as [ns parent0 m Hm|ns parent0 m cs e Hm Hcs He].
    + exists m. split; [by apply list_elem_of_In|].
      apply list_elem_of_In, walk_node_entry. by left.
    + exists m. split; [by apply list_elem_of_In|].
      apply list_elem_of_In, walk_node_entry. right. by exists cs.
Qed.

End PlannerFlatten.
(* ===================================================================== *)
(** * Further properties of the store *)
(* ===================================================================== *)

Section StoreWiring.
Import Store.

Lemma set_dependents_same r : set_dependents (dependents r) r = r.
Proof. by destruct r. Qed.

Lemma find_key_unique p f t r :
  NoDup (map key_of t) → r ∈ t → has_key p f r →
  List.find (fun r => bool_decide (has_key p f r)) t = Some r.
Proof.
  induction t as [|a t IH]; intros Hnd Hin Hk;
    [by apply elem_of_nil in Hin|].
  simpl in Hnd. apply NoDup_cons in Hnd as [Ha Hnd]. simpl.
  destruct (decide (has_key p f a)) as [Hka|Hka].
  - rewrite (bool_decide_eq_true_2 _ Hka).
    apply elem_of_cons in Hin as [->|Hin]; [done|].
    exfalso. apply Ha.
    assert (key_of a = key_of r) as ->.
    { unfold key_of. destruct Hka as [Ha1 Ha2], Hk as [Hr1 Hr2]. congruence. }
    by apply (list_elem_of_fmap_2 key_of).
  - rewrite (bool_decide_eq_false_2 _ Hka).
    apply elem_of_cons in Hin as [->|Hin]; [done|]. by apply IH.
Qed.

Lemma Forall2_map_elem {A B} (R : A → B → Prop) (g : A → B) l :
  (∀ x, x ∈ l → R x (g x)) → Forall2 R l (map g l).
Proof.
  intros H. induction l as [|a l IH]; simpl; constructor.
  - apply H, list_elem_of_here.
  - apply IH. intros x Hx. by apply H, list_elem_of_further.
Qed.

Lemma Forall2_diag_elem {A} (R : A → A → Prop) l :
  (∀ x, x ∈ l → R x x) → Forall2 R l l.
Proof. intros H. by apply Forall_Forall2_diag, Forall_forall. Qed.

(** addDependent on a table with unique keys, row by row. *)
Lemma addDependent_rows p f m t :
  NoDup (map key_of t) →
  Forall2 (fun r r' =>
             r' = set_dependents
                    (dependents r ++
                     if decide (has_key p f r ∧ m ∉ dependents r)
                     then [m] else []) r)
          t (addDependent p f m t).
Proof.
  intros Hnd. unfold addDependent.
  destruct (List.find _ t) as [data|] eqn:Hfind.
  - pose proof (find_some _ _ Hfind) as [Hdin Hdk].
    apply bool_decide_eq_true in Hdk. apply list_elem_of_In in Hdin.
    assert (∀ r, r ∈ t → has_key p f r → r = data) as Huniq.
    { intros r Hin Hk.
      pose proof (find_key_unique p f t r Hnd Hin Hk) as E.
      rewrite Hfind in E. congruence. }
    destruct (decide (m ∈ dependents data)) as [Hm|Hm].
    + apply Forall2_diag_elem. intros r Hin.
      rewrite decide_False; [by rewrite app_nil_r, set_dependents_same|].
      intros [Hk Hn]. apply Hn. by rewrite (Huniq r Hin Hk).
    + apply Forall2_map_elem. intros r Hin.
      destruct (decide (has_key p f r)) as [Hk|Hk].
      * pose proof (Huniq r Hin Hk) as ->. by rewrite decide_True.
      * rewrite decide_False by tauto.
        by rewrite app_nil_r, set_dependents_same.
  - rewrite decide_False by apply not_elem_of_nil.
    apply Forall2_map_elem. intros r Hin.
    assert (¬ has_key p f r) as Hk.
    { intros Hk. apply list_elem_of_In in Hin.
      pose proof (find_none _ _ Hfind r Hin) as E. simpl in E.
      by rewrite (bool_decide_eq_true_2 _ Hk) in E. }
    rewrite !decide_False by tauto.
    by rewrite app_nil_r, set_dependents_same.
Qed.

Lemma addDependent_keys p f m t :
  map key_of (addDependent p f m t) = map key_of t.
Proof.
  unfold addDependent. destruct (decide _); [done|].
  rewrite map_map. apply map_ext. intros r. by destruct (decide _).
Qed.

Lemma wired_from_nil p r : wired_from p [] r r.
Proof.
  split; [by rewrite set_dependents_same|]. split; [done|]. split; [done|].
  intros m. split; [by left|]. intros [?|(_ & e & He & _)]; [done|].
  by apply elem_of_nil in He.
Qed.

Lemma wired_from_step p done e r rc r' :
  wired_from p done r rc →
  r' = set_dependents
         (dependents rc ++
          if decide (has_key p (Planner.from e) rc ∧
                     Planner.to e ∉ dependents rc)
          then [Planner.to e] else []) rc →
  wired_from p (done ++ [e]) r r'.
Proof.
  intros (Heq & Hother & Hnd & Hmem) ->.
  assert (projectId rc = projectId r ∧ nodeId rc = nodeId r) as [Hp Hn]
    by (by rewrite Heq).
  split; [|split; [|split]].
  - rewrite Heq. reflexivity.
  - intros Hne. rewrite (Hother Hne).
    rewrite decide_False; [by rewrite app_nil_r, set_dependents_same|].
    by intros [[Hk _] _].
  - intros Hr. specialize (Hnd Hr). simpl.
    destruct (decide _) as [[_ Hfresh]|_]; [|by rewrite app_nil_r].
    apply NoDup_app. split; [done|]. split; [|apply NoDup_singleton].
    intros x Hx Hx'. apply list_elem_of_singleton in Hx'. by subst.
  - intros m. simpl. rewrite elem_of_app, Hmem. split.
    + intros [[Hold|(Hpr & e0 & He0 & Hf & Ht)]|Hnew].
      * by left.
      * right. split; [done|]. exists e0.
        split; [apply elem_of_app; by left|done].
      * destruct (decide _) as [[[Hkp Hkn] _]|_];
          [|by apply elem_of_nil in Hnew].
        apply list_elem_of_singleton in Hnew as ->.
        right. split; [congruence|]. exists e.
        split; [apply elem_of_app; right; apply list_elem_of_here|].
        split; [congruence|done].
    + intros [Hold|(Hpr & e0 & He0 & Hf & Ht)]; [by left; left|].
      apply elem_of_app in He0 as [He0|He0].
      * left. right. split; [done|]. by exists e0.
      * apply list_elem_of_singleton in He0 as ->.
        destruct (decide (Planner.to e ∈ dependents rc)) as [Hin|Hin].
        -- left. apply Hmem in Hin. by rewrite <- Ht.
        -- right. rewrite decide_True.
           ++ rewrite Ht. apply list_elem_of_here.
           ++ split; [|done]. split; congruence.
Qed.

Lemma persist_edges p es : ∀ done t0 tc,
  NoDup (map key_of tc) →
  Forall2 (wired_from p done) t0 tc →
  Forall2 (wired_from p (done ++ es)) t0
    (foldl (fun t e => addDependent p (Planner.from e) (Planner.to e) t)
           tc es) ∧
  map key_of
    (foldl (fun t e => addDependent p (Planner.from e) (Planner.to e) t)
           tc es) = map key_of tc.
Proof.
  induction es as [|e es IH]; intros done t0 tc Hnd Hw; simpl.
  - by rewrite app_nil_r.
  - destruct (IH (done ++ [e]) t0
                (addDependent p (Planner.from e) (Planner.to e) tc))
      as [Hw' Hk'].
    + by rewrite addDependent_keys.
    + eapply Forall2_trans; [|exact Hw|apply addDependent_rows, Hnd].
      intros r rc r' H1 H2. by eapply wired_from_step.
    + rewrite <- app_assoc in Hw'. simpl in Hw'. split; [done|].
      by rewrite Hk', addDependent_keys.
Qed.

Lemma persistDag_wired p dag t t' :
  persistDag p dag t = Some t' →
  Forall2 (wired_from p (Planner.edges dag))
          (t ++ map (new_row p) (Planner.nodes dag)) t' ∧
  map key_of t' = map key_of (t ++ map (new_row p) (Planner.nodes dag)).
Proof.
  unfold persistDag. destruct (decide _) as [Hnd|]; [|done]. intros [= <-].
  apply (persist_edges p (Planner.edges dag) []); [done|].
  apply Forall2_diag_elem. intros r _. apply wired_from_nil.
Qed.

(** X8 (dependents come from the edges).  When persistDag succeeds, the
    table holds the rows of before followed by one pending row per node,
    and only dependents lists have changed: the list of a row of the
    project holds what it held before and the ends of the edges that
    start at the row, each once; rows of other projects are untouched.
    The keys are still pairwise distinct. *)
Theorem X8_persistDag_wires_dependents_from_edges
    (p : string) (dag : Planner.TaskDag) (t t' : table) :
  persistDag p dag t = Some t' →
  Forall2 (wired_from p (Planner.edges dag))
          (t ++ map (new_row p) (Planner.nodes dag)) t' ∧
  NoDup (map key_of t').
Proof.
  intros H. destruct (persistDag_wired p dag t t' H) as [Hw Hk].
  split; [done|]. rewrite Hk. unfold persistDag in H.
  by destruct (decide _).
Qed.

Lemma find_map_key p f (g : TaskRecord → TaskRecord) t :
  (∀ r, has_key p f (g r) ↔ has_key p f r) →
  List.find (fun r => bool_decide (has_key p f r)) (map g t) =
  g <$> List.find (fun r => bool_decide (has_key p f r)) t.
Proof.
  intros Hg. induction t as [|a t IH]; [done|]. simpl.
  rewrite (bool_decide_ext _ _ (Hg a)).
  by destruct (bool_decide (has_key p f a)).
Qed.

Lemma addDependent_again p f m t :
  addDependent p f m (addDependent p f m t) = addDependent p f m t.
Proof.
  destruct (List.find (fun r => bool_decide (has_key p f r)) t)
    as [data|] eqn:Hfind.
  - destruct (decide (m ∈ dependents data)) as [Hm|Hm].
    + assert (addDependent p f m t = t) as E.
      { unfold addDependent. rewrite Hfind. by rewrite decide_True. }
      by rewrite !E.
    + assert (addDependent p f m t =
              map (fun r => if decide (has_key p f r)
                            then set_dependents (dependents data ++ [m]) r
                            else r) t) as ->.
      { unfold addDependent. rewrite Hfind. by rewrite decide_False. }
      unfold addDependent. rewrite find_map_key.
      2:{ intros r. by destruct (decide _). }
      rewrite Hfind. simpl.
      pose proof (find_some _ _ Hfind) as [_ Hdk].
      apply bool_decide_eq_true in Hdk.
      rewrite (decide_True (P := has_key p f data)) by done. simpl.
      rewrite decide_True; [done|].
      apply elem_of_app. right. apply list_elem_of_here.
  - assert (addDependent p f m t =
            map (fun r => if decide (has_key p f r)
                          then set_dependents ([] ++ [m]) r else r) t) as ->.
    { unfold addDependent. rewrite Hfind.
      by rewrite decide_False by apply not_elem_of_nil. }
    unfold addDependent. rewrite find_map_key.
    2:{ intros r. by destruct (decide _). }
    rewrite Hfind. simpl.
    rewrite map_map. apply map_ext. intros r.
    destruct (decide (has_key p f r)) as [Hk|Hk].
    + by rewrite decide_True.
    + by rewrite decide_False.
Qed.

(** X9 (addDependent is idempotent).  Adding a dependent a second time
    changes nothing, and after the call the task, when it has a row,
    lists the dependent; its list is the list of before, with the
    dependent appended unless it was in it. *)
Theorem X9_addDependent_twice_is_once
    (p fromNode toNode : string) (t : table) :
  addDependent p fromNode toNode (addDependent p fromNode toNode t) =
    addDependent p fromNode toNode t ∧
  ∀ task, getTask p fromNode t = Some task →
    ∃ task', getTask p fromNode (addDependent p fromNode toNode t)
             = Some task' ∧
             toNode ∈ dependents task' ∧
             dependents task' =
               if decide (toNode ∈ dependents task) then dependents task
               else dependents task ++ [toNode].
Proof.
  split; [apply addDependent_again|].
  intros task. unfold getTask, addDependent.
  destruct (List.find _ t) as [data|] eqn:Hfind; [|done].
  intros [= <-]. simpl.
  destruct (decide (toNode ∈ dependents data)) as [Hm|Hm].
  - rewrite Hfind. simpl. eexists. split; [done|]. done.
  - rewrite find_map_key.
    2:{ intros r. by destruct (decide _). }
    rewrite Hfind. simpl.
    pose proof (find_some _ _ Hfind) as [_ Hdk].
    apply bool_decide_eq_true in Hdk.
    rewrite (decide_True (P := has_key p fromNode data)) by done.
    eexists. split; [done|]. simpl. split; [|done].
    apply elem_of_app. right. apply list_elem_of_here.
Qed.

End StoreWiring.

Section StoreAccess.
Import Store.


Lemma updateStatus_absent p n s meta t :
  getTask p n t = None → updateStatus p n s meta t = t.
Proof.
  unfold getTask. destruct (List.find _ t) eqn:Hfind; [done|]. intros _.
  unfold updateStatus. rewrite <- (map_id t) at 2.
  apply map_ext_in. intros r Hin.
  pose proof (find_none _ _ Hfind r Hin) as E. simpl in E.
  apply bool_decide_eq_false in E. by rewrite decide_False.
Qed.

Lemma getTask_updateStatus_other p n s meta t q x :
  (q, x) ≠ (p, n) →
  getTask q x (updateStatus p n s meta t) = getTask q x t.
Proof.
  intros Hne. unfold getTask, updateStatus.
  induction t as [|r t IH]; [done|]. simpl.
  destruct (decide (has_key p n r)) as [Hk|Hk].
  - assert (¬ has_key q x r) as Hq.
    { intros [Hq1 Hq2]. destruct Hk as [Hk1 Hk2]. apply Hne. congruence. }
    assert (¬ has_key q x (apply_update s meta r)) as Hq' by done.
    rewrite (bool_decide_eq_false_2 _ Hq), (bool_decide_eq_false_2 _ Hq').
    apply IH.
  - destruct (bool_decide (has_key q x r)); [done|apply IH].
Qed.


Lemma finished_cases t p dep :
  finished t p dep ↔ ¬ persisted t p dep ∨ has_status t p dep completed.
Proof.
  split.
  - intros Hf. destruct (decide (Exists (has_key p dep) t)) as [He|He].
    + right. split; [|done]. by apply Exists_exists in He.
    + left. intros Hp. apply He. by apply Exists_exists.
  - intros [Hno|[_ Hs]]; [|done]. intros r Hin Hk. exfalso. apply Hno.
    by exists r.
Qed.

(** X11 (readiness on any table).  Whatever the table holds,
    listReadyTasks returns exactly the records of the pending rows of
    the project each of whose dependency ids either names no row of the
    project or has status completed: a dependency id without a row does
    not hold a task back. *)
Theorem X11_ready_up_to_unknown_dependencies
    (p : string) (t : table) (x : TaskRecord) :
  x ∈ listReadyTasks p t ↔
  ∃ ts, x = ready_record ts ∧ ts ∈ t ∧ projectId ts = p ∧
        status ts = pending ∧
        ∀ dep, dep ∈ dependencies ts →
               ¬ persisted t p dep ∨ has_status t p dep completed.
Proof.
  rewrite listReadyTasks_spec. split.
  - intros (ts & -> & Hts). exists ts. split; [done|].
    apply list_ready_tasks_spec in Hts as (Hin & Hp & Hs & Hd).
    repeat split; try done. intros dep Hdep.
    by apply finished_cases, Hd.
  - intros (ts & -> & Hin & Hp & Hs & Hd). exists ts. split; [done|].
    apply list_ready_tasks_spec. repeat split; try done.
    intros dep Hdep. by apply finished_cases, Hd.
Qed.

End StoreAccess.

Section StoreProjects.
Import Store.

Lemma unfinished_dependency_rows_of t ts dep :
  unfinished_dependency (rows_of (projectId ts) t) ts dep =
  unfinished_dependency t ts dep.
Proof.
  unfold unfinished_dependency, rows_of.
  induction t as [|r t IH]; [done|]. simpl.
  destruct (bool_decide (projectId r = projectId ts)) eqn:E; simpl.
  - by rewrite E, IH.
  - by rewrite IH.
Qed.

Lemma is_ready_rows_of q t ts :
  is_ready q (rows_of q t) ts = is_ready q t ts.
Proof.
  unfold is_ready.
  destruct (decide (projectId ts = q)) as [<-|Hne].
  - assert (existsb (unfinished_dependency (rows_of (projectId ts) t) ts)
                    (dependencies ts) =
            existsb (unfinished_dependency t ts) (dependencies ts)) as E.
    { induction (dependencies ts) as [|d l IH]; [done|]. simpl.
      by rewrite unfinished_dependency_rows_of, IH. }
    by rewrite E.
  - by rewrite (bool_decide_eq_false_2 _ Hne).
Qed.

Lemma filter_ready_rows_of q T l :
  List.filter (is_ready q T) (rows_of q l) = List.filter (is_ready q T) l.
Proof.
  unfold rows_of. induction l as [|a l IH]; [done|]. simpl.
  destruct (bool_decide (projectId a = q)) eqn:E; simpl.
  - by rewrite IH.
  - unfold is_ready at 2. rewrite E. simpl. apply IH.
Qed.

(** Readiness within a project looks at the rows of the project only. *)
Lemma list_ready_tasks_rows_of q t :
  list_ready_tasks q (rows_of q t) = list_ready_tasks q t.
Proof.
  unfold list_ready_tasks.
  rewrite (filter_ext _ _ (is_ready_rows_of q t)).
  apply filter_ready_rows_of.
Qed.

Lemma listReadyTasks_same_rows q t t' :
  rows_of q t = rows_of q t' → listReadyTasks q t = listReadyTasks q t'.
Proof.
  intros H. unfold listReadyTasks.
  by rewrite <- (list_ready_tasks_rows_of q t),
             <- (list_ready_tasks_rows_of q t'), H.
Qed.

Lemma getTask_rows_of q x t : getTask q x (rows_of q t) = getTask q x t.
Proof.
  unfold getTask, rows_of. f_equal.
  induction t as [|a t IH]; [done|]. simpl.
  destruct (decide (projectId a = q)) as [Hq|Hq].
  - rewrite (bool_decide_eq_true_2 _ Hq). simpl. by rewrite IH.
  - rewrite (bool_decide_eq_false_2 _ Hq).
    rewrite bool_decide_eq_false_2; [done|]. by intros [? _].
Qed.

Lemma getTask_same_rows q x t t' :
  rows_of q t = rows_of q t' → getTask q x t = getTask q x t'.
Proof.
  intros H. by rewrite <- (getTask_rows_of q x t),
                       <- (getTask_rows_of q x t'), H.
Qed.

Lemma rows_of_clearProject_other p q t :
  q ≠ p → rows_of q (clearProject p t) = rows_of q t.
Proof.
  intros Hne. unfold rows_of, clearProject.
  induction t as [|a t IH]; [done|]. simpl.
  destruct (decide (projectId a = p)) as [Hp|Hp].
  - rewrite (bool_decide_eq_true_2 _ Hp). simpl.
    rewrite bool_decide_eq_false_2 by congruence. done.
  - rewrite (bool_decide_eq_false_2 _ Hp). simpl. by rewrite IH.
Qed.

Lemma rows_of_clearProject p t : rows_of p (clearProject p t) = [].
Proof.
  unfold rows_of, clearProject.
  induction t as [|a t IH]; [done|]. simpl.
  destruct (decide (projectId a = p)) as [Hp|Hp].
  - by rewrite (bool_decide_eq_true_2 _ Hp).
  - rewrite (bool_decide_eq_false_2 _ Hp). simpl.
    by rewrite (bool_decide_eq_false_2 _ Hp).
Qed.

Lemma elem_of_clearProject p t r :
  r ∈ clearProject p t ↔ r ∈ t ∧ projectId r ≠ p.
Proof.
  unfold clearProject.
  rewrite list_elem_of_In, filter_In, <- list_elem_of_In.
  by rewrite negb_true_iff, bool_decide_eq_false.
Qed.

(** X12 (clearProject removes one project).  clearProject deletes the
    rows of the project and nothing else: afterwards no task of the
    project can be read and none is ready, while every other project
    keeps its rows, in order, and with them its tasks and its ready
    list. *)
Theorem X12_clearProject_removes_one_project (p : string) (t : table) :
  (∀ r, r ∈ clearProject p t ↔ r ∈ t ∧ projectId r ≠ p) ∧
  (∀ x, getTask p x (clearProject p t) = None) ∧
  listReadyTasks p (clearProject p t) = [] ∧
  (∀ q, q ≠ p →
        rows_of q (clearProject p t) = rows_of q t ∧
        listReadyTasks q (clearProject p t) = listReadyTasks q t ∧
        ∀ x, getTask q x (clearProject p t) = getTask q x t).
Proof.
  split; [apply elem_of_clearProject|]. split; [|split].
  - intros x. rewrite <- getTask_rows_of. by rewrite rows_of_clearProject.
  - rewrite (listReadyTasks_same_rows p _ []); [done|].
    by rewrite rows_of_clearProject.
  - intros q Hq.
    pose proof (rows_of_clearProject_other p q t Hq) as Hrows.
    split; [done|]. split.
    + by apply listReadyTasks_same_rows.
    + intros x. by apply getTask_same_rows.
Qed.

End StoreProjects.
(* ===================================================================== *)
(** * Further properties of the dispatcher *)
(* ===================================================================== *)

Section Journal.
Import Store Dispatcher.
Variable enqueueOptions : option EnqueueOptions.

Lemma within_ret {A} p (a : A) : within p (mret a : M A).
Proof. intros w. exists []. by rewrite app_nil_r. Qed.

Lemma within_bind {A B} p (m : M A) (f : A → M B) :
  within p m → (∀ a, within p (f a)) → within p (m ≫= f).
Proof.
  intros Hm Hf w. rewrite exec_bind.
  destruct (Hm w) as (es1 & Hc1 & Ht1 & Hok1).
  change (exec m w) with ((m w).2) in Hc1, Ht1.
  destruct (Hf (m w).1 (m w).2) as (es2 & Hc2 & Ht2 & Hok2).
  exists (es1 ++ es2). split; [|split].
  - by rewrite Hc2, Hc1, app_assoc.
  - rewrite Ht2, Ht1. unfold replay. by rewrite foldl_app.
  - by apply Forall_app.
Qed.

Lemma within_read {A} p (f : table → A) : within p (read f).
Proof. intros w. exists []. by rewrite app_nil_r. Qed.

Lemma within_emit p e :
  effect_within p e → within p (emit e (effect_table e)).
Proof.
  intros He w. exists [e]. rewrite exec_emit. simpl.
  split; [done|]. split; [done|]. by constructor.
Qed.

Lemma within_storeUpdateStatus p n s meta :
  m_retries meta = None → within p (storeUpdateStatus p n s meta).
Proof. intros H. by apply (within_emit p (StatusWrite p n s meta)). Qed.

Lemma within_storeMarkBlocked p ids : within p (storeMarkBlocked p ids).
Proof.
  destruct ids as [|i ids]; [apply within_ret|].
  by apply (within_emit p (BlockWrite p (i :: ids))).
Qed.

Lemma within_queueAdd p q name payload options :
  within p (queueAdd q name payload options).
Proof. by apply (within_emit p (QueueAdd _)). Qed.

Lemma within_buildJobPayload p task : within p (buildJobPayload p task).
Proof. intros w. exists []. by rewrite app_nil_r. Qed.

Lemma within_forEach {A} p (l : list A) (body : A → M unit) :
  (∀ x, within p (body x)) → within p (forEach l body).
Proof.
  intros Hb. induction l as [|x l IH]; simpl; [apply within_ret|].
  apply within_bind; auto.
Qed.

Lemma within_enqueueTask p task :
  within p (enqueueTask enqueueOptions p task).
Proof.
  unfold enqueueTask. apply within_bind; [apply within_buildJobPayload|].
  intros payload. apply within_bind; [apply within_queueAdd|]. intros _.
  by apply within_storeUpdateStatus.
Qed.

Lemma within_enqueueReadyTasks p :
  within p (enqueueReadyTasks enqueueOptions p).
Proof.
  unfold enqueueReadyTasks. apply within_bind; [apply within_read|].
  intros rs. apply within_forEach. intros x. apply within_enqueueTask.
Qed.

Lemma within_blockDependentsOnFailure p n :
  within p (blockDependentsOnFailure p n).
Proof.
  unfold blockDependentsOnFailure. apply within_bind; [apply within_read|].
  intros [record|]; [|apply within_ret].
  destruct (dependents record); [apply within_ret|].
  apply within_storeMarkBlocked.
Qed.

Lemma within_handleAutofixFailure event :
  within (r_projectId event) (handleAutofixFailure event).
Proof.
  unfold handleAutofixFailure.
  apply within_bind; [by apply within_storeUpdateStatus|]. intros _.
  apply within_blockDependentsOnFailure.
Qed.

Lemma within_handleAutofixSuccess event :
  within (r_projectId event) (handleAutofixSuccess enqueueOptions event).
Proof.
  unfold handleAutofixSuccess. apply within_bind; [apply within_read|].
  intros [task|]; [|apply within_ret].
  apply within_bind; [by apply within_storeUpdateStatus|]. intros _.
  apply within_bind; [apply within_read|].
  intros [refreshed|]; [apply within_enqueueTask|apply within_ret].
Qed.

Lemma within_handleVerifyResult event :
  within (r_projectId event) (handleVerifyResult enqueueOptions event).
Proof.
  unfold handleVerifyResult.
  repeat match goal with |- within _ (if ?c then _ else _) => destruct c end.
  - apply within_bind; [by apply within_storeUpdateStatus|]. intros _.
    apply within_enqueueReadyTasks.
  - apply within_bind; [by apply within_storeUpdateStatus|]. intros _.
    apply within_enqueueReadyTasks.
  - apply within_bind; [by apply within_storeUpdateStatus|]. intros _.
    apply within_blockDependentsOnFailure.
  - apply within_bind; [apply within_read|].
    intros [task|]; [|apply within_ret].
    apply within_bind; [by apply within_storeUpdateStatus|]. intros _.
    apply within_queueAdd.
  - apply within_ret.
Qed.

Lemma within_handleWorkerProgress event :
  within (p_projectId event) (handleWorkerProgress event).
Proof.
  unfold handleWorkerProgress.
  destruct (p_type event), (p_status event); try apply within_ret.
  - by apply within_storeUpdateStatus.
  - apply within_bind; [by apply within_storeUpdateStatus|]. intros _.
    apply within_blockDependentsOnFailure.
  - apply (within_handleAutofixFailure
             {| r_projectId := p_projectId event;
                r_nodeId := p_nodeId event; r_type := Autofix;
                r_result := undefined; r_error := p_error event |}).
Qed.

Lemma within_handleWorkerResult event :
  within (r_projectId event) (handleWorkerResult enqueueOptions event).
Proof.
  unfold handleWorkerResult.
  destruct (r_type event).
  - destruct (truthy_str _).
    + apply within_bind; [by apply within_storeUpdateStatus|]. intros _.
      apply within_blockDependentsOnFailure.
    + destruct (_ && _); [apply within_handleVerifyResult|].
      apply within_bind; [by apply within_storeUpdateStatus|].
      intros _. apply within_enqueueReadyTasks.
  - destruct (truthy_str _);
      [apply within_handleAutofixFailure|apply within_handleAutofixSuccess].
Qed.

(** Every call a delivery makes is within the project it is about. *)
Lemma within_deliver d : within (projectOf d) (deliver enqueueOptions d).
Proof.
  destruct d; simpl.
  - apply within_handleWorkerProgress.
  - apply within_handleWorkerResult.
  - apply within_enqueueReadyTasks.
Qed.

Lemma effect_table_kept p e t :
  effect_within p e →
  Forall2 (fun r r' => projectId r' = projectId r ∧
                       retries r' = retries r ∧
                       (projectId r ≠ p → r' = r))
          t (effect_table e t).
Proof.
  intros He. destruct e as [q n s meta|q ids|j]; simpl in *.
  - destruct He as [-> Hr]. unfold updateStatus.
    apply Forall2_map_elem. intros r _.
    destruct (decide (has_key p n r)) as [[Hp _]|_]; [|done].
    simpl. rewrite Hr. done.
  - subst q. unfold markBlocked. destruct ids as [|i ids].
    + by apply Forall2_diag_elem.
    + apply Forall2_map_elem. intros r _.
      destruct (decide _) as [[Hp _]|_]; done.
  - by apply Forall2_diag_elem.
Qed.

Lemma replay_kept p es : ∀ t,
  Forall (effect_within p) es →
  Forall2 (fun r r' => projectId r' = projectId r ∧
                       retries r' = retries r ∧
                       (projectId r ≠ p → r' = r))
          t (replay es t).
Proof.
  induction es as [|e es IH]; intros t Hok; simpl.
  - by apply Forall2_diag_elem.
  - apply Forall_cons in Hok as [He Hok].
    eapply Forall2_trans; [|apply (effect_table_kept p e t He)|apply IH, Hok].
    intros r1 r2 r3 (Hp1 & Hr1 & Ho1) (Hp2 & Hr2 & Ho2).
    split; [congruence|]. split; [congruence|].
    intros Hne. rewrite <- (Ho1 Hne). apply Ho2. by rewrite (Ho1 Hne).
Qed.

Lemma Forall2_and {A B} (P Q : A → B → Prop) l k :
  Forall2 P l k → Forall2 Q l k → Forall2 (fun x y => P x y ∧ Q x y) l k.
Proof.
  intros HP. induction HP; intros HQ; inversion HQ; subst;
    constructor; auto.
Qed.

Lemma deliver_row_kept d w :
  Forall2 (row_kept (projectOf d) (target d))
          (tasks w) (tasks (exec (deliver enqueueOptions d) w)).
Proof.
  destruct (within_deliver d w) as (es & _ & Ht & Hok).
  pose proof (replay_kept (projectOf d) es (tasks w) Hok) as Hkept.
  rewrite <- Ht in Hkept.
  pose proof (steps_deliver enqueueOptions d w) as Hstep.
  eapply Forall2_impl; [apply (Forall2_and _ _ _ _ Hstep Hkept)|].
  intros r r' [H1 (_ & H2 & H3)]. by split.
Qed.

Lemma rows_of_kept p q t t' :
  q ≠ p →
  Forall2 (fun r r' => projectId r' = projectId r ∧
                       (projectId r ≠ p → r' = r)) t t' →
  rows_of q t' = rows_of q t.
Proof.
  intros Hne H. unfold rows_of.
  induction H as [|r r' t t' [Hp Ho] _ IH]; [done|]. simpl.
  rewrite Hp. destruct (decide (projectId r = q)) as [Hq|Hq].
  - rewrite (bool_decide_eq_true_2 _ Hq). rewrite IH.
    f_equal. apply Ho. congruence.
  - by rewrite (bool_decide_eq_false_2 _ Hq).
Qed.

Lemma deliver_rows_of d w q :
  q ≠ projectOf d →
  rows_of q (tasks (exec (deliver enqueueOptions d) w)) = rows_of q (tasks w).
Proof.
  intros Hne. apply (rows_of_kept (projectOf d)); [done|].
  eapply Forall2_impl; [apply deliver_row_kept|].
  intros r r' ([(Hp & _) _] & _ & Ho). by split.
Qed.

(** X23 (deliveries stay within their project).  A delivery about one
    project leaves every other project as it was: its rows, in order,
    and with them what getTask and listReadyTasks answer for it. *)
Theorem X23_deliveries_stay_within_their_project
    (d : Delivery) (w : World) (q : string) :
  q ≠ projectOf d →
  let w' := exec (deliver enqueueOptions d) w in
  rows_of q (tasks w') = rows_of q (tasks w) ∧
  listReadyTasks q (tasks w') = listReadyTasks q (tasks w) ∧
  ∀ x, getTask q x (tasks w') = getTask q x (tasks w).
Proof.
  intros Hne w'. pose proof (deliver_rows_of d w q Hne) as Hrows.
  split; [done|]. split.
  - by apply listReadyTasks_same_rows.
  - intros x. by apply getTask_same_rows.
Qed.

(** X24 (deliveries keep the graph).  No delivery adds or removes a
    row, and row by row it leaves the project, the node id, the type,
    the dependencies, the dependents and the retry count as they were;
    a row becomes completed only through a delivery that names its
    task. *)
Theorem X24_deliveries_keep_the_graph (d : Delivery) (w : World) :
  let w' := exec (deliver enqueueOptions d) w in
  length (tasks w') = length (tasks w) ∧
  ∀ i r', tasks w' !! i = Some r' →
    ∃ r, tasks w !! i = Some r ∧
         projectId r' = projectId r ∧ nodeId r' = nodeId r ∧
         type r' = type r ∧ dependencies r' = dependencies r ∧
         dependents r' = dependents r ∧ retries r' = retries r ∧
         (status r' = completed →
          status r = completed ∨ target d = Some (key_of r)).
Proof.
  intros w'. pose proof (deliver_row_kept d w) as H. split.
  - symmetry. by eapply Forall2_length.
  - intros i r' Hi.
    destruct (Forall2_lookup_r _ _ _ _ _ H Hi)
      as (r & Hr & [(Hp & Hn & Ht & Hd & He) Hs] & Hre & _).
    exists r. by repeat split.
Qed.

End Journal.

Section FailureRecords.
Import Store Dispatcher.
Variable enqueueOptions : option EnqueueOptions.

(** Every failure path writes failed with the update of the delivery,
    then blocks the dependents. *)
Lemma failure_run d p n w :
  is_failure d → target d = Some (p, n) →
  exec (deliver enqueueOptions d) w =
  exec (storeUpdateStatus p n failed (failure_meta d) ;;
        blockDependentsOnFailure p n) w.
Proof.
  destruct d as [event|event|q]; simpl; [| |done].
  - intros Hs [= <- <-]. unfold handleWorkerProgress. rewrite Hs.
    by destruct (p_type event).
  - intros Hf [= <- <-]. unfold handleWorkerResult.
    destruct Hf as [He|(He & Ht & Hs)]; rewrite He.
    + by destruct (r_type event).
    + rewrite Ht, Hs. simpl. unfold handleVerifyResult. rewrite Hs.
      assert (truthy (r_result event) = true) as ->.
      { apply (truthy_prop "status"). by rewrite Hs. }
      done.
Qed.

Lemma jobs_snoc w t e :
  jobs {| tasks := t; calls := calls w ++ [e] |} =
  jobs w ++ match e with QueueAdd j => [j] | _ => [] end.
Proof. unfold jobs. simpl. rewrite omap_app. by destruct e. Qed.

Lemma jobs_storeUpdateStatus p n s meta w :
  jobs (exec (storeUpdateStatus p n s meta) w) = jobs w.
Proof.
  unfold storeUpdateStatus. rewrite exec_emit, jobs_snoc. apply app_nil_r.
Qed.

Lemma jobs_blockDependentsOnFailure p n w :
  jobs (exec (blockDependentsOnFailure p n) w) = jobs w.
Proof.
  unfold blockDependentsOnFailure. rewrite exec_read_bind.
  destruct (getTask p n (tasks w)) as [record|]; [|done].
  destruct (dependents record) as [|i ids]; [done|].
  unfold storeMarkBlocked. rewrite exec_emit, jobs_snoc. apply app_nil_r.
Qed.

Lemma failure_jobs p n meta w :
  jobs (exec (storeUpdateStatus p n failed meta ;;
              blockDependentsOnFailure p n) w) = jobs w.
Proof.
  by rewrite exec_seq, jobs_blockDependentsOnFailure,
             jobs_storeUpdateStatus.
Qed.

Lemma progress_jobs event w :
  jobs (exec (handleWorkerProgress event) w) = jobs w.
Proof.
  unfold handleWorkerProgress.
  destruct (p_type event), (p_status event); try done.
  - apply jobs_storeUpdateStatus.
  - apply failure_jobs.
  - apply failure_jobs.
Qed.

(** X17 (failures and progress events enqueue nothing).  A progress
    event of any kind, and every delivery that marks its task failed (a
    result carrying an error, a verify result with the status hard_fail,
    a failed autofix job), adds no job to any queue. *)
Theorem X17_failures_and_progress_never_enqueue (d : Delivery) (w : World) :
  is_failure d ∨ (∃ event, d = Progress event) →
  jobs (exec (deliver enqueueOptions d) w) = jobs w.
Proof.
  intros [Hf|[event ->]]; [|apply progress_jobs].
  destruct (target d) as [[p n]|] eqn:Ht.
  - rewrite (failure_run d p n w Hf Ht). apply failure_jobs.
  - by destruct d.
Qed.

Lemma markBlocked_fields p ids t :
  Forall2 (fun r r' => has_key (projectId r) (nodeId r) r' ∧
                       error r' = error r ∧ result r' = result r)
          t (markBlocked p ids t).
Proof.
  unfold markBlocked. destruct ids as [|i ids].
  - by apply Forall2_diag_elem.
  - apply Forall2_map_elem. intros r _. by destruct (decide _).
Qed.

(** X18 (what a failure leaves in the row).  A delivery that marks its
    task failed writes the error of its kind into the rows of the task:
    the error of the event, "AutoFix failed" for an autofix job that
    failed without one, "Verifier hard fail" for a hard_fail verdict
    (which also stores the draft as the result); a failed progress
    event without an error keeps the error the row had.  Every other
    row keeps its error and its result. *)
Theorem X18_failure_records_its_error
    (d : Delivery) (p n : string) (w : World) :
  is_failure d → target d = Some (p, n) →
  Forall2 (fun r r' =>
             if decide (has_key p n r) then
               error r' = match m_error (failure_meta d) with
                          | Some e => Some e
                          | None => error r
                          end ∧
               result r' = match m_result (failure_meta d) with
                           | Some v => Some v
                           | None => result r
                           end
             else error r' = error r ∧ result r' = result r)
          (tasks w) (tasks (exec (deliver enqueueOptions d) w)).
Proof.
  intros Hf Ht. rewrite (failure_run d p n w Hf Ht), failure_tasks.
  set (meta := failure_meta d).
  assert (Forall2 (fun r r' =>
                     r' = if decide (has_key p n r)
                          then apply_update failed meta r else r)
                  (tasks w) (updateStatus p n failed meta (tasks w)))
    as Hupd by (by apply Forall2_map_elem).
  assert (∀ r r', (r' = if decide (has_key p n r)
                        then apply_update failed meta r else r) →
                  ∀ r'', (has_key (projectId r') (nodeId r') r'' ∧
                          error r'' = error r' ∧ result r'' = result r') →
            if decide (has_key p n r) then
              error r'' = match m_error meta with
                          | Some e => Some e | None => error r end ∧
              result r'' = match m_result meta with
                           | Some v => Some v | None => result r end
            else error r'' = error r ∧ result r'' = result r) as Hrow.
  { intros r r' -> r'' (_ & He & Hr).
    destruct (decide (has_key p n r)); by rewrite He, Hr. }
  destruct (getTask p n (tasks w)) as [task|].
  - eapply Forall2_trans; [|exact Hupd|apply markBlocked_fields].
    intros r r' r'' H1 H2. by apply (Hrow r r' H1 r'').
  - eapply Forall2_impl; [exact Hupd|].
    intros r r' H1. apply (Hrow r r' H1 r'). by repeat split.
Qed.

End FailureRecords.

Section Dispatch.
Import Store Dispatcher.
Variable enqueueOptions : option EnqueueOptions.

Lemma findResult_view (deps deps' : list TaskRecord) x :
  map (fun r => (nodeId r, result r)) deps =
  map (fun r => (nodeId r, result r)) deps' →
  List.find (fun dep => bool_decide (nodeId dep = x)) deps ≫= result =
  List.find (fun dep => bool_decide (nodeId dep = x)) deps' ≫= result.
Proof.
  revert deps'. induction deps as [|a deps IH]; intros [|b deps'];
    simpl; try done.
  intros [= Hn Hr Hrest]. rewrite Hn.
  destruct (bool_decide (nodeId b = x)); [done|]. by apply IH.
Qed.

Lemma getTasks_view_map p ds (g : TaskRecord → TaskRecord) t :
  (∀ r, projectId (g r) = projectId r ∧ nodeId (g r) = nodeId r ∧
        result (g r) = result r) →
  map (fun r => (nodeId r, result r)) (getTasks p ds (map g t)) =
  map (fun r => (nodeId r, result r)) (getTasks p ds t).
Proof.
  intros Hg. unfold getTasks. destruct ds as [|d ds]; [done|].
  induction t as [|a t IH]; [done|]. simpl.
  destruct (Hg a) as (Hp & Hn & Hr). rewrite Hp, Hn.
  destruct (bool_decide (projectId a = p) &&
            bool_decide (nodeId a ∈ d :: ds)); [|done].
  simpl. by rewrite IH, Hn, Hr.
Qed.

Lemma payloadOf_view p t t' task :
  map (fun r => (nodeId r, result r)) (getTasks p (dependencies task) t) =
  map (fun r => (nodeId r, result r)) (getTasks p (dependencies task) t') →
  payloadOf p t task = payloadOf p t' task.
Proof.
  intros H. pose proof (fun x => findResult_view _ _ x H) as Hf.
  unfold payloadOf, buildJobPayload, mbind, M_bind, read, mret, M_ret.
  simpl. destruct (type task); simpl; by rewrite ?Hf.
Qed.

Lemma payloadOf_updateStatus p q n s meta t task :
  m_result meta = None →
  payloadOf p (updateStatus q n s meta t) task = payloadOf p t task.
Proof.
  intros Hm. apply payloadOf_view. apply getTasks_view_map.
  intros r. destruct (decide _); [|done]. simpl. by rewrite Hm.
Qed.

Lemma exec_enqueueTask p task w :
  exec (enqueueTask enqueueOptions p task) w =
  {| tasks := updateStatus p (nodeId task) running noMeta (tasks w);
     calls := (calls w ++
               [QueueAdd (jobFor enqueueOptions p (tasks w) task)]) ++
              [StatusWrite p (nodeId task) running noMeta] |}.
Proof. done. Qed.

Lemma jobs_forEach_enqueueTask p rs : ∀ w,
  jobs (exec (forEach rs (enqueueTask enqueueOptions p)) w) =
  jobs w ++ map (jobFor enqueueOptions p (tasks w)) rs.
Proof.
  induction rs as [|r0 rs IH]; intros w.
  - simpl. by rewrite exec_ret, app_nil_r.
  - simpl forEach. rewrite exec_seq, IH, exec_enqueueTask.
    unfold jobs at 1. simpl calls. rewrite !omap_app. simpl.
    fold (jobs w). rewrite app_nil_r, <- app_assoc. simpl.
    f_equal. f_equal. apply map_ext. intros r. unfold jobFor.
    by rewrite payloadOf_updateStatus.
Qed.

Lemma jobs_enqueueReadyTasks p w :
  jobs (exec (enqueueReadyTasks enqueueOptions p) w) =
  jobs w ++ map (jobFor enqueueOptions p (tasks w))
                (listReadyTasks p (tasks w)).
Proof.
  unfold enqueueReadyTasks. rewrite exec_read_bind.
  apply jobs_forEach_enqueueTask.
Qed.


Lemma resume_again p w :
  exec (enqueueReadyTasks enqueueOptions p)
       (exec (enqueueReadyTasks enqueueOptions p) w) =
  exec (enqueueReadyTasks enqueueOptions p) w.
Proof.
  unfold enqueueReadyTasks at 1. rewrite exec_read_bind.
  by rewrite nothing_ready_after_enqueue.
Qed.

(** X14 (resume is idempotent).  A second resume right after the first
    finds no ready task: it makes no call at all, and the store and the
    queues are as the first resume left them. *)
Theorem X14_resume_twice_is_resume_once (p : string) (w : World) :
  exec (Orchestrator.resume enqueueOptions p)
       (exec (Orchestrator.resume enqueueOptions p) w) =
  exec (Orchestrator.resume enqueueOptions p) w.
Proof. apply resume_again. Qed.

Lemma completing_run event w :
  completing event →
  exec (handleWorkerResult enqueueOptions event) w =
  exec (storeUpdateStatus (r_projectId event) (r_nodeId event) completed
          {| m_result := storedResult event; m_error := None;
             m_retries := None; m_metadata := None |} ;;
        enqueueReadyTasks enqueueOptions (r_projectId event)) w.
Proof.
  intros (t & Htype & Herror & Hkind). unfold storedResult.
  rewrite Htype.
  destruct (decide (t = Planner.verify)) as [->|Hne].
  - rewrite bool_decide_eq_true_2 by done. simpl.
    destruct Hkind as [?|[Hs|Hs]]; [done| |].
    + assert (is_str "accept" (prop "status" (r_result event)) = false)
        as ->.
      { apply is_str_false. intros E. by rewrite E in Hs. }
      apply (completed_run enqueueOptions w event Planner.verify);
        [done|by right|done].
    + rewrite (proj2 (is_str_true _ _) Hs).
      unfold handleWorkerResult. rewrite Htype, Herror, Hs. simpl.
      unfold handleVerifyResult. rewrite Hs.
      assert (truthy (r_result event) = true) as ->.
      { apply (truthy_prop "status"). by rewrite Hs. }
      done.
  - rewrite bool_decide_eq_false_2 by congruence. simpl.
    apply (completed_run enqueueOptions w event t); [done|by left|done].
Qed.

Lemma completion_world p n meta w :
  let t1 := updateStatus p n completed meta (tasks w) in
  let w' := exec (storeUpdateStatus p n completed meta ;;
                  enqueueReadyTasks enqueueOptions p) w in
  tasks w' = map (mark_running p (listReadyTasks p t1)) t1 ∧
  jobs w' = jobs w ++ map (jobFor enqueueOptions p t1) (listReadyTasks p t1).
Proof.
  intros t1 w'. subst w'. rewrite exec_seq. split.
  - by rewrite tasks_enqueueReadyTasks.
  - rewrite jobs_enqueueReadyTasks. unfold storeUpdateStatus.
    rewrite exec_emit. simpl tasks. by rewrite jobs_snoc, app_nil_r.
Qed.

Lemma finished_after_completed p n meta t dep :
  dep = n ∨ finished t p dep →
  finished (updateStatus p n completed meta t) p dep.
Proof.
  intros Hdep r' Hin Hk.
  apply elem_of_updateStatus in Hin as (r & Hin & ->).
  destruct (decide (has_key p n r)) as [Hkn|Hkn]; [done|].
  destruct Hdep as [->|Hfin]; [done|]. by apply (Hfin r).
Qed.

Lemma completed_not_ready p n meta t :
  n ∉ map nodeId (listReadyTasks p (updateStatus p n completed meta t)).
Proof.
  intros Hin. apply elem_of_ready_ids in Hin as (ts & Hts & Hid).
  apply list_ready_tasks_spec in Hts as (Hin & Hp & Hs & _).
  apply updateStatus_hit in Hin as (r & _ & _ & ->); [|by split].
  done.
Qed.

(** X15 (completion releases the waiting dependents).  When a result
    event marks a task completed (a result without an error that is not
    a verify verdict, or a verify result that is accepted), the rows of
    the task are completed with the result stored, and every pending
    task of the project all of whose other dependencies were completed
    already is enqueued by the same delivery: a job on the queue of its
    kind is added and its rows are running. *)
Theorem X15_completion_releases_waiting_dependents
    (w : World) (event : WorkerResultEvent) (m : TaskRecord) :
  completing event →
  m ∈ tasks w →
  projectId m = r_projectId event →
  status m = pending →
  nodeId m ≠ r_nodeId event →
  (∀ dep, dep ∈ dependencies m →
          dep = r_nodeId event ∨
          finished (tasks w) (r_projectId event) dep) →
  let p := r_projectId event in
  let w' := exec (handleWorkerResult enqueueOptions event) w in
  (∀ r, r ∈ tasks w' → has_key p (r_nodeId event) r →
        status r = completed ∧
        ∀ v, storedResult event = Some v → result r = Some v) ∧
  (∀ r, r ∈ tasks w' → has_key p (nodeId m) r → status r = running) ∧
  ∃ js j, jobs w' = jobs w ++ js ∧ j ∈ js ∧ job_of_row p j m.
Proof.
  intros Hc Hin Hp Hs Hne Hdeps p w'. subst w'.
  rewrite (completing_run event w Hc). fold p.
  set (n := r_nodeId event) in *.
  set (meta := {| m_result := storedResult event; m_error := None;
                  m_retries := None; m_metadata := None |}).
  destruct (completion_world p n meta w) as [Ht Hj].
  set (t1 := updateStatus p n completed meta (tasks w)) in *.
  assert (m ∈ list_ready_tasks p t1) as Hready.
  { apply list_ready_tasks_spec. split; [|split; [done|split; [done|]]].
    - apply updateStatus_miss; [|done]. by intros [_ ?].
    - intros dep Hdep. by apply finished_after_completed, Hdeps. }
  assert (nodeId m ∈ map nodeId (listReadyTasks p t1)) as Hid.
  { apply elem_of_ready_ids. by exists m. }
  split; [|split].
  - intros r Hr Hk. rewrite Ht in Hr.
    apply list_elem_of_fmap in Hr as (r1 & -> & Hr1).
    apply mark_running_has_key in Hk.
    apply updateStatus_hit in Hr1 as (r0 & _ & Hk0 & ->); [|done].
    rewrite mark_running_miss.
    + simpl. split; [done|]. by intros v ->.
    + simpl. rewrite (proj2 Hk0). apply completed_not_ready.
  - intros r Hr Hk. rewrite Ht in Hr.
    apply list_elem_of_fmap in Hr as (r1 & -> & Hr1).
    apply mark_running_has_key in Hk. unfold mark_running.
    rewrite decide_True; [done|].
    destruct Hk as [Hk1 Hk2]. split; [done|]. by rewrite Hk2.
  - exists (map (jobFor enqueueOptions p t1) (listReadyTasks p t1)),
           (jobFor enqueueOptions p t1 (ready_record m)).
    split; [done|]. split; [|done].
    apply (list_elem_of_fmap_2 (jobFor enqueueOptions p t1)).
    apply listReadyTasks_spec. by exists m.
Qed.

Lemma dispatched_ready_none p w w' :
  jobs w' = jobs w → dispatched_ready p w w'.
Proof.
  intros H. exists []. rewrite app_nil_r. split; [done|].
  intros j Hj. by apply elem_of_nil in Hj.
Qed.

Lemma dispatched_ready_enqueue p w0 :
  dispatched_ready p w0 (exec (enqueueReadyTasks enqueueOptions p) w0).
Proof.
  exists (map (jobFor enqueueOptions p (tasks w0))
              (listReadyTasks p (tasks w0))).
  split; [apply jobs_enqueueReadyTasks|].
  intros j Hj. right.
  apply list_elem_of_fmap in Hj as (x & -> & Hx).
  apply listReadyTasks_spec in Hx as (ts0 & -> & Hts0).
  pose proof Hts0 as Hready.
  apply list_ready_tasks_spec in Hts0 as (Hin & Hp & Hs & Hd).
  rewrite tasks_enqueueReadyTasks.
  set (ready := listReadyTasks p (tasks w0)).
  assert (nodeId ts0 ∈ map nodeId ready) as Hid.
  { apply elem_of_ready_ids. by exists ts0. }
  exists (mark_running p ready ts0).
  assert (mark_running p ready ts0 = apply_update running noMeta ts0) as E.
  { unfold mark_running. by rewrite decide_True. }
  split; [by apply (list_elem_of_fmap_2 (mark_running p ready))|].
  rewrite E. split; [done|]. split; [done|]. split; [done|].
  intros dep Hdep r' Hr' Hk.
  apply list_elem_of_fmap in Hr' as (r0 & -> & Hr0).
  apply mark_running_has_key in Hk.
  pose proof (Hd dep Hdep r0 Hr0 Hk) as Hc.
  rewrite mark_running_miss; [done|].
  intros Hmem. apply elem_of_ready_ids in Hmem as (ts2 & Hts2 & Hid2).
  apply list_ready_tasks_spec in Hts2 as (Hin2 & Hp2 & Hs2 & _).
  assert (status ts2 = completed) as Hc2.
  { apply (Hd dep Hdep ts2 Hin2). destruct Hk as [_ Hk2].
    split; [done|]. congruence. }
  congruence.
Qed.

Lemma dispatched_ready_update p n s meta w :
  dispatched_ready p w
    (exec (storeUpdateStatus p n s meta ;;
           enqueueReadyTasks enqueueOptions p) w).
Proof.
  rewrite exec_seq.
  destruct (dispatched_ready_enqueue p (exec (storeUpdateStatus p n s meta) w))
    as (js & Hjs & Hall).
  exists js. split; [|done]. by rewrite Hjs, jobs_storeUpdateStatus.
Qed.

Lemma dispatched_ready_verify event w :
  dispatched_ready (r_projectId event) w
    (exec (handleVerifyResult enqueueOptions event) w).
Proof.
  unfold handleVerifyResult.
  repeat match goal with
         | |- dispatched_ready _ _ (exec (if ?c then _ else _) _) =>
             destruct c
         end.
  - apply dispatched_ready_update.
  - apply dispatched_ready_update.
  - apply dispatched_ready_none, failure_jobs.
  - rewrite exec_read_bind.
    destruct (getTask _ _ (tasks w)) as [task|];
      [|by apply dispatched_ready_none].
    eexists [_]. split.
    + rewrite exec_seq. unfold queueAdd. rewrite exec_emit, jobs_snoc.
      by rewrite jobs_storeUpdateStatus.
    + intros j Hj. apply list_elem_of_singleton in Hj as ->. by left.
  - by apply dispatched_ready_none.
Qed.

Lemma dispatched_ready_deliver d w :
  ¬ is_autofix_result d →
  dispatched_ready (projectOf d) w (exec (deliver enqueueOptions d) w).
Proof.
  destruct d as [event|event|p]; simpl; intros Hna.
  - apply dispatched_ready_none, progress_jobs.
  - unfold handleWorkerResult.
    destruct (r_type event) as [t|]; [|done].
    destruct (truthy_str _).
    + apply dispatched_ready_none, failure_jobs.
    + destruct (_ && _); [apply dispatched_ready_verify|].
      apply dispatched_ready_update.
  - apply dispatched_ready_enqueue.
Qed.

(** X16 (only ready tasks are dispatched).  Whatever the table holds,
    a delivery other than a result of the autofix worker adds jobs for
    ready tasks only: each job it adds is either the autofix job of a
    soft-failed verify task, or the job of a task of the project whose
    row is running afterwards and all of whose dependencies are
    completed. *)
Theorem X16_only_ready_tasks_are_dispatched (d : Delivery) (w : World) :
  ¬ is_autofix_result d →
  let p := projectOf d in
  let w' := exec (deliver enqueueOptions d) w in
  ∃ js, jobs w' = jobs w ++ js ∧
    ∀ j, j ∈ js →
      j_queue j = autofixer ∨
      ∃ ts, ts ∈ tasks w' ∧ projectId ts = p ∧
            j_queue j = resolveQueue (type ts) ∧
            j_name j = p +:+ ":" +:+ nodeId ts ∧
            status ts = running ∧
            ∀ dep r, dep ∈ dependencies ts → r ∈ tasks w' →
                     has_key p dep r → status r = completed.
Proof.
  intros Hna p w'.
  destruct (dispatched_ready_deliver d w Hna) as (js & Hjs & Hall).
  exists js. split; [done|]. intros j Hj.
  destruct (Hall j Hj) as [?|(ts & Hin & Hp & [Hq Hn] & Hs & Hd)];
    [by left|right].
  exists ts. repeat split; try done.
  intros dep r Hdep Hr Hk. by apply (Hd dep Hdep r).
Qed.

End Dispatch.

Section Repair.
Import Store Dispatcher.
Variable enqueueOptions : option EnqueueOptions.

Lemma getTask_updateStatus_is_Some p n s meta t :
  is_Some (getTask p n t) →
  is_Some (getTask p n (updateStatus p n s meta t)).
Proof.
  rewrite getTask_updateStatus. unfold getTask.
  destruct (List.find _ t); [by eauto|]. by intros [? ?].
Qed.

(** One round: the verdict asks for the autofix job, the repair puts the
    task back on its queue. *)
Lemma repair_round (verdict repair : WorkerResultEvent) w :
  r_type verdict = Node Planner.verify →
  truthy_str (r_error verdict) = false →
  prop "status" (r_result verdict) = Some (JStr "soft_fail") →
  r_type repair = Autofix →
  truthy_str (r_error repair) = false →
  r_projectId repair = r_projectId verdict →
  r_nodeId repair = r_nodeId verdict →
  is_Some (getTask (r_projectId verdict) (r_nodeId verdict) (tasks w)) →
  let w2 := exec (handleWorkerResult enqueueOptions repair)
                 (exec (handleWorkerResult enqueueOptions verdict) w) in
  is_Some (getTask (r_projectId verdict) (r_nodeId verdict) (tasks w2)) ∧
  length (jobs w2) = length (jobs w) + 2 ∧
  ∀ r, r ∈ tasks w2 →
       has_key (r_projectId verdict) (r_nodeId verdict) r →
       status r = running.
Proof.
  intros Hty1 He1 Hs1 Hty2 He2 Hp Hn [task Htask] w2. subst w2.
  rewrite (soft_fail_run enqueueOptions w verdict Hty1 He1 Hs1), Htask.
  cbv zeta.
  set (p := r_projectId verdict) in *. set (n := r_nodeId verdict) in *.
  set (meta1 := {| m_result := _; m_metadata := Some (softFailMetadata _ _) |}).
  set (w1 := {| tasks := updateStatus p n blocked meta1 (tasks w) |}).
  assert (is_Some (getTask (r_projectId repair) (r_nodeId repair) (tasks w1)))
    as [task1 Htask1].
  { rewrite Hp, Hn. apply getTask_updateStatus_is_Some. by exists task. }
  destruct (autofix_success_run enqueueOptions w1 repair task1 Hty2 He2 Htask1)
    as (refreshed & _ & _ & _ & _ & ->).
  rewrite Hp, Hn. fold p n. subst w1. simpl tasks. split; [|split].
  - do 3 apply getTask_updateStatus_is_Some. by exists task.
  - unfold jobs. simpl calls. rewrite !omap_app. simpl.
    rewrite !length_app. simpl. lia.
  - intros r Hr Hk.
    by apply updateStatus_hit in Hr as (r0 & _ & _ & ->).
Qed.

Lemma exec_deliverAll_cons d ds w :
  exec (deliverAll enqueueOptions (d :: ds)) w =
  exec (deliverAll enqueueOptions ds) (exec (deliver enqueueOptions d) w).
Proof. unfold deliverAll. simpl forEach. by rewrite exec_seq. Qed.

(** X19 (repair has no bound).  As long as the verifier answers
    soft_fail and the autofix job succeeds, the dispatcher goes round:
    each round adds the autofix job and then the verify job again, the
    task is running after it, and nothing counts the rounds.  After [k]
    rounds [2k] jobs have been added and the task is still neither
    completed nor failed. *)
Theorem X19_repair_rounds_have_no_bound
    (verdict repair : WorkerResultEvent) (w : World) (k : nat) :
  r_type verdict = Node Planner.verify →
  truthy_str (r_error verdict) = false →
  prop "status" (r_result verdict) = Some (JStr "soft_fail") →
  r_type repair = Autofix →
  truthy_str (r_error repair) = false →
  r_projectId repair = r_projectId verdict →
  r_nodeId repair = r_nodeId verdict →
  is_Some (getTask (r_projectId verdict) (r_nodeId verdict) (tasks w)) →
  let w' := exec (deliverAll enqueueOptions (repairRounds verdict repair k)) w
  in
  length (jobs w') = length (jobs w) + 2 * k ∧
  is_Some (getTask (r_projectId verdict) (r_nodeId verdict) (tasks w')) ∧
  (0 < k → ∀ r, r ∈ tasks w' →
           has_key (r_projectId verdict) (r_nodeId verdict) r →
           status r = running).
Proof.
  intros Hty1 He1 Hs1 Hty2 He2 Hp Hn. revert w.
  induction k as [|k IH]; intros w Htask; cbv zeta.
  - unfold repairRounds, deliverAll. simpl. rewrite exec_ret.
    split; [lia|]. split; [done|]. lia.
  - unfold repairRounds. simpl List.concat.
    rewrite !exec_deliverAll_cons. simpl deliver.
    destruct (repair_round verdict repair w Hty1 He1 Hs1 Hty2 He2 Hp Hn Htask)
      as (Htask2 & Hlen2 & Hrun2).
    set (w2 := exec (handleWorkerResult enqueueOptions repair) _) in *.
    destruct (IH w2 Htask2) as (Hlen & Htask' & Hrun).
    fold (repairRounds verdict repair k).
    split; [lia|]. split; [done|]. intros _.
    destruct k as [|k]; [|apply Hrun; lia].
    unfold repairRounds, deliverAll. simpl. by rewrite exec_ret.
Qed.

Lemma find_getTasks p ds x t :
  x ∈ ds →
  List.find (fun dep => bool_decide (nodeId dep = x)) (getTasks p ds t) =
  getTask p x t.
Proof.
  intros Hx. unfold getTasks, getTask.
  destruct ds as [|d ds]; [by apply elem_of_nil in Hx|].
  induction t as [|a t IH]; [done|]. simpl.
  destruct (decide (projectId a = p)) as [Hp|Hp].
  - rewrite (bool_decide_eq_true_2 _ Hp). simpl.
    destruct (decide (nodeId a = x)) as [Hn|Hn].
    + rewrite (bool_decide_eq_true_2 (nodeId a ∈ d :: ds))
        by (by rewrite Hn).
      simpl. rewrite (bool_decide_eq_true_2 _ Hn).
      by rewrite (bool_decide_eq_true_2 (has_key p x a)).
    + rewrite (bool_decide_eq_false_2 (has_key p x a)) by (by intros [_ ?]).
      destruct (bool_decide (nodeId a ∈ d :: ds)); simpl; [|done].
      by rewrite (bool_decide_eq_false_2 _ Hn).
  - rewrite (bool_decide_eq_false_2 _ Hp). simpl.
    by rewrite (bool_decide_eq_false_2 (has_key p x a)) by (by intros [? _]).
Qed.

(** X20 (the draft of the verify job after a repair).  After a
    successful autofix the verify task is enqueued again; the draft its
    job carries is the draft of the result of the write task it depends
    on whenever that result has one, and only otherwise the patched
    draft of the autofix result (or, failing that, the draft kept in the
    task's metadata). *)
Theorem X20_reverify_job_takes_the_writers_draft_first
    (w : World) (event : WorkerResultEvent) (task : TaskRecord)
    (wid : string) :
  r_type event = Autofix →
  truthy_str (r_error event) = false →
  getTask (r_projectId event) (r_nodeId event) (tasks w) = Some task →
  type task = Planner.verify →
  List.find (startsWith "write") (dependencies task) = Some wid →
  wid ≠ r_nodeId event →
  let p := r_projectId event in
  let writerDraft := prop "draft" (getTask p wid (tasks w) ≫= result) in
  let patched := prop "draft" (r_result event) in
  let stored := metadata task !! "draft" in
  ∃ j, jobs (exec (handleWorkerResult enqueueOptions event) w) =
         jobs w ++ [j] ∧
       j_queue j = verifier ∧
       j_name j = p +:+ ":" +:+ r_nodeId event ∧
       ("draft", writerDraft ?? (patched ?? stored)) ∈ j_payload j.
Proof.
  intros Htype Herror Htask Hverify Hwrite Hne p writerDraft patched stored.
  destruct (autofix_success_run enqueueOptions w event task Htype Herror Htask)
    as (refreshed & Hre & Hty & Hn & Hst & ->).
  fold p in Hre |- *. set (n := r_nodeId event) in *.
  eexists. split; [|split; [|split]].
  - unfold jobs. simpl calls. rewrite omap_app. simpl. reflexivity.
  - simpl. by rewrite Hverify.
  - done.
  - simpl j_payload.
    rewrite getTask_updateStatus in Hre.
    pose proof Htask as Hfind. unfold getTask in Hfind. fold p n in Hfind.
    destruct (List.find _ (tasks w)) as [r0|] eqn:Hf0; [|done].
    simpl in Hfind, Hre. injection Hfind as <-. injection Hre as <-.
    simpl in Hverify, Hwrite.
    unfold buildJobPayload, mbind, M_bind, read, mret, M_ret. simpl.
    rewrite Hverify, Hwrite. simpl.
    apply list_elem_of_further, list_elem_of_further, elem_of_cons. left.
    f_equal. f_equal.
    + f_equal. rewrite find_getTasks.
      * by rewrite getTask_updateStatus_other by congruence.
      * apply list_elem_of_In. by apply (find_some _ _ Hwrite).
    + unfold autofixMetadata.
      rewrite lookup_stringify_delete_ne by done.
      rewrite lookup_stringify_delete_ne by done.
      by rewrite lookup_stringify_insert.
Qed.

End Repair.

Section UnknownTask.
Import Store Dispatcher.
Variable enqueueOptions : option EnqueueOptions.

Lemma unknown_update p n s meta w :
  getTask p n (tasks w) = None →
  tasks (exec (storeUpdateStatus p n s meta) w) = tasks w ∧
  jobs (exec (storeUpdateStatus p n s meta) w) = jobs w.
Proof.
  intros Hnone. split; [|apply jobs_storeUpdateStatus].
  unfold storeUpdateStatus. rewrite exec_emit. simpl.
  by apply updateStatus_absent.
Qed.

Lemma unknown_failure p n meta w :
  getTask p n (tasks w) = None →
  tasks (exec (storeUpdateStatus p n failed meta ;;
               blockDependentsOnFailure p n) w) = tasks w ∧
  jobs (exec (storeUpdateStatus p n failed meta ;;
              blockDependentsOnFailure p n) w) = jobs w.
Proof.
  intros Hnone. split; [|apply failure_jobs].
  rewrite failure_tasks, Hnone. by apply updateStatus_absent.
Qed.

Lemma unknown_completion p n meta w :
  getTask p n (tasks w) = None →
  let w' := exec (storeUpdateStatus p n completed meta ;;
                  enqueueReadyTasks enqueueOptions p) w in
  tasks w' = tasks (exec (enqueueReadyTasks enqueueOptions p) w) ∧
  jobs w' = jobs (exec (enqueueReadyTasks enqueueOptions p) w).
Proof.
  intros Hnone w'. subst w'.
  destruct (completion_world enqueueOptions p n meta w) as [-> ->].
  rewrite (updateStatus_absent p n completed meta (tasks w) Hnone).
  by rewrite tasks_enqueueReadyTasks, jobs_enqueueReadyTasks.
Qed.

Lemma not_completing_branch event t :
  ¬ completing event → r_type event = Node t →
  truthy_str (r_error event) = false →
  t = Planner.verify ∧
  truthy (prop "status" (r_result event)) = true ∧
  is_str "accept" (prop "status" (r_result event)) = false.
Proof.
  intros Hnc Htype Herror.
  destruct (decide (t = Planner.verify)) as [->|Hne]; cycle 1.
  { exfalso. apply Hnc. exists t. by repeat split; [..|left]. }
  split; [done|].
  destruct (truthy (prop "status" (r_result event))) eqn:Hs; cycle 1.
  { exfalso. apply Hnc. exists Planner.verify.
    split; [done|]. split; [done|]. right. by left. }
  split; [done|]. apply is_str_false. intros Hacc. apply Hnc.
  exists Planner.verify. split; [done|]. split; [done|]. right. by right.
Qed.

(** X28 (events about a task the store does not hold).  A delivery
    that names a task without a row creates no row and fails nothing:
    a progress event, a failure, a verify verdict other than accept and
    an autofix result leave the table and the queues as they were; a
    result that would complete the task does what resume does, no
    more. *)
Theorem X28_events_about_unknown_tasks_write_nothing
    (d : Delivery) (p n : string) (w : World) :
  getTask p n (tasks w) = None →
  target d = Some (p, n) →
  let w' := exec (deliver enqueueOptions d) w in
  let resumed := exec (Orchestrator.resume enqueueOptions p) w in
  ((∀ event, d = Result event → ¬ completing event) →
   tasks w' = tasks w ∧ jobs w' = jobs w) ∧
  (∀ event, d = Result event → completing event →
   tasks w' = tasks resumed ∧ jobs w' = jobs resumed).
Proof.
  intros Hnone Ht w' resumed. subst w' resumed. split.
  - intros Hnc. destruct d as [event|event|q]; simpl in *; [| |done].
    + injection Ht as <- <-. unfold handleWorkerProgress.
      destruct (p_type event), (p_status event); try done.
      * by apply unknown_update.
      * by apply unknown_failure.
      * by apply (unknown_failure (p_projectId event) (p_nodeId event)).
    + injection Ht as <- <-. specialize (Hnc event eq_refl).
      unfold handleWorkerResult.
      destruct (r_type event) as [t|] eqn:Htype.
      * destruct (truthy_str (r_error event)) eqn:Herror;
          [by apply unknown_failure|].
        destruct (not_completing_branch event t Hnc Htype Herror)
          as (-> & Hs & Hacc).
        rewrite bool_decide_eq_true_2 by done. rewrite Hs. simpl.
        unfold handleVerifyResult. rewrite Hacc.
        rewrite (truthy_prop "status" _ Hs). simpl.
        destruct (is_str "hard_fail" _); [by apply unknown_failure|].
        destruct (is_str "soft_fail" _); [|done].
        rewrite exec_read_bind. by rewrite Hnone.
      * destruct (truthy_str (r_error event)).
        -- by apply unknown_failure.
        -- unfold handleAutofixSuccess. rewrite exec_read_bind.
           by rewrite Hnone.
  - intros event -> Hc. simpl in Ht. injection Ht as <- <-. simpl.
    rewrite (completing_run enqueueOptions event w Hc).
    by apply unknown_completion.
Qed.

End UnknownTask.

Section DataFlow.
Import Store Dispatcher.
Variable enqueueOptions : option EnqueueOptions.

(** What a dependent finds as the result of the task just completed. *)
Lemma fresh_result p n meta t task v ds :
  getTask p n t = Some task → m_result meta = Some v → v ≠ JNull →
  n ∈ ds →
  List.find (fun dep => bool_decide (nodeId dep = n))
            (getTasks p ds (updateStatus p n completed meta t))
    ≫= result = Some v.
Proof.
  intros Htask Hm Hv Hn. rewrite find_getTasks by done.
  rewrite getTask_updateStatus. unfold getTask in Htask.
  destruct (List.find _ t) as [r0|]; [|done]. simpl. rewrite Hm.
  unfold coalesce. by destruct v.
Qed.

(** X29 (a released task sees the result just stored).  When a result
    event completes a task that has a row, with a result that is stored
    and not null, the job of a dependent released by the same delivery
    is built from that result: a retrieve job takes its queries from it
    (the completed task being the first dependency), a write job its
    prompt (the completed task being its prepare dependency), a verify
    job its draft (its write dependency) and an assemble job its draft
    (its verify dependency); the task's own metadata is the fallback
    when the result lacks the field. *)
Theorem X29_released_job_is_built_from_the_fresh_result
    (w : World) (event : WorkerResultEvent) (m task : TaskRecord)
    (v : json) :
  completing event →
  getTask (r_projectId event) (r_nodeId event) (tasks w) = Some task →
  storedResult event = Some v → v ≠ JNull →
  m ∈ tasks w →
  projectId m = r_projectId event →
  status m = pending →
  nodeId m ≠ r_nodeId event →
  (∀ dep, dep ∈ dependencies m →
          dep = r_nodeId event ∨
          finished (tasks w) (r_projectId event) dep) →
  let p := r_projectId event in
  let n := r_nodeId event in
  let md := fun k => metadata m !! k in
  ∃ js j,
    jobs (exec (handleWorkerResult enqueueOptions event) w) = jobs w ++ js ∧
    j ∈ js ∧ job_of_row p j m ∧
    (type m = Planner.retrieve → head (dependencies m) = Some n →
     ("queries", prop "queries" (Some v) ?? md "queries" ?? Some (JArr []))
     ∈ j_payload j) ∧
    (type m = Planner.write →
     List.find (startsWith "prepare") (dependencies m) = Some n →
     ("prompt", prop "user_prompt_text" (prop "prompts" (Some v)) ??
                md "prompt" ?? Some (JStr ""))
     ∈ j_payload j) ∧
    (type m = Planner.verify →
     List.find (startsWith "write") (dependencies m) = Some n →
     ("draft", prop "draft" (Some v) ?? md "draft") ∈ j_payload j) ∧
    (type m = Planner.assemble →
     List.find (startsWith "verify") (dependencies m) = Some n →
     ("draft", prop "draft" (Some v) ?? md "draft") ∈ j_payload j).
Proof.
  intros Hc Htask Hv Hnull Hin Hp Hs Hne Hdeps p n md.
  rewrite (completing_run enqueueOptions event w Hc). fold p n.
  set (meta := {| m_result := storedResult event; m_error := None;
                  m_retries := None; m_metadata := None |}).
  destruct (completion_world enqueueOptions p n meta w) as [_ Hj].
  set (t1 := updateStatus p n completed meta (tasks w)) in *.
  assert (m ∈ list_ready_tasks p t1) as Hready.
  { apply list_ready_tasks_spec. split; [|split; [done|split; [done|]]].
    - apply updateStatus_miss; [|done]. by intros [_ ?].
    - intros dep Hdep. by apply finished_after_completed, Hdeps. }
  assert (∀ ds, n ∈ ds →
            List.find (fun dep => bool_decide (nodeId dep = n))
                      (getTasks p ds t1) ≫= result = Some v) as Hfresh.
  { intros ds Hds. by apply (fresh_result p n meta (tasks w) task). }
  exists (map (jobFor enqueueOptions p t1) (listReadyTasks p t1)),
         (jobFor enqueueOptions p t1 (ready_record m)).
  split; [done|]. split.
  { apply (list_elem_of_fmap_2 (jobFor enqueueOptions p t1)).
    apply listReadyTasks_spec. by exists m. }
  split; [done|].
  unfold jobFor, payloadOf, buildJobPayload, mbind, M_bind, read, mret,
    M_ret. simpl.
  split; [|split; [|split]]; intros Hty Hfind; rewrite Hty; simpl;
    rewrite Hfind; simpl.
  - apply list_elem_of_further, list_elem_of_further, elem_of_cons. left.
    rewrite Hfresh; [done|]. destruct (dependencies m); [done|].
    simpl in Hfind. injection Hfind as ->. apply list_elem_of_here.
  - do 3 apply list_elem_of_further. apply elem_of_cons. left.
    rewrite Hfresh; [done|].
    apply list_elem_of_In. by apply (find_some _ _ Hfind).
  - apply list_elem_of_further, list_elem_of_further, elem_of_cons. left.
    rewrite Hfresh; [done|].
    apply list_elem_of_In. by apply (find_some _ _ Hfind).
  - do 3 apply list_elem_of_further. apply elem_of_cons. left.
    rewrite Hfresh; [done|].
    apply list_elem_of_In. by apply (find_some _ _ Hfind).
Qed.

End DataFlow.
(* ===================================================================== *)
(** * Scheduling a planned document *)
(* ===================================================================== *)

Section ScheduleRun.
Import Store Dispatcher.
Variable enqueueOptions : option EnqueueOptions.

Lemma rows_of_app p a b : rows_of p (a ++ b) = rows_of p a ++ rows_of p b.
Proof.
  unfold rows_of. induction a as [|r a IH]; [done|]. simpl.
  destruct (bool_decide _); simpl; by rewrite IH.
Qed.

Lemma rows_of_new_rows p ns :
  rows_of p (map (new_row p) ns) = map (new_row p) ns.
Proof.
  unfold rows_of. induction ns as [|n ns IH]; [done|]. simpl.
  rewrite bool_decide_eq_true_2 by done. by rewrite IH.
Qed.

Lemma rows_of_new_rows_other p q ns :
  q ≠ p → rows_of q (map (new_row p) ns) = [].
Proof.
  intros Hne. unfold rows_of. induction ns as [|n ns IH]; [done|]. simpl.
  rewrite bool_decide_eq_false_2 by (simpl; congruence). done.
Qed.

Lemma Forall2_rows_of (R : TaskRecord → TaskRecord → Prop) p l l' :
  (∀ r r', R r r' → projectId r' = projectId r) →
  Forall2 R l l' → Forall2 R (rows_of p l) (rows_of p l').
Proof.
  intros HR H. unfold rows_of.
  induction H as [|r r' l l' Hr _ IH]; [constructor|]. simpl.
  rewrite (HR r r' Hr). destruct (bool_decide _); [by constructor|done].
Qed.

Lemma rows_of_map p (g : TaskRecord → TaskRecord) t :
  (∀ r, projectId (g r) = projectId r) →
  rows_of p (map g t) = map g (rows_of p t).
Proof.
  intros Hg. unfold rows_of. induction t as [|a t IH]; [done|]. simpl.
  rewrite Hg. destruct (bool_decide _); simpl; by rewrite IH.
Qed.






Lemma rows_of_none p t :
  (∀ r, r ∈ t → projectId r ≠ p) → rows_of p t = [].
Proof.
  unfold rows_of. induction t as [|a t IH]; [done|]. intros Hother. simpl.
  rewrite bool_decide_eq_false_2 by (apply Hother, list_elem_of_here).
  apply IH. intros r Hr. by apply Hother, list_elem_of_further.
Qed.

Lemma persisted_rows p dag t t1 :
  persistDag p dag t = Some t1 →
  (∀ r, r ∈ t → projectId r ≠ p) →
  Forall2 (fun n r => wired_from p (Planner.edges dag) (new_row p n) r)
          (Planner.nodes dag) (rows_of p t1) ∧
  ∀ q, q ≠ p → rows_of q t1 = rows_of q t.
Proof.
  intros Hpersist Hother.
  destruct (persistDag_wired p dag t t1 Hpersist) as [Hw _].
  pose proof (rows_of_none p t Hother) as Hnone.
  split.
  - assert (Forall2 (wired_from p (Planner.edges dag))
              (rows_of p (t ++ map (new_row p) (Planner.nodes dag)))
              (rows_of p t1)) as Hrows.
    { apply Forall2_rows_of; [|done]. intros r r' (Heq & _).
      by rewrite Heq. }
    rewrite rows_of_app, Hnone, rows_of_new_rows in Hrows. simpl in Hrows.
    change (map (new_row p) (Planner.nodes dag))
      with (new_row p <$> Planner.nodes dag) in Hrows.
    exact (proj1 (Forall2_fmap_l (new_row p) _ _ _) Hrows).
  - intros q Hq.
    rewrite (rows_of_kept p q (t ++ map (new_row p) (Planner.nodes dag)) t1
               Hq).
    + by rewrite rows_of_app, rows_of_new_rows_other, app_nil_r.
    + eapply Forall2_impl; [exact Hw|].
      intros r r' (Heq & Ho & _). split; [by rewrite Heq|done].
Qed.


Lemma schedule_rows p context w w' :
  NoDup (map key_of (tasks w)) →
  schedule enqueueOptions p (Planner.buildDag context) true w = Some w' →
  Forall2 (fun n r =>
             nodeId r = Planner.id n ∧
             dependencies r = Planner.dependencies n ∧
             NoDup (dependents r) ∧
             ∀ m, m ∈ dependents r ↔
                  ∃ e, e ∈ Planner.edges (Planner.buildDag context) ∧
                       Planner.from e = Planner.id n ∧ Planner.to e = m)
          (Planner.nodes (Planner.buildDag context))
          (rows_of p (tasks w')).
Proof.
  intros Hnd. unfold schedule.
  destruct (persistDag p _ (clearProject p (tasks w))) as [t1|] eqn:Hp;
    [|done].
  simpl. intros [= <-].
  destruct (persisted_rows p _ _ t1 Hp) as [Hwired _].
  { intros r Hr. by apply elem_of_clearProject in Hr as [_ ?]. }
  rewrite tasks_enqueueReadyTasks. simpl tasks.
  rewrite rows_of_map by (intros r; unfold mark_running;
                          by destruct (decide _)).
  apply Forall2_fmap_r.
  eapply Forall2_impl; [exact Hwired|].
  intros n r (Heq & _ & Hnd' & Hmem). simpl.
  assert (nodeId r = Planner.id n ∧
          dependencies r = Planner.dependencies n) as [Hn Hd]
    by (by rewrite Heq).
  unfold mark_running.
  assert (∀ m, m ∈ dependents r ↔
               ∃ e, e ∈ Planner.edges (Planner.buildDag context) ∧
                    Planner.from e = Planner.id n ∧ Planner.to e = m)
    as Hmem'.
  { intros m. rewrite Hmem. simpl. split.
    - intros [H|(_ & H)]; [by apply elem_of_nil in H|done].
    - intros H. right. by split. }
  specialize (Hnd' (NoDup_nil_2 (A := string))).
  destruct (decide _); simpl;
    (split; [done|]; split; [done|]; split; [done|]; exact Hmem').
Qed.

Lemma elem_of_rows_of p t r :
  r ∈ rows_of p t ↔ r ∈ t ∧ projectId r = p.
Proof.
  unfold rows_of.
  by rewrite list_elem_of_In, filter_In, <- list_elem_of_In,
             bool_decide_eq_true.
Qed.

Lemma schedule_dependents_inverse p context w w' :
  NoDup (map key_of (tasks w)) →
  distinct_chapters (Planner.flattenOutline (Planner.outline context)) →
  (∀ e, e ∈ Planner.flattenOutline (Planner.outline context) →
        cid e ≠ "document") →
  schedule enqueueOptions p (Planner.buildDag context) true w = Some w' →
  ∀ r, r ∈ tasks w' → projectId r = p →
    NoDup (dependents r) ∧
    ∀ m, m ∈ dependents r ↔
         ∃ r2, r2 ∈ tasks w' ∧ projectId r2 = p ∧ nodeId r2 = m ∧
               nodeId r ∈ dependencies r2.
Proof.
  intros Hnd Hdist Hdoc Hs r Hr Hp.
  pose proof (schedule_rows p context w w' Hnd Hs) as Hrows.
  assert (r ∈ rows_of p (tasks w')) as Hin by (by apply elem_of_rows_of).
  apply list_elem_of_lookup in Hin as (i & Hi).
  destruct (Forall2_lookup_r _ _ _ _ _ Hrows Hi)
    as (n & Hn & Hid & Hdeps & Hnodup & Hmem).
  split; [done|]. intros m. rewrite Hmem. split.
  - intros (e & He & Hfrom & Hto).
    destruct (buildDag_edge_dependency context e Hdist Hdoc He)
      as (n2 & Hn2 & Hid2 & Hdep2).
    apply list_elem_of_lookup in Hn2 as (i2 & Hi2).
    destruct (Forall2_lookup_l _ _ _ _ _ Hrows Hi2)
      as (r2 & Hr2 & Hid' & Hdeps' & _).
    apply list_elem_of_lookup_2, elem_of_rows_of in Hr2 as [Hr2 Hp2].
    exists r2. repeat split; try done; congruence.
  - intros (r2 & Hr2 & Hp2 & Hid2 & Hdep2).
    assert (r2 ∈ rows_of p (tasks w')) as Hin2
      by (by apply elem_of_rows_of).
    apply list_elem_of_lookup in Hin2 as (i2 & Hi2).
    destruct (Forall2_lookup_r _ _ _ _ _ Hrows Hi2)
      as (n2 & Hn2 & Hid' & Hdeps' & _).
    apply list_elem_of_lookup_2 in Hn2.
    destruct (buildDag_dependency_edge context n2 (nodeId r) Hn2)
      as (e & He & Hfrom & Hto); [congruence|].
    exists e. repeat split; try done; congruence.
Qed.

(** X22 (dependents mirror dependencies).  After an outline with
    pairwise distinct chapter numbers, none of them "document", has been
    scheduled, the dependents list of every task of the project names,
    each once, exactly the tasks of the project that list the task among
    their dependencies. *)
Theorem X22_schedule_wires_dependents_to_dependencies
    (assets : list Planner.AssetIndexRecord) (p : string)
    (outline : list Planner.OutlineNode)
    (options : Orchestrator.ScheduleOptions) (w w' : World)
    (dag : Planner.TaskDag) :
  NoDup (map key_of (tasks w)) →
  distinct_chapters (Planner.flattenOutline outline) →
  (∀ e, e ∈ Planner.flattenOutline outline → cid e ≠ "document") →
  Orchestrator.schedule enqueueOptions assets p outline options w
    = Some (dag, w') →
  ∀ r, r ∈ tasks w' → projectId r = p →
    NoDup (dependents r) ∧
    ∀ m, m ∈ dependents r ↔
         ∃ r2, r2 ∈ tasks w' ∧ projectId r2 = p ∧ nodeId r2 = m ∧
               nodeId r ∈ dependencies r2.
Proof.
  intros Hnd Hdist Hdoc Hs.
  unfold Orchestrator.schedule in Hs. cbv zeta in Hs.
  destruct (schedule _ _ _ _ _) as [w1|] eqn:Hs1; [|done].
  simpl in Hs. injection Hs as _ <-.
  exact (schedule_dependents_inverse p
           (Orchestrator.plannerContext assets p outline options)
           w w1 Hnd Hdist Hdoc Hs1).
Qed.


End ScheduleRun.

Section WritePrompt.
Import Store Dispatcher.

Lemma find_getTasks_absent p ds x t :
  x ∉ ds →
  List.find (fun dep => bool_decide (nodeId dep = x)) (getTasks p ds t)
  = None.
Proof.
  intros Hx. unfold getTasks. destruct ds as [|d ds]; [done|].
  induction t as [|a t IH]; [done|]. simpl.
  destruct (bool_decide (projectId a = p)); simpl; [|done].
  destruct (decide (nodeId a ∈ d :: ds)) as [Hin|Hin].
  - rewrite (bool_decide_eq_true_2 _ Hin). simpl.
    rewrite bool_decide_eq_false_2; [done|]. intros E. apply Hx.
    by rewrite <- E.
  - by rewrite (bool_decide_eq_false_2 _ Hin).
Qed.

(** X30 (the write job behind a retrieve task).  When some asset is
    ready, the write task of a planned chapter depends on the chapter's
    retrieve task alone, and buildJobPayload looks for the prompt only
    in the result of a dependency whose id starts with "prepare": the
    payload of the write job, whatever the table holds, carries the
    prompt of the task's own metadata, which the planner does not set,
    that is the empty string. *)
Theorem X30_write_job_behind_retrieve_has_empty_prompt
    (context : Planner.PlannerContext) (e : Planner.FlattenedOutlineNode)
    (p : string) (t : table) (r : TaskRecord) :
  some_asset_ready context →
  let n := Planner.writeNode context (Planner.hasEmbed context)
                             (Planner.hasTable context) e in
  type r = Planner.write →
  dependencies r = Planner.dependencies n →
  metadata r = metadata (new_row p n) →
  dependencies r = [Planner.retrieveId e] ∧
  ("prompt", Some (JStr "")) ∈ payloadOf p t r.
Proof.
  intros Hready n Hty Hdeps Hmeta.
  pose proof (some_asset_ready_flags context Hready) as Hflag.
  assert (dependencies r = [Planner.retrieveId e]) as Hd.
  { rewrite Hdeps. subst n. simpl. unfold Planner.lastDependency.
    by rewrite Hflag. }
  split; [done|].
  unfold payloadOf, buildJobPayload, mbind, M_bind, read, mret, M_ret.
  simpl. rewrite Hty, Hd. simpl.
  do 3 apply list_elem_of_further. apply elem_of_cons. left.
  f_equal.
  assert ("" ∉ [Planner.retrieveId e]) as Hx.
  { intros Hin. apply list_elem_of_singleton in Hin. discriminate. }
  pose proof (find_getTasks_absent p [Planner.retrieveId e] "" t Hx) as E.
  unfold getTasks in E. rewrite E.
  simpl. rewrite Hmeta. subst n. simpl.
  rewrite lookup_stringify. unfold literal_to_map. simpl.
  repeat (rewrite lookup_insert_ne by done).
  by rewrite lookup_empty.
Qed.

End WritePrompt.
(* ===================================================================== *)
(** * From the queues back to the dispatcher *)
(* ===================================================================== *)

Section WorkerRouting.
Import Store Dispatcher.
Variable enqueueOptions : option EnqueueOptions.

Lemma jobTask_payloadOf p t task :
  Workers.jobTask (payloadOf p t task) = Some (p, nodeId task).
Proof.
  unfold payloadOf, buildJobPayload, mbind, M_bind, read, mret, M_ret.
  simpl. unfold Workers.jobTask, Workers.jobData.
  destruct (type task); simpl;
    rewrite !lookup_stringify; unfold literal_to_map; simpl;
    repeat (rewrite lookup_insert_ne by done);
    rewrite lookup_insert_eq; simpl;
    repeat (rewrite lookup_insert_ne by done);
    by rewrite lookup_insert_eq.
Qed.

Lemma jobTask_autofixJob p n verifyResult :
  Workers.jobTask (j_payload (autofixJob p n verifyResult)) = Some (p, n).
Proof.
  unfold Workers.jobTask, Workers.jobData, autofixJob. simpl.
  rewrite !lookup_stringify. unfold literal_to_map. simpl.
  repeat (rewrite lookup_insert_ne by done).
  rewrite lookup_insert_eq. simpl.
  repeat (rewrite lookup_insert_ne by done).
  by rewrite lookup_insert_eq.
Qed.

Lemma worker_of_queue k ty q :
  (k, ty) ∈ Workers.dagWorkers →
  Workers.QueueNames k = Workers.QueueNames (Workers.keyOf q) →
  match q with
  | autofixer => ty = Autofix
  | _ => ∃ t, ty = Node t ∧ resolveQueue t = q
  end.
Proof.
  unfold Workers.dagWorkers. intros Hin Hname.
  repeat (apply elem_of_cons in Hin as [[= -> ->]|Hin];
          [destruct q; vm_compute in Hname; try discriminate;
           first [done | by eexists]|]).
  by apply elem_of_nil in Hin.
Qed.

(** X25 (jobs come back as events of their task).  The job the
    dispatcher adds for a task lands on a queue on which a worker
    listens, and every worker that listens on a queue of that name
    reports with the kind of the task: the events it hands to the
    dispatcher when the job becomes active, completes or fails name the
    project and the task the job was added for.  The same holds for the
    autofix job of a soft-failed verify task, whose events carry the
    kind autofix. *)
Theorem X25_jobs_come_back_as_events_of_their_task
    (p : string) (t : table) (task : TaskRecord)
    (k : Workers.QueueKey) (ty : EventType)
    (result : jsv) (message : option string) :
  let j := jobFor enqueueOptions p t task in
  (k, ty) ∈ Workers.dagWorkers →
  Workers.QueueNames k = Workers.QueueNames (Workers.keyOf (j_queue j)) →
  ty = Node (type task) ∧
  Workers.onActive ty (j_payload j) =
    Some {| p_projectId := p; p_nodeId := nodeId task;
            p_type := Node (type task); p_status := PRunning;
            p_error := None |} ∧
  Workers.onCompleted ty (j_payload j) result =
    Some {| r_projectId := p; r_nodeId := nodeId task;
            r_type := Node (type task); r_result := result;
            r_error := None |} ∧
  Workers.onFailed ty (j_payload j) message =
    Some {| p_projectId := p; p_nodeId := nodeId task;
            p_type := Node (type task); p_status := PFailed;
            p_error := message |} ∧
  (Workers.keyOf (j_queue j), Node (type task)) ∈ Workers.dagWorkers.
Proof.
  intros j Hin Hname. simpl in Hname.
  pose proof (worker_of_queue k ty _ Hin Hname) as Hq.
  assert (ty = Node (type task)) as ->.
  { destruct (type task); destruct Hq as (t0 & -> & Hq);
      by destruct t0. }
  split; [done|].
  unfold Workers.onActive, Workers.onCompleted, Workers.onFailed.
  simpl. rewrite jobTask_payloadOf. simpl.
  split; [done|]. split; [done|]. split; [done|].
  unfold Workers.dagWorkers.
  destruct (type task); simpl;
    solve [repeat first [apply list_elem_of_here
                        |apply list_elem_of_further]].
Qed.

(** X26 (autofix jobs come back as autofix events).  The autofix job
    asked for a soft-failed verify task is taken by a worker that
    reports with the kind autofix, and its events name the verify task
    itself. *)
Theorem X26_autofix_jobs_come_back_for_the_verify_task
    (p n : string) (verifyResult : jsv)
    (k : Workers.QueueKey) (ty : EventType)
    (result : jsv) (message : option string) :
  let j := autofixJob p n verifyResult in
  (k, ty) ∈ Workers.dagWorkers →
  Workers.QueueNames k = Workers.QueueNames (Workers.keyOf (j_queue j)) →
  ty = Autofix ∧
  Workers.onCompleted ty (j_payload j) result =
    Some {| r_projectId := p; r_nodeId := n; r_type := Autofix;
            r_result := result; r_error := None |} ∧
  Workers.onFailed ty (j_payload j) message =
    Some {| p_projectId := p; p_nodeId := n; p_type := Autofix;
            p_status := PFailed; p_error := message |}.
Proof.
  intros j Hin Hname.
  pose proof (worker_of_queue k ty autofixer Hin Hname) as ->.
  split; [done|].
  unfold Workers.onCompleted, Workers.onFailed. subst j.
  by rewrite jobTask_autofixJob.
Qed.

End WorkerRouting.

Section RunInvariants.
Import Store Dispatcher.
Variable enqueueOptions : option EnqueueOptions.

Lemma deliver_keys d w :
  map key_of (tasks (exec (deliver enqueueOptions d) w)) =
  map key_of (tasks w).
Proof.
  pose proof (deliver_row_kept enqueueOptions d w) as H.
  induction H as [|r r' t t' ([(Hp & Hn & _) _] & _) _ IH]; [done|].
  simpl. rewrite IH. unfold key_of. by rewrite Hp, Hn.
Qed.

Lemma schedule_keys p dag w w' :
  schedule enqueueOptions p dag true w = Some w' →
  NoDup (map key_of (tasks w')).
Proof.
  unfold schedule.
  destruct (persistDag p dag _) as [t1|] eqn:Hp; [|done].
  simpl. intros [= <-].
  rewrite tasks_enqueueReadyTasks. simpl tasks.
  rewrite map_map.
  rewrite (map_ext (fun r => key_of (mark_running p _ r)) key_of).
  - destruct (persistDag_wired p dag _ t1 Hp) as [_ Hk]. rewrite Hk.
    unfold persistDag in Hp. by destruct (decide _).
  - intros r. unfold mark_running. by destruct (decide _).
Qed.

Lemma deliverAll_invariants p ds : ∀ w,
  NoDup (map key_of (tasks w)) → dependencies_persisted (tasks w) p →
  NoDup (map key_of (tasks (exec (deliverAll enqueueOptions ds) w))) ∧
  dependencies_persisted
    (tasks (exec (deliverAll enqueueOptions ds) w)) p.
Proof.
  induction ds as [|d ds IH]; intros w Hk Hrefs.
  - unfold deliverAll. simpl. by rewrite exec_ret.
  - rewrite exec_deliverAll_cons. apply IH.
    + by rewrite deliver_keys.
    + by apply deliver_dependencies_persisted.
Qed.

(** X27 (the table stays well-formed).  Once an outline has been
    scheduled, and after any deliveries whatsoever, in any order, the
    keys (project, node id) of the table are pairwise distinct and every
    dependency id of a task of the project names a task of the
    project. *)
Theorem X27_scheduled_tables_stay_well_formed
    (assets : list Planner.AssetIndexRecord) (p : string)
    (outline : list Planner.OutlineNode)
    (options : Orchestrator.ScheduleOptions) (w w' : World)
    (dag : Planner.TaskDag) (ds : list Delivery) :
  Orchestrator.schedule enqueueOptions assets p outline options w
    = Some (dag, w') →
  let w'' := exec (deliverAll enqueueOptions ds) w' in
  NoDup (map key_of (tasks w'')) ∧ dependencies_persisted (tasks w'') p.
Proof.
  intros Hs. unfold Orchestrator.schedule in Hs. cbv zeta in Hs.
  destruct (schedule _ _ _ _ _) as [w1|] eqn:Hs1; [|done].
  simpl in Hs. injection Hs as _ <-.
  apply deliverAll_invariants.
  - by eapply schedule_keys.
  - by eapply schedule_dependencies_persisted.
Qed.

End RunInvariants.
(* ===================================================================== *)
(** * The further statements at work on concrete inputs *)
(* ===================================================================== *)

Module PlannerCases.
Import Planner.

Lemma no_document_chapter assets e :
  e ∈ flattenOutline (outline (mixedContext assets)) → cid e ≠ "document".
Proof.
  rewrite PlannerExamples.mixed_outline_flattened. intros He.
  apply elem_of_cons in He as [->|He]; [by vm_compute|].
  apply list_elem_of_singleton in He as ->. by vm_compute.
Qed.

(** With a ready asset, write:1 stands third and its dependency
    retrieve:1 stands before it. *)
Lemma X2_witness :
  ∃ j m, j < 2 ∧
         nodes (buildDag (mixedContext [readyAsset])) !! j = Some m ∧
         id m = "retrieve:1".
Proof.
  eapply (X2_nodes_are_in_topological_order (mixedContext [readyAsset]) 2
            (writeNode (mixedContext [readyAsset]) false true
                       generatedEntry)).
  - by vm_compute.
  - vm_compute. apply list_elem_of_here.
Defined.

(** verify:1 depends on prepare:1 through write:1. *)
Lemma X3_witness :
  tc (depends_on (nodes (buildDag (mixedContext [])))) "verify:1" "prepare:1"
  ∧ "verify:1" ≠ "prepare:1".
Proof.
  assert (tc (depends_on (nodes (buildDag (mixedContext []))))
             "verify:1" "prepare:1") as Hchain.
  { apply (tc_l _ _ "write:1").
    - exists (verifyNode (mixedContext []) generatedEntry).
      split; [apply (list_elem_of_lookup_2 _ 2); by vm_compute|].
      split; [by vm_compute|]. vm_compute. apply list_elem_of_here.
    - apply tc_once.
      exists (writeNode (mixedContext []) false false generatedEntry).
      split; [apply (list_elem_of_lookup_2 _ 1); by vm_compute|].
      split; [by vm_compute|]. vm_compute. apply list_elem_of_here. }
  split; [exact Hchain|].
  exact (X3_dependencies_are_acyclic (mixedContext []) _ _ Hchain).
Defined.

(** The dependency of write:1 on prepare:1 has its edge. *)
Lemma X4_witness :
  "prepare:1" ∈ map id (nodes (buildDag (mixedContext []))) ∧
  ∃ x, x ∈ edges (buildDag (mixedContext [])) ∧
       from x = "prepare:1" ∧ to x = "write:1".
Proof.
  apply (X4_every_dependency_has_its_edge (mixedContext [])
           (writeNode (mixedContext []) false false generatedEntry)).
  - apply (list_elem_of_lookup_2 _ 1). by vm_compute.
  - vm_compute. apply list_elem_of_here.
Defined.

(** The edge into the sink from assemble:2 is a dependency of the
    sink. *)
Lemma X5_witness :
  ∃ n, n ∈ nodes (buildDag (mixedContext [])) ∧
       id n = "assemble:document" ∧ "assemble:2" ∈ dependencies n.
Proof.
  apply (X5_every_edge_is_a_dependency (mixedContext [])
           {| from := "assemble:2"; to := "assemble:document";
              reason := Some "章节合并" |}).
  - apply PlannerExamples.mixed_outline_distinct.
  - apply no_document_chapter.
  - apply (list_elem_of_lookup_2 _ 5). by vm_compute.
Defined.

End PlannerCases.

Module StoreCases.
Import Store Dispatcher.

(** Persisting the one-chapter DAG into the empty table. *)
Lemma X8_witness :
  Forall2 (wired_from "demo" (Planner.edges demoDag))
          ([] ++ map (new_row "demo") (Planner.nodes demoDag))
          demoPersisted ∧
  NoDup (map key_of demoPersisted).
Proof.
  apply (X8_persistDag_wires_dependents_from_edges "demo" demoDag []).
  by vm_compute.
Defined.

End StoreCases.

Module DispatcherCases.
Import Store Dispatcher.

Lemma demoOutline_distinct :
  distinct_chapters (Planner.flattenOutline demoOutline).
Proof.
  apply NoDup_distinct_chapters. apply (bool_decide_unpack _).
  by vm_compute.
Qed.

Lemma demoOutline_no_document e :
  e ∈ Planner.flattenOutline demoOutline → cid e ≠ "document".
Proof.
  intros He. apply list_elem_of_singleton in He as ->. by vm_compute.
Qed.

Lemma demo_schedule :
  Orchestrator.schedule None [] "demo" demoOutline plainOptions emptyWorld
  = Some (demoDag, demoScheduled).
Proof. by vm_compute. Qed.

(** The result of prepare:1 releases write:1. *)
Lemma X15_witness :
  ∃ js j,
    jobs (exec (handleWorkerResult None prepareDone) demoScheduled)
      = jobs demoScheduled ++ js ∧
    j ∈ js ∧ j_queue j = writer ∧ j_name j = "demo:write:1".
Proof.
  assert (∃ m, tasks demoScheduled !! 1%nat = Some m ∧
               projectId m = "demo" ∧ status m = pending ∧
               nodeId m = "write:1" ∧ type m = Planner.write ∧
               dependencies m = ["prepare:1"])
    as (m & Hm & Hp & Hs & Hn & Hty & Hd).
  { eexists. split; [by vm_compute|]. by vm_compute. }
  destruct (X15_completion_releases_waiting_dependents None demoScheduled
              prepareDone m)
    as (_ & _ & js & j & Hjs & Hj & Hq & Hname).
  - exists Planner.prepare. split; [done|]. split; [done|]. by left.
  - by eapply list_elem_of_lookup_2.
  - by rewrite Hp.
  - done.
  - by rewrite Hn.
  - rewrite Hd. intros dep Hdep.
    apply list_elem_of_singleton in Hdep as ->. by left.
  - exists js, j. split; [done|]. split; [done|].
    rewrite Hq, Hname, Hty, Hn. by split.
Defined.

(** What the result of prepare:1 dispatches are ready tasks. *)
Lemma X16_witness :
  let w' := exec (deliver None (Result prepareDone)) demoScheduled in
  ∃ js, jobs w' = jobs demoScheduled ++ js ∧
    ∀ j, j ∈ js →
      j_queue j = autofixer ∨
      ∃ ts, ts ∈ tasks w' ∧ projectId ts = "demo" ∧
            j_queue j = resolveQueue (type ts) ∧
            j_name j = "demo" +:+ ":" +:+ nodeId ts ∧
            status ts = running ∧
            ∀ dep r, dep ∈ dependencies ts → r ∈ tasks w' →
                     has_key "demo" dep r → status r = completed.
Proof.
  apply (X16_only_ready_tasks_are_dispatched None (Result prepareDone)
           demoScheduled).
  simpl. by intros [=].
Defined.

(** The failure of write:1 adds no job. *)
Lemma X17_witness :
  jobs (exec (deliver None writeFailed) demoWriting) = jobs demoWriting.
Proof.
  apply (X17_failures_and_progress_never_enqueue None writeFailed
           demoWriting).
  by left.
Defined.

(** The failure of write:1 leaves the message of the worker in its
    row. *)
Lemma X18_witness :
  Forall2 (fun r r' =>
             if decide (has_key "demo" "write:1" r) then
               error r' = Some "worker crashed" ∧ result r' = result r
             else error r' = error r ∧ result r' = result r)
          (tasks demoWriting)
          (tasks (exec (deliver None writeFailed) demoWriting)).
Proof.
  exact (X18_failure_records_its_error None writeFailed "demo" "write:1"
           demoWriting eq_refl eq_refl).
Defined.

(** Three rounds of repair of verify:1 add six jobs. *)
Lemma X19_witness :
  let w' := exec (deliverAll None
                    (repairRounds (verifyResult "soft_fail") autofixDone 3))
                 demoVerifying in
  length (jobs w') = (length (jobs demoVerifying) + 2 * 3)%nat ∧
  is_Some (getTask "demo" "verify:1" (tasks w')) ∧
  (0 < 3 → ∀ r, r ∈ tasks w' → has_key "demo" "verify:1" r →
           status r = running).
Proof.
  apply (X19_repair_rounds_have_no_bound None (verifyResult "soft_fail")
           autofixDone demoVerifying 3); try reflexivity.
  eexists. by vm_compute.
Defined.

(** After the repair the verify job carries the draft of write:1, not
    the patched one. *)
Lemma X20_witness :
  ∃ j, jobs (exec (handleWorkerResult None autofixDone) demoRepairing)
         = jobs demoRepairing ++ [j] ∧
       j_queue j = verifier ∧
       ("draft", Some (JStr "draft one")) ∈ j_payload j.
Proof.
  assert (∃ task, getTask "demo" "verify:1" (tasks demoRepairing)
                  = Some task ∧
                  type task = Planner.verify ∧
                  List.find (startsWith "write") (dependencies task)
                  = Some "write:1")
    as (task & Htask & Hty & Hw).
  { eexists. split; [by vm_compute|]. by vm_compute. }
  destruct (X20_reverify_job_takes_the_writers_draft_first None
              demoRepairing autofixDone task "write:1"
              eq_refl eq_refl Htask Hty Hw)
    as (j & Hj & Hq & _ & Hd); [discriminate|].
  exists j. split; [done|]. split; [done|].
  assert (prop "draft" (getTask "demo" "write:1" (tasks demoRepairing)
                          ≫= result) ??
          (prop "draft" (r_result autofixDone) ?? metadata task !! "draft")
          = Some (JStr "draft one")) as E.
  { assert (prop "draft" (getTask "demo" "write:1" (tasks demoRepairing)
                            ≫= result) = Some (JStr "draft one")) as ->
      by (by vm_compute).
    done. }
  by rewrite <- E.
Defined.


(** The dependents of prepare:1 in the scheduled one-chapter
    document. *)
Lemma X22_witness :
  ∃ r, tasks demoScheduled !! 0%nat = Some r ∧
    NoDup (dependents r) ∧
    ∀ m, m ∈ dependents r ↔
         ∃ r2, r2 ∈ tasks demoScheduled ∧ projectId r2 = "demo" ∧
               nodeId r2 = m ∧ nodeId r ∈ dependencies r2.
Proof.
  assert (∃ r, tasks demoScheduled !! 0%nat = Some r ∧
               projectId r = "demo") as (r & Hr & Hp).
  { eexists. split; [by vm_compute|]. by vm_compute. }
  exists r. split; [exact Hr|].
  apply (X22_schedule_wires_dependents_to_dependencies None [] "demo"
           demoOutline plainOptions emptyWorld demoScheduled demoDag).
  - constructor.
  - apply demoOutline_distinct.
  - apply demoOutline_no_document.
  - apply demo_schedule.
  - by eapply list_elem_of_lookup_2.
  - exact Hp.
Defined.

(** A result in project demo leaves another project alone. *)
Lemma X23_witness :
  let w' := exec (deliver None (Result prepareDone)) demoScheduled in
  rows_of "other" (tasks w') = rows_of "other" (tasks demoScheduled) ∧
  listReadyTasks "other" (tasks w')
    = listReadyTasks "other" (tasks demoScheduled) ∧
  ∀ x, getTask "other" x (tasks w') = getTask "other" x (tasks demoScheduled).
Proof.
  apply (X23_deliveries_stay_within_their_project None (Result prepareDone)
           demoScheduled "other").
  simpl. by intros [=].
Defined.

(** The job of write:1 comes back from the writer's worker. *)
Lemma X25_witness :
  Node Planner.write = Node (type demoWriteRow) ∧
  Workers.onCompleted (Node Planner.write)
    (j_payload (jobFor None "demo" (tasks demoScheduled) demoWriteRow))
    (Some (JObj [("draft", JStr "draft one")])) =
    Some {| r_projectId := "demo"; r_nodeId := "write:1";
            r_type := Node Planner.write;
            r_result := Some (JObj [("draft", JStr "draft one")]);
            r_error := None |}.
Proof.
  destruct (X25_jobs_come_back_as_events_of_their_task None "demo"
              (tasks demoScheduled) demoWriteRow Workers.writer
              (Node Planner.write)
              (Some (JObj [("draft", JStr "draft one")])) None)
    as (Hty & _ & Hdone & _).
  - unfold Workers.dagWorkers.
    apply list_elem_of_further, list_elem_of_further, list_elem_of_here.
  - reflexivity.
  - split; [exact Hty|exact Hdone].
Defined.

(** The autofix job of verify:1 comes back as an autofix event. *)
Lemma X26_witness :
  Workers.onCompleted Autofix
    (j_payload (autofixJob "demo" "verify:1"
                  (r_result (verifyResult "soft_fail"))))
    (Some (JObj [("draft", JStr "draft two")])) = Some autofixDone.
Proof.
  destruct (X26_autofix_jobs_come_back_for_the_verify_task "demo"
              "verify:1" (r_result (verifyResult "soft_fail"))
              Workers.autofixer Autofix
              (Some (JObj [("draft", JStr "draft two")])) None)
    as (_ & Hdone & _).
  - unfold Workers.dagWorkers.
    do 6 apply list_elem_of_further. apply list_elem_of_here.
  - reflexivity.
  - exact Hdone.
Defined.

(** The scheduled document after a result and a failure. *)
Lemma X27_witness :
  let w'' := exec (deliverAll None [Result prepareDone; writeFailed])
                  demoScheduled in
  NoDup (map key_of (tasks w'')) ∧
  dependencies_persisted (tasks w'') "demo".
Proof.
  apply (X27_scheduled_tables_stay_well_formed None [] "demo" demoOutline
           plainOptions emptyWorld demoScheduled demoDag
           [Result prepareDone; writeFailed]).
  apply demo_schedule.
Defined.

(** A soft_fail verdict for verify:9, which has no row. *)
Lemma X28_witness :
  let w' := exec (deliver None (Result strayVerifyResult)) demoVerifying in
  let resumed := exec (Orchestrator.resume None "demo") demoVerifying in
  ((∀ event, Result strayVerifyResult = Result event → ¬ completing event) →
   tasks w' = tasks demoVerifying ∧ jobs w' = jobs demoVerifying) ∧
  (∀ event, Result strayVerifyResult = Result event → completing event →
   tasks w' = tasks resumed ∧ jobs w' = jobs resumed).
Proof.
  apply (X28_events_about_unknown_tasks_write_nothing None
           (Result strayVerifyResult) "demo" "verify:9" demoVerifying).
  - by vm_compute.
  - reflexivity.
Defined.

(** The result of write:1 releases verify:1 with the writer's draft. *)
Lemma X29_witness :
  ∃ js j,
    jobs (exec (handleWorkerResult None writeDone) demoWriting)
      = jobs demoWriting ++ js ∧
    j ∈ js ∧ j_queue j = verifier ∧
    ("draft", Some (JStr "draft one")) ∈ j_payload j.
Proof.
  assert (∃ m, tasks demoWriting !! 2%nat = Some m ∧
               projectId m = "demo" ∧ status m = pending ∧
               nodeId m = "verify:1" ∧ type m = Planner.verify ∧
               dependencies m = ["write:1"])
    as (m & Hm & Hp & Hs & Hn & Hty & Hd).
  { eexists. split; [by vm_compute|]. by vm_compute. }
  assert (∃ task, getTask "demo" "write:1" (tasks demoWriting) = Some task)
    as (task & Htask).
  { eexists. by vm_compute. }
  destruct (X29_released_job_is_built_from_the_fresh_result None
              demoWriting writeDone m task
              (JObj [("draft", JStr "draft one")]))
    as (js & j & Hjs & Hj & [Hq _] & _ & _ & Hdraft & _).
  - exists Planner.write. split; [done|]. split; [done|]. by left.
  - exact Htask.
  - reflexivity.
  - discriminate.
  - by eapply list_elem_of_lookup_2.
  - by rewrite Hp.
  - exact Hs.
  - by rewrite Hn.
  - rewrite Hd. intros dep Hdep.
    apply list_elem_of_singleton in Hdep as ->. by left.
  - exists js, j. split; [exact Hjs|]. split; [exact Hj|].
    split; [by rewrite Hq, Hty|].
    apply (Hdraft Hty). by rewrite Hd.
Defined.

(** With a ready asset the job of write:1 has the empty prompt. *)
Lemma X30_witness :
  dependencies
    (new_row "demo"
       (Planner.writeNode (mixedContext [readyAsset])
          (Planner.hasEmbed (mixedContext [readyAsset]))
          (Planner.hasTable (mixedContext [readyAsset])) generatedEntry))
    = [Planner.retrieveId generatedEntry] ∧
  ("prompt", Some (JStr ""))
  ∈ payloadOf "demo" []
      (new_row "demo"
         (Planner.writeNode (mixedContext [readyAsset])
            (Planner.hasEmbed (mixedContext [readyAsset]))
            (Planner.hasTable (mixedContext [readyAsset])) generatedEntry)).
Proof.
  apply (X30_write_job_behind_retrieve_has_empty_prompt
           (mixedContext [readyAsset]) generatedEntry "demo" []).
  - exists readyAsset. split; [apply list_elem_of_here|by right].
  - reflexivity.
  - reflexivity.
  - reflexivity.
Defined.

End DispatcherCases.
